(** * Crab-Lib: the geospatial distance and clustering engine

    A shallow embedding of [analysis.py], [utils.py] and [preprocessing.py],
    and the properties of their functions.

    Python floats are IEEE 754 binary64 numbers: they are modelled by the
    Standard Library's [spec_float] at precision 53 and maximal exponent
    1024, so that sums, products, quotients, square roots and comparisons
    are the ones the interpreter computes.  The functions of the C library
    ([sin], [cos], [atan2], [pow], [fmod]) are not part of the repository:
    they are the fields of a record [Libm] every definition that calls them
    takes as an argument, and a theorem that needs a property of one of them
    states it as a hypothesis.  The same holds for the reading of a float
    from a string.  Exceptions are the error side of a small result monad.
    Strings are strings of code points below 256, with the methods of [str]
    on them; the rows [standardize_comments] writes into are objects of a
    store. *)

From Stdlib Require Import ZArith List Bool Lia Permutation Sorted.
From Stdlib Require Import SpecFloat.
From stdpp Require Import base decidable list sorting gmap strings.
From Stdlib Require Import Ascii.

(** ** Python exceptions and the result monad *)

Inductive PyExc : Set :=
| ZeroDivisionError
| ValueError
| OverflowError
| IndexError.

(** The exceptions that derive from Python's [ArithmeticError]. *)
Definition is_arithmetic_error (e : PyExc) : bool :=
  match e with
  | ZeroDivisionError | OverflowError => true
  | ValueError | IndexError => false
  end.

Inductive result (A : Type) : Type :=
| Return (a : A)
| Raise (e : PyExc).

Arguments Return {A} a.
Arguments Raise {A} e.

Definition rbind {A B} (r : result A) (k : A -> result B) : result B :=
  match r with
  | Return a => k a
  | Raise e => Raise e
  end.

Notation "'let*' v ':=' r 'in' k" := (rbind r (fun v => k))
  (at level 10, v name, r at level 100, k at level 200).

Definition returns {A} (r : result A) : Prop := exists a, r = Return a.

(** A [for] loop over the items [l] whose body updates the loop state [s];
    an exception raised by the body leaves the loop. *)
Fixpoint for_each {A S : Type} (l : list A) (body : S -> A -> result S) (s : S)
  : result S :=
  match l with
  | [] => Return s
  | a :: l' => let* s' := body s a in for_each l' body s'
  end.

(** [range(a, b)], [enumerate(l)] and [l[i]]. *)
Definition range (a b : nat) : list nat := seq a (b - a).

Definition enumerate {A : Type} (l : list A) : list (nat * A) :=
  zip (seq 0 (length l)) l.

Definition getitem {A : Type} (l : list A) (i : nat) : result A :=
  match l !! i with
  | Some a => Return a
  | None => Raise IndexError
  end.

(** ** Binary64 floats *)

Module Float.

Definition prec : Z := 53.
Definition emax : Z := 1024.

Definition float : Set := spec_float.

Definition add : float -> float -> float := SFadd prec emax.
Definition sub : float -> float -> float := SFsub prec emax.
Definition mul : float -> float -> float := SFmul prec emax.
Definition div : float -> float -> float := SFdiv prec emax.
Definition sqrt : float -> float := SFsqrt prec emax.
Definition opp : float -> float := SFopp.
Definition abs : float -> float := SFabs.
Definition ltb : float -> float -> bool := SFltb.
Definition leb : float -> float -> bool := SFleb.
Definition eqb : float -> float -> bool := SFeqb.

(** Conversion of a Python [int] (every one the code converts is small). *)
Definition of_Z (n : Z) : float := binary_normalize prec emax n 0 false.

Definition is_nan (f : float) : bool :=
  match f with S754_nan => true | _ => false end.
Definition is_inf (f : float) : bool :=
  match f with S754_infinity _ => true | _ => false end.
Definition is_finite (f : float) : bool :=
  match f with S754_zero _ | S754_finite _ _ _ => true | _ => false end.
Definition is_zero (f : float) : bool :=
  match f with S754_zero _ => true | _ => false end.

(** The sign bit ([false] for NaN, as nothing below reads it there). *)
Definition signbit (f : float) : bool :=
  match f with
  | S754_zero s | S754_infinity s | S754_finite s _ _ => s
  | S754_nan => false
  end.

(** The same float: the same sign, mantissa and exponent. *)
Definition same (f g : float) : bool :=
  match f, g with
  | S754_zero s, S754_zero s' | S754_infinity s, S754_infinity s' => Bool.eqb s s'
  | S754_nan, S754_nan => true
  | S754_finite s m e, S754_finite s' m' e' =>
      Bool.eqb s s' && Pos.eqb m m' && Z.eqb e e'
  | _, _ => false
  end.

(** [Py_MATH_PI], 0x400921FB54442D18. *)
Definition pi : float := S754_finite false 7074237752028440 (-51).

End Float.

Abbreviation float := Float.float.

(** ** The C library *)

Record Libm : Type := {
  libm_sin : float -> float;
  libm_cos : float -> float;
  libm_atan2 : float -> float -> float;
  libm_pow : float -> float -> float;
  libm_fmod : float -> float -> float
}.

(** ** The [math] module and float operators of the interpreter *)

Section Math.

Context (M : Libm).

(** [math_1] of mathmodule.c, for functions that cannot overflow: a NaN
    from a number and an infinity from a finite number are domain errors. *)
Definition math_1 (func : float -> float) (v : float) : result float :=
  let r := func v in
  if Float.is_nan r && negb (Float.is_nan v) then Raise ValueError
  else if Float.is_inf r && Float.is_finite v then Raise ValueError
  else Return r.

(** [math_2] of mathmodule.c. *)
Definition math_2 (func : float -> float -> float) (v w : float) : result float :=
  let r := func v w in
  if Float.is_nan r && negb (Float.is_nan v) && negb (Float.is_nan w)
  then Raise ValueError
  else if Float.is_inf r && Float.is_finite v && Float.is_finite w
  then Raise OverflowError
  else Return r.

Definition degToRad : float := Float.div Float.pi (Float.of_Z 180).
Definition radToDeg : float := Float.div (Float.of_Z 180) Float.pi.

Definition radians (v : float) : float := Float.mul v degToRad.
Definition degrees (v : float) : float := Float.mul v radToDeg.

Definition sin : float -> result float := math_1 (libm_sin M).
Definition cos : float -> result float := math_1 (libm_cos M).
Definition sqrt : float -> result float := math_1 Float.sqrt.
(** [copysign(c, v)] for a number [v]. *)
Definition copysign (c v : float) : float :=
  if Float.signbit v then Float.opp (Float.abs c) else Float.abs c.

(** [m_atan2] of mathmodule.c: NaN, infinite and zero arguments are answered
    without the C library. *)
Definition m_atan2 (v w : float) : float :=
  if Float.is_nan w || Float.is_nan v then S754_nan
  else if Float.is_inf v then
    if Float.is_inf w then
      if Float.eqb (copysign (Float.of_Z 1) w) (Float.of_Z 1)
      then copysign (Float.mul (Float.div (Float.of_Z 1) (Float.of_Z 4)) Float.pi) v
      else copysign (Float.mul (Float.div (Float.of_Z 3) (Float.of_Z 4)) Float.pi) v
    else copysign (Float.mul (Float.div (Float.of_Z 1) (Float.of_Z 2)) Float.pi) v
  else if Float.is_inf w || Float.is_zero v then
    if Float.eqb (copysign (Float.of_Z 1) w) (Float.of_Z 1)
    then copysign (S754_zero false) v
    else copysign Float.pi v
  else libm_atan2 M v w.

Definition atan2 : float -> float -> result float := math_2 m_atan2.

(** [v ** 2], that is [float_pow] of floatobject.c at the exponent 2.0:
    NaN, infinities, zeros and one are answered without the C library, a
    negative base is replaced by its absolute value (the exponent is an
    even integer), and an overflow of the C library's result is an
    [OverflowError]. *)
Definition pow2 (v : float) : result float :=
  if Float.is_nan v then Return v
  else if Float.is_inf v then Return (Float.abs v)
  else if Float.is_zero v then Return (S754_zero false)
  else
    let iv := if Float.ltb v (S754_zero false) then Float.opp v else v in
    if Float.eqb iv (Float.of_Z 1) then Return (Float.of_Z 1)
    else
      let r := libm_pow M iv (Float.of_Z 2) in
      if Float.is_inf r then Raise OverflowError else Return r.

(** [v / w] on floats: [float_div]. *)
Definition truediv (v w : float) : result float :=
  if Float.is_zero w then Raise ZeroDivisionError
  else Return (Float.div v w).

(** [v % w] on floats, that is [float_rem] of floatobject.c: the remainder
    of the C library, moved to the sign of the divisor. *)
Definition rem (v w : float) : result float :=
  if Float.is_zero w then Raise ZeroDivisionError
  else
    let r := libm_fmod M v w in
    if negb (Float.eqb r (S754_zero false)) then
      if xorb (Float.ltb w (S754_zero false)) (Float.ltb r (S754_zero false))
      then Return (Float.add r w)
      else Return r
    else Return (copysign (S754_zero false) w).

End Math.

(** ** Built-in functions and the division operator *)

Module Py.

(** A Python number: [sum] starts from the [int] 0 and [len] is an [int]. *)
Inductive number : Type :=
| Int (n : Z)
| Flt (f : float).

Definition to_float (a : number) : float :=
  match a with
  | Int n => Float.of_Z n
  | Flt f => f
  end.

(** [sum(l)] of floats: the [int] 0, then the items added from left to
    right. *)
Definition sum (l : list float) : number :=
  fold_left (fun acc v => Flt (Float.add (to_float acc) v)) l (Int 0).

(** [a / n] for an [int] [n]: both [long_true_divide] and [float_div]
    refuse a zero divisor. *)
Definition truediv (a : number) (n : Z) : result float :=
  if (n =? 0)%Z then Raise ZeroDivisionError
  else Return (Float.div (to_float a) (Float.of_Z n)).

(** [min(l)] and [max(l)]: the first item, replaced by each later item
    that compares smaller (greater); an empty list is a [ValueError]. *)
Definition min (l : list float) : result float :=
  match l with
  | [] => Raise ValueError
  | a :: l' => Return (fold_left (fun m v => if Float.ltb v m then v else m) l' a)
  end.

Definition max (l : list float) : result float :=
  match l with
  | [] => Raise ValueError
  | a :: l' => Return (fold_left (fun m v => if Float.ltb m v then v else m) l' a)
  end.

End Py.

(** ** Points *)

(** A row of the dataset: the mapping with the keys ['x'], ['y'] and
    ['comment'].  The coordinates are floats already, so that [float(...)]
    of them is the identity. *)
Record Point : Type := mkPoint {
  x : float;
  y : float;
  comment : string
}.

Definition coord : Type := float * float.

Definition coords (p : Point) : coord := (x p, y p).

(** The mapping with the keys ['point1'], ['point2'] and ['distance']. *)
Record DistanceRecord : Type := mkDistanceRecord {
  point1 : coord;
  point2 : coord;
  distance : float
}.

(** The mapping [bounding_box] and the mapping [summarize_data] returns. *)
Record BoundingBox : Type := mkBoundingBox {
  min_lat : float;
  max_lat : float;
  min_lon : float;
  max_lon : float
}.

Record Summary : Type := mkSummary {
  total_points : Z;
  average_latitude : float;
  average_longitude : float;
  bounding_box : BoundingBox
}.

(** ** analysis.py *)

Section Analysis.

Context (M : Libm).

(** Radius of the Earth in kilometers. *)
Definition R : float := Float.of_Z 6371.

Definition haversine_distance (coord1 coord2 : coord) : result float :=
  let lat1 := radians (fst coord1) in
  let lon1 := radians (snd coord1) in
  let lat2 := radians (fst coord2) in
  let lon2 := radians (snd coord2) in
  let dlat := Float.sub lat2 lat1 in
  let dlon := Float.sub lon2 lon1 in
  let* hlat := truediv dlat (Float.of_Z 2) in
  let* s1 := sin M hlat in
  let* t1 := pow2 M s1 in
  let* c1 := cos M lat1 in
  let* c2 := cos M lat2 in
  let* hlon := truediv dlon (Float.of_Z 2) in
  let* s2 := sin M hlon in
  let* t2 := pow2 M s2 in
  let a := Float.add t1 (Float.mul (Float.mul c1 c2) t2) in
  let* ra := sqrt a in
  let* rb := sqrt (Float.sub (Float.of_Z 1) a) in
  let* t := atan2 M ra rb in
  let c := Float.mul (Float.of_Z 2) t in
  Return (Float.mul R c).

Definition calculate_distances (data : list Point) : result (list DistanceRecord) :=
  for_each (range 0 (length data)) (fun distances i =>
    for_each (range (i + 1) (length data)) (fun distances j =>
      let* di := getitem data i in
      let* dj := getitem data j in
      let point1 := (x di, y di) in
      let point2 := (x dj, y dj) in
      let* distance := haversine_distance point1 point2 in
      Return (distances ++ [mkDistanceRecord point1 point2 distance]))
    distances)
  [].

Definition find_clusters (data : list Point) (radius : float)
  : result (list (list Point)) :=
  let* st :=
    for_each (enumerate data) (fun '(clusters, visited) '(i, point) =>
      if decide (i ∈ visited) then Return (clusters, visited)
      else
        let cluster := [] in
        let visited := visited ∪ {[ i ]} in
        let* st' :=
          for_each (enumerate data) (fun '(cluster, visited) '(j, other_point) =>
            if decide (j ∈ visited) then Return (cluster, visited)
            else
              let point1 := (x point, y point) in
              let point2 := (x other_point, y other_point) in
              let* distance := haversine_distance point1 point2 in
              if Float.leb distance radius
              then Return (cluster ++ [other_point], visited ∪ {[ j ]})
              else Return (cluster, visited))
          (cluster, visited) in
        let '(cluster, visited) := st' in
        Return (clusters ++ [[point] ++ cluster], visited))
    ([], (∅ : gset nat)) in
  Return (fst st).

End Analysis.

(** ** utils.py *)

Definition calculate_bearing (M : Libm) (coord1 coord2 : coord) : result float :=
  let lat1 := radians (fst coord1) in
  let lon1 := radians (snd coord1) in
  let lat2 := radians (fst coord2) in
  let lon2 := radians (snd coord2) in
  let dlon := Float.sub lon2 lon1 in
  let* sdlon := sin M dlon in
  let* clat2 := cos M lat2 in
  let x := Float.mul sdlon clat2 in
  let* clat1 := cos M lat1 in
  let* slat2 := sin M lat2 in
  let* slat1 := sin M lat1 in
  let* clat2' := cos M lat2 in
  let* cdlon := cos M dlon in
  let y := Float.sub (Float.mul clat1 slat2)
                     (Float.mul (Float.mul slat1 clat2') cdlon) in
  let* initial_bearing := atan2 M x y in
  let initial_bearing := degrees initial_bearing in
  rem M (Float.add initial_bearing (Float.of_Z 360)) (Float.of_Z 360).

Definition summarize_data (data : list Point) : result Summary :=
  let total_points := Z.of_nat (length data) in
  let* avg_lat := Py.truediv (Py.sum (map x data)) total_points in
  let* avg_lon := Py.truediv (Py.sum (map y data)) total_points in
  let latitudes := map x data in
  let longitudes := map y data in
  let* min_lat := Py.min latitudes in
  let* max_lat := Py.max latitudes in
  let* min_lon := Py.min longitudes in
  let* max_lon := Py.max longitudes in
  let bounding_box := mkBoundingBox min_lat max_lat min_lon max_lon in
  Return (mkSummary total_points avg_lat avg_lon bounding_box).


(** ** The index view of the clusters *)

(** The lemmas on [find_clusters] follow the dataset indices of the points
    it puts in clusters; the definitions below state what a list of indices
    must satisfy to be a cluster found by the two loops. *)

Section Clusters.

Context (M : Libm) (data : list Point) (radius : float).

(** Point [j] is within [radius] of point [i]. *)
Definition close (i j : nat) : Prop :=
  exists pi pj d,
    (data !! i = Some pi) /\ (data !! j = Some pj) /\
    haversine_distance M (coords pi) (coords pj) = Return d /\
    Float.leb d radius = true.

Definition cluster_at (before ic : list nat) : Prop :=
  exists i js,
    ic = i :: js /\
    (i ∉ before) /\ (forall k, k < i -> k ∈ before) /\
    StronglySorted lt (i :: js) /\
    Forall (fun j => (j ∉ before) /\ close i j) js /\
    (forall j, j < length data -> j ∉ before -> j <> i -> close i j -> j ∈ js).

Fixpoint greedy (before : list nat) (ics : list (list nat)) : Prop :=
  match ics with
  | [] => True
  | ic :: rest => cluster_at before ic /\ greedy (before ++ ic) rest
  end.

Definition points_at (ic : list nat) (c : list Point) : Prop :=
  Forall2 (fun i p => data !! i = Some p) ic c.

Definition inner_body (point : Point)
  : list Point * gset nat -> nat * Point -> result (list Point * gset nat) :=
  fun '(cluster, visited) '(j, other_point) =>
    if decide (j ∈ visited) then Return (cluster, visited)
    else
      let point1 := (x point, y point) in
      let point2 := (x other_point, y other_point) in
      let* distance := haversine_distance M point1 point2 in
      if Float.leb distance radius
      then Return (cluster ++ [other_point], visited ∪ {[ j ]})
      else Return (cluster, visited).

Definition outer_body
  : list (list Point) * gset nat -> nat * Point -> result (list (list Point) * gset nat) :=
  fun '(clusters, visited) '(i, point) =>
    if decide (i ∈ visited) then Return (clusters, visited)
    else
      let* st' := for_each (enumerate data) (inner_body point) ([], visited ∪ {[ i ]}) in
      let '(cluster, visited) := st' in
      Return (clusters ++ [[point] ++ cluster], visited).

End Clusters.

(** The order of two clusters: by their first index. *)
Definition seed_lt (ic1 ic2 : list nat) : Prop :=
  exists i1 i2, head ic1 = Some i1 /\ head ic2 = Some i2 /\ i1 < i2.

(** ** The pairs of [calculate_distances] *)

(** The results of [f] on the items of [l], in order; the first exception
    ends the traversal. *)
Fixpoint mapM {A B : Type} (f : A -> result B) (l : list A) : result (list B) :=
  match l with
  | [] => Return []
  | a :: l' => let* b := f a in let* bs := mapM f l' in Return (b :: bs)
  end.

(** The pairs of dataset indices [(i, j)] with [i < j], in lexicographic
    order: the pairs of the square grid of indices, row by row, that lie
    above the diagonal. *)
Definition index_pairs (n : nat) : list (nat * nat) :=
  filter (fun ij => fst ij < snd ij) (list_prod (seq 0 n) (seq 0 n)).

(** The lexicographic order on pairs of indices. *)
Definition lex_lt (a b : nat * nat) : Prop :=
  fst a < fst b \/ (fst a = fst b /\ snd a < snd b).

(** The record of the pair [(i, j)]: the coordinates of both points and
    their haversine distance. *)
Definition distance_record (M : Libm) (data : list Point) (ij : nat * nat)
  : result DistanceRecord :=
  let* di := getitem data (fst ij) in
  let* dj := getitem data (snd ij) in
  let* d := haversine_distance M (coords di) (coords dj) in
  Return (mkDistanceRecord (coords di) (coords dj) d).

(** The pairs in the order the two loops of [calculate_distances] visit them. *)
Definition loop_pairs (n : nat) : list (nat * nat) :=
  flat_map (fun i => map (pair i) (range (i + 1) n)) (range 0 n).

(** ** The summary *)

(** The arithmetic mean of floats: their sum, from zero and in order, over
    their number. *)
Definition mean (l : list float) : float :=
  Float.div (fold_left Float.add l (Float.of_Z 0)) (Float.of_Z (Z.of_nat (length l))).

(** [m] is an item of [l] that no item is below (above). *)
Definition is_minimum (m : float) (l : list float) : Prop :=
  m ∈ l /\ forall v, v ∈ l -> Float.leb m v = true.

Definition is_maximum (m : float) (l : list float) : Prop :=
  m ∈ l /\ forall v, v ∈ l -> Float.leb v m = true.

Definition is_number (v : float) : Prop := Float.is_nan v = false.

(** ** Signs *)

(** A NaN, a zero, or a number whose sign bit is clear. *)
Definition not_negative (f : float) : bool :=
  match f with
  | S754_nan | S754_zero _ => true
  | S754_infinity s | S754_finite s _ _ => negb s
  end.

(** ** Magnitudes *)

(** A finite float of magnitude at most [2 ^ K]. *)
Definition bounded (K : Z) (f : float) : Prop :=
  match f with
  | S754_zero _ => True
  | S754_finite _ m e => (e <= K /\ e <= 971 /\ Z.pos m <= 2 ^ (K - e))%Z
  | _ => False
  end.

(** A finite float of magnitude below [2 ^ K]. *)
Definition strictly (K : Z) (f : float) : Prop :=
  match f with
  | S754_finite _ m e => (Z.pos m < 2 ^ (K - e))%Z
  | _ => True
  end.

(** A finite binary64 number: a zero, or a mantissa of at most 53 bits with
    an exponent in range. *)
Definition finite_number (v : float) : Prop :=
  Float.is_finite v = true /\ valid_binary Float.prec Float.emax v = true.

(** [bounded], decided. *)
Definition in_range (K : Z) (f : float) : bool :=
  match f with
  | S754_zero _ => true
  | S754_finite _ m e => ((e <=? K) && (e <=? 971) && (Z.pos m <=? 2 ^ (K - e)))%Z
  | _ => false
  end.

(** ** Data for concrete runs *)

(** An instance of [Libm] to run the definitions on concrete datasets: the
    leading terms of the series of each function (good for points that are a
    few degrees apart; the arc tangent of [v / w] is taken for [v] much
    smaller than [|w|], the remainder for a [v] from zero to twice [w]).  A
    result [r] that leaves the range of its function is cut to a zero with
    the sign of the argument [v].  No theorem below depends on the instance;
    it satisfies what the theorems ask of the C library. *)
Definition cut (K : Z) (v r : float) : float :=
  if in_range K r then r else S754_zero (Float.signbit v).

Definition series_libm : Libm := {|
  libm_sin := fun v => if Float.is_finite v then cut 0 v v else S754_nan;
  libm_cos := fun v =>
    if Float.is_finite v
    then cut 0 v (Float.sub (Float.of_Z 1) (Float.div (Float.mul v v) (Float.of_Z 2)))
    else S754_nan;
  libm_atan2 := fun v w => cut 2 v (Float.div v (Float.abs w));
  libm_pow := fun v _ => Float.mul v v;
  libm_fmod := fun v w =>
    if Float.ltb v w then v
    else
      let d := Float.sub v w in
      if Float.ltb d w && negb (Float.signbit d) then d else S754_zero false
|}.

(** The values the GNU C library returns at the arguments that the call
    [haversine_distance((-87.5, 0.0), (87.5, 180.0))] passes to it (the sines
    of 87.5 and of 90 degrees, the cosines of -87.5 and of 87.5 degrees, the
    square of the first sine), and NaN everywhere else. *)
Definition glibc_antipodes : Libm := {|
  libm_sin := fun v =>
    if Float.same v (S754_finite false 6877731147805428 (-52))
    then S754_finite false 8998626396882423 (-53)
    else if Float.same v (S754_finite false 7074237752028440 (-52))
    then S754_finite false 4503599627370496 (-52)
    else S754_nan;
  libm_cos := fun v =>
    if Float.same (Float.abs v) (S754_finite false 6877731147805428 (-52))
    then S754_finite false 6286216213909010 (-57)
    else S754_nan;
  libm_atan2 := fun _ _ => S754_nan;
  libm_pow := fun v w =>
    if Float.same v (S754_finite false 8998626396882423 (-53))
       && Float.same w (Float.of_Z 2)
    then S754_finite false 8990061698484946 (-53)
    else S754_nan;
  libm_fmod := fun _ _ => S754_nan
|}.

(** The points (-87.5, 0.0) and (87.5, 180.0), antipodes of each other. *)
Definition point_south : Point :=
  mkPoint (Float.div (Float.of_Z (-175)) (Float.of_Z 2)) (Float.of_Z 0) "south".
Definition point_north : Point :=
  mkPoint (Float.div (Float.of_Z 175) (Float.of_Z 2)) (Float.of_Z 180) "north".

Definition point_a : Point := mkPoint (Float.of_Z 25) (Float.of_Z (-80)) "a".
Definition point_b : Point := mkPoint (Float.of_Z 27) (Float.of_Z (-82)) "b".
Definition point_c : Point := mkPoint (Float.of_Z 25) (Float.of_Z (-80)) "c".

(** ** utils.py: bounding boxes *)

(** The tuple [(min_lat, max_lat, min_lon, max_lon)]. *)
Definition bounds : Type := float * float * float * float.

Definition is_within_bounds (coord : coord) (bounds : bounds) : bool :=
  let '(lat, lon) := coord in
  let '(min_lat, max_lat, min_lon, max_lon) := bounds in
  (Float.leb min_lat lat && Float.leb lat max_lat)
  && (Float.leb min_lon lon && Float.leb lon max_lon).

(** ** Strings *)

(** A Python [str] is modelled by a [string] whose characters are the code
    points below 256; the methods below are the ones of [str] on such
    strings. *)
Module Str.

Definition code (c : ascii) : nat := nat_of_ascii c.

(** [c.isspace()]: the white space that [strip] and [split] remove. *)
Definition isspace (c : ascii) : bool :=
  let n := code c in
  ((9 <=? n) && (n <=? 13)) || ((28 <=? n) && (n <=? 32))
  || (n =? 133) || (n =? 160).

(** The lower case of a character: of the letters A to Z, and of the
    capital letters from 192 to 222 (215, the multiplication sign, is not
    one). *)
Definition lower_char (c : ascii) : ascii :=
  let n := code c in
  if ((65 <=? n) && (n <=? 90)) || ((192 <=? n) && (n <=? 222) && negb (n =? 215))
  then ascii_of_nat (n + 32)
  else c.

(** [s.lower()]. *)
Fixpoint lower (s : string) : string :=
  match s with
  | EmptyString => EmptyString
  | String c s' => String (lower_char c) (lower s')
  end.

(** [s.startswith(sub)]. *)
Fixpoint startswith (s sub : string) {struct sub} : bool :=
  match sub, s with
  | EmptyString, _ => true
  | String _ _, EmptyString => false
  | String a sub', String c s' => Ascii.eqb a c && startswith s' sub'
  end.

(** [sub in s]: [sub] occurs in [s]. *)
Fixpoint contains (s sub : string) : bool :=
  startswith s sub
  || match s with
     | EmptyString => false
     | String _ s' => contains s' sub
     end.

(** [s.lstrip()], [s.rstrip()] and [s.strip()]. *)
Fixpoint lstrip (s : string) : string :=
  match s with
  | EmptyString => EmptyString
  | String c s' => if isspace c then lstrip s' else s
  end.

Fixpoint rstrip (s : string) : string :=
  match s with
  | EmptyString => EmptyString
  | String c s' =>
      match rstrip s' with
      | EmptyString => if isspace c then EmptyString else String c EmptyString
      | r => String c r
      end
  end.

Definition strip (s : string) : string := rstrip (lstrip s).

(** [s.replace(old, new)] for a string [old] of one character. *)
Fixpoint replace (old : ascii) (new : string) (s : string) : string :=
  match s with
  | EmptyString => EmptyString
  | String c s' =>
      if Ascii.eqb c old then new +:+ replace old new s'
      else String c (replace old new s')
  end.

(** [s.split()]: the maximal runs of characters that are not white space. *)
Fixpoint split (s : string) : list string :=
  match s with
  | EmptyString => []
  | String c s' =>
      if isspace c then split s'
      else
        match s' with
        | EmptyString => [String c EmptyString]
        | String c' _ =>
            if isspace c' then String c EmptyString :: split s'
            else
              match split s' with
              | word :: words => String c word :: words
              | [] => [String c EmptyString]
              end
        end
  end.

(** [s[-1]], an [IndexError] on the empty string, and [s[:-1]]. *)
Fixpoint last (s : string) : result ascii :=
  match s with
  | EmptyString => Raise IndexError
  | String c EmptyString => Return c
  | String _ s' => last s'
  end.

Fixpoint but_last (s : string) : string :=
  match s with
  | EmptyString => EmptyString
  | String c EmptyString => EmptyString
  | String c s' => String c (but_last s')
  end.

(** [s.isascii()]: every code point is below 128. *)
Definition isascii (s : string) : bool :=
  forallb (fun c => code c <? 128) (String.list_ascii_of_string s).

(** The capital of the first character of [capitalize] (its title case):
    of the letters a to z and of the small letters from 224 to 254 (247, the
    division sign, is not one); the capital of the sharp s, 223, is written
    with the two letters Ss.  The capitals of the two remaining small
    letters below 256, the micro sign 181 and the y with diaeresis 255, are
    code points above 255: the model leaves these two as they are, and the
    theorems on [capitalize] are about strings that [isascii] accepts. *)
Definition title_char (c : ascii) : string :=
  let n := code c in
  if ((97 <=? n) && (n <=? 122)) || ((224 <=? n) && (n <=? 254) && negb (n =? 247))
  then String (ascii_of_nat (n - 32)) EmptyString
  else if n =? 223 then "Ss"
  else String c EmptyString.

(** [s.capitalize()]: the first character in title case, the others in
    lower case. *)
Definition capitalize (s : string) : string :=
  match s with
  | EmptyString => EmptyString
  | String c s' => title_char c +:+ lower s'
  end.

End Str.

(** ** Floats read from strings *)

Section Reading.

(** [float(v)] of a string [v] is the interpreter's: its result where [v]
    reads as a number, nothing where it does not. *)
Context (float_of_str : string -> option float).

(** [float(v)]: a [ValueError] where [v] does not read as a number. *)
Definition to_float (v : string) : result float :=
  match float_of_str v with
  | Some f => Return f
  | None => Raise ValueError
  end.

(** ** utils.py: coordinates in degrees, minutes and seconds *)

(** The fields are the pieces of [dms[:-1]] between the degree sign (the
    code point 176), the apostrophe and white space, the double quotes (the
    code point 34) taken out; any exception is raised again as a
    [ValueError]. *)
Definition convert_coordinates (dms : string) : result float :=
  match
    (let dms := Str.strip dms in
     let* direction := Str.last dms in
     let fields :=
       Str.split (Str.replace "034" "" (Str.replace "'" " "
                    (Str.replace "176" " " (Str.but_last dms)))) in
     match fields with
     | [degrees; minutes; seconds] =>
         let* degrees := to_float degrees in
         let* minutes := to_float minutes in
         let* seconds := to_float seconds in
         let* m := truediv minutes (Float.of_Z 60) in
         let* s := truediv seconds (Float.of_Z 3600) in
         let decimal_degrees := Float.add (Float.add degrees m) s in
         if Ascii.eqb direction "S" || Ascii.eqb direction "W"
         then Return (Float.opp decimal_degrees)
         else Return decimal_degrees
     | _ => Raise ValueError
     end)
  with
  | Return decimal_degrees => Return decimal_degrees
  | Raise _ => Raise ValueError
  end.

(** ** preprocessing.py *)

(** A row as [clean_data] declares it ([Dict[str, str]]): a mapping from
    column names to strings.  [load_csv] reads a line that has fewer fields
    than the header with [None] at the missing columns, and [float(None)]
    raises a [TypeError], which [clean_data] does not catch: a row with a
    value that is not a string is not of this type, and nothing below says
    that [clean_data] returns for it.  What is stated of [clean_data] is
    about the check of the columns, which looks at the keys only, about the
    rows it returns when it returns, and about rows whose coordinates read
    as numbers. *)
Definition Row : Type := gmap string string.

(** [{'x', 'y', 'comment'}.issubset(row.keys())]. *)
Definition has_columns (row : Row) : bool :=
  bool_decide (({[ "x"; "y"; "comment" ]} : gset string) ⊆ dom row).

(** [(x, y) == (x', y')] on tuples of floats. *)
Definition same_key (key key' : coord) : bool :=
  Float.eqb (fst key) (fst key') && Float.eqb (snd key) (snd key').

(** [key in seen]: the set [seen] is kept as the list of its keys, in the
    order they were added. *)
Definition seen_has (seen : list coord) (key : coord) : bool :=
  existsb (same_key key) seen.

(** The rows are mappings, and after the check of the columns every row has
    the three keys, so that [row['x']] is the value at the key ([!!!]).  A
    [ValueError] of [float] leaves the row out; the [except] clause names no
    other exception, so any other one leaves the function (of a string,
    [float] raises no other). *)
Definition clean_data (data : list Row) : result (list Point) :=
  if negb (forallb has_columns data) then Raise ValueError
  else
    let* st :=
      for_each data (fun '(cleaned_data, seen) row =>
        match (let* x := to_float (row !!! "x") in
               let* y := to_float (row !!! "y") in
               Return (x, y)) with
        | Return key =>
            if negb (seen_has seen key)
            then Return (cleaned_data ++ [mkPoint (fst key) (snd key) (row !!! "comment")],
                         seen ++ [key])
            else Return (cleaned_data, seen)
        | Raise ValueError => Return (cleaned_data, seen)
        | Raise e => Raise e
        end)
      ([], []) in
    Return (fst st).

End Reading.

(** [filter_data] reads the comments of rows that have one, a string. *)
Definition filter_data (data : list Point) (keyword : string) : list Point :=
  List.filter
    (fun row => Str.contains (Str.lower (comment row)) (Str.lower keyword))
    data.

(** ** The rows as objects *)

(** [standardize_comments] writes into the rows it is given: the rows are
    objects of a store, a dataset is the list of the addresses of its rows
    (an address can occur more than once in it), and a row has the three
    keys, with floats for coordinates. *)
Definition loc : Type := nat.
Definition store : Type := gmap loc Point.

(** [row['comment'] = row['comment'].strip().capitalize()], as the new
    value of the row. *)
Definition standardize_row (row : Point) : Point :=
  mkPoint (x row) (y row) (Str.capitalize (Str.strip (comment row))).

(** The list returned is the list given, and the store holds the rows as
    the loop leaves them. *)
Definition standardize_comments (data : list loc) (σ : store) : list loc * store :=
  (data, fold_left (fun σ row => alter standardize_row row σ) data σ).

(** ** The rows [clean_data] keeps *)

Section Cleaning.

Context (float_of_str : string -> option float).

(** The row of the cleaned dataset for a row whose coordinates read as
    numbers. *)
Definition parse_row (row : Row) : option Point :=
  match float_of_str (row !!! "x"), float_of_str (row !!! "y") with
  | Some x, Some y => Some (mkPoint x y (row !!! "comment"))
  | _, _ => None
  end.

(** The rows whose coordinates are not [seen] and are not those of an
    earlier row. *)
Fixpoint first_of_key (seen : list coord) (rows : list Point) : list Point :=
  match rows with
  | [] => []
  | p :: rows' =>
      if seen_has seen (coords p) then first_of_key seen rows'
      else p :: first_of_key (seen ++ [coords p]) rows'
  end.

End Cleaning.

(** No two rows have equal coordinates. *)
Definition distinct_coordinates (rows : list Point) : Prop :=
  StronglySorted (fun p q => same_key (coords p) (coords q) = false) rows.

(** ** Rows for concrete runs *)

(** A reader of floats to run the definitions on concrete rows: it reads the
    decimal numerals without a sign, a point or an exponent, and nothing
    else.  No theorem below depends on it. *)
Fixpoint digits_value (acc : Z) (s : string) : option Z :=
  match s with
  | EmptyString => Some acc
  | String c s' =>
      let n := Str.code c in
      if (48 <=? n) && (n <=? 57)
      then digits_value (10 * acc + Z.of_nat (n - 48)) s'
      else None
  end.

Definition digits_float (s : string) : option float :=
  match s with
  | EmptyString => None
  | _ => Float.of_Z <$> digits_value 0 s
  end.

Definition row_reef : Row :=
  {[ "x" := "25"; "y" := "80"; "comment" := "  blue crab reef " ]}.
Definition row_wreck : Row :=
  {[ "x" := "27"; "y" := "82"; "comment" := "Wreck" ]}.
Definition row_reef_again : Row :=
  {[ "x" := "025"; "y" := "80"; "comment" := "same place" ]}.
Definition row_unread : Row :=
  {[ "x" := "n/a"; "y" := "82"; "comment" := "no fix" ]}.
Definition row_short : Row :=
  {[ "x" := "25"; "y" := "80" ]}.

Definition point_reef : Point :=
  mkPoint (Float.of_Z 25) (Float.of_Z 80) "  blue crab reef ".
Definition point_wreck : Point :=
  mkPoint (Float.of_Z 27) (Float.of_Z 82) "Wreck".

(** Two rows at the addresses 0 and 1. *)
Definition two_rows : store := {[ 0 := point_reef; 1 := point_wreck ]}.

(** A finite number of magnitude at most [2 ^ K], or a NaN. *)
Definition bounded_or_nan (K : Z) (v : float) : Prop :=
  bounded K v \/ v = S754_nan.


(** * Properties *)

(** ** Loops *)

Lemma rbind_Return {A B} (r : result A) (k : A -> result B) (b : B) :
  rbind r k = Return b -> exists a, r = Return a /\ k a = Return b.
Proof. destruct r as [a|e]; simpl; [eauto | discriminate]. Qed.

Lemma for_each_app {A S} (l1 l2 : list A) (body : S -> A -> result S) (s : S) :
  for_each (l1 ++ l2) body s = let* s' := for_each l1 body s in for_each l2 body s'.
Proof.
  revert s. induction l1 as [|a l1 IH]; intros s; simpl; [reflexivity|].
  destruct (body s a) as [s'|e]; simpl; [apply IH | reflexivity].
Qed.

(** The invariant rule of a [for] loop: [Inv pre s] relates the items
    already visited to the loop state. *)
Lemma for_each_invariant {A S} (body : S -> A -> result S)
    (Inv : list A -> S -> Prop) (l : list A) (s0 sf : S) :
  Inv [] s0 ->
  (forall pre a post s s',
      l = pre ++ a :: post -> Inv pre s -> body s a = Return s' ->
      Inv (pre ++ [a]) s') ->
  for_each l body s0 = Return sf ->
  Inv l sf.
Proof.
  intros H0 Hstep.
  cut (forall post pre s, l = pre ++ post -> Inv pre s ->
         for_each post body s = Return sf -> Inv l sf).
  { intros Hgen. apply (Hgen l [] s0); [reflexivity | exact H0]. }
  induction post as [|a post IH]; intros pre s Hl Hinv Hrun; simpl in Hrun.
  - injection Hrun as <-. rewrite Hl, app_nil_r. exact Hinv.
  - apply rbind_Return in Hrun as (s' & Hb & Hrun).
    apply (IH (pre ++ [a]) s').
    + rewrite <- app_assoc. exact Hl.
    + eapply Hstep; eauto.
    + exact Hrun.
Qed.

(** The same rule with progress: when the body returns from every state
    that satisfies the invariant, so does the loop. *)
Lemma for_each_total {A S} (body : S -> A -> result S)
    (Inv : list A -> S -> Prop) (l : list A) (s0 : S) :
  Inv [] s0 ->
  (forall pre a post s,
      l = pre ++ a :: post -> Inv pre s ->
      exists s', body s a = Return s' /\ Inv (pre ++ [a]) s') ->
  exists sf, for_each l body s0 = Return sf /\ Inv l sf.
Proof.
  intros H0 Hstep.
  cut (forall post pre s, l = pre ++ post -> Inv pre s ->
         exists sf, for_each post body s = Return sf /\ Inv l sf).
  { intros Hgen. apply (Hgen l [] s0); [reflexivity | exact H0]. }
  induction post as [|a post IH]; intros pre s Hl Hinv; simpl.
  - exists s. split; [reflexivity|]. rewrite Hl, app_nil_r. exact Hinv.
  - destruct (Hstep pre a post s Hl Hinv) as (s' & Hb & Hinv').
    rewrite Hb. simpl. apply (IH (pre ++ [a]) s'); [|exact Hinv'].
    rewrite <- app_assoc. exact Hl.
Qed.

(** ** [enumerate] *)

Lemma enumerate_length {A} (l : list A) : length (enumerate l) = length l.
Proof. unfold enumerate. rewrite length_zip_with, length_seq. lia. Qed.

Lemma enumerate_lookup {A} (l : list A) (i : nat) (j : nat) (a : A) :
  enumerate l !! i = Some (j, a) <-> j = i /\ l !! i = Some a.
Proof.
  unfold enumerate. split.
  - intros H. apply lookup_zip_Some in H as [H1 H2].
    apply lookup_seq in H1 as [-> _]. auto.
  - intros [-> H]. apply lookup_zip_Some. split; [|exact H].
    apply lookup_seq. split; [reflexivity|]. eapply lookup_lt_Some; eauto.
Qed.

Lemma enumerate_split {A} (l : list A) pre (i : nat) (a : A) post :
  enumerate l = pre ++ (i, a) :: post ->
  i = length pre /\ l !! i = Some a.
Proof.
  intros H.
  assert (Hl : enumerate l !! length pre = Some (i, a)).
  { rewrite H. rewrite lookup_app_r by lia. rewrite Nat.sub_diag. reflexivity. }
  apply enumerate_lookup in Hl as [-> Hl]. auto.
Qed.

(** ** [find_clusters] *)

Section ClusterSpec.

Context (M : Libm) (data : list Point) (radius : float).

Lemma find_clusters_unfold :
  find_clusters M data radius =
  let* st := for_each (enumerate data) (outer_body M data radius) ([], ∅) in Return (fst st).
Proof. reflexivity. Qed.

Lemma StronglySorted_snoc_lt (l : list nat) (a : nat) :
  StronglySorted lt l -> Forall (fun k => k < a) l -> StronglySorted lt (l ++ [a]).
Proof.
  intros Hs Hf. apply StronglySorted_app_2.
  - intros k1 k2 H1 H2. apply list_elem_of_singleton in H2 as ->.
    rewrite Forall_forall in Hf. apply Hf. exact H1.
  - exact Hs.
  - repeat constructor.
Qed.

Lemma inner_loop_spec (i : nat) (point : Point) (V0 : gset nat) cluster' V' :
  data !! i = Some point ->
  for_each (enumerate data) (inner_body M radius point) ([], V0) = Return (cluster', V') ->
  exists js,
    points_at data js cluster' /\
    (forall k, k ∈ V' <-> k ∈ V0 \/ k ∈ js) /\
    StronglySorted lt js /\
    Forall (fun j => (j ∉ V0) /\ close M data radius i j) js /\
    (forall j, j < length data -> j ∉ V0 -> close M data radius i j -> j ∈ js).
Proof.
  intros Hi Hrun.
  pose (Inv := fun (pre : list (nat * Point)) (st : list Point * gset nat) =>
    exists js,
      points_at data js (fst st) /\
      (forall k, k ∈ snd st <-> k ∈ V0 \/ k ∈ js) /\
      StronglySorted lt js /\
      Forall (fun j => j < length pre /\ (j ∉ V0) /\ close M data radius i j) js /\
      (forall j, j < length pre -> j ∉ V0 -> close M data radius i j -> j ∈ js)).
  assert (HI : Inv (enumerate data) (cluster', V')).
  { eapply for_each_invariant; [| |exact Hrun].
    - exists []. simpl. repeat split.
      + constructor.
      + intros H; auto.
      + intros [H|H]; [exact H|]. inversion H.
      + constructor.
      + constructor.
      + intros j Hj. simpl in Hj. lia.
    - intros pre [j pj] post [cluster visited] s' Hsplit (js & Hp & Hv & Hs & Hf & Hc) Hbody.
      apply enumerate_split in Hsplit as [Hj Hpj].
      simpl in Hp, Hv. unfold inner_body in Hbody.
      assert (Hlen : length (pre ++ [(j, pj)]) = S j).
      { rewrite length_app. simpl. lia. }
      destruct (decide (j ∈ visited)) as [Hin|Hnin].
      + injection Hbody as <-. exists js. simpl. rewrite Hlen.
        repeat split; auto.
        * apply Hv.
        * apply Hv.
        * eapply Forall_impl; [exact Hf|]. simpl. intros k (? & ? & ?).
          repeat split; auto. lia.
        * intros k Hk HkV Hck.
          destruct (decide (k = j)) as [->|Hne].
          -- apply Hv in Hin as [Hin|Hin]; [contradiction | exact Hin].
          -- apply Hc; auto. lia.
      + apply rbind_Return in Hbody as (d & Hd & Hbody).
        destruct (Float.leb d radius) eqn:Hle.
        * injection Hbody as <-. exists (js ++ [j]). simpl. rewrite Hlen.
          assert (HjV0 : j ∉ V0). { intros H. apply Hnin, Hv. auto. }
          repeat split.
          -- apply Forall2_app; [exact Hp|]. repeat constructor. exact Hpj.
          -- intros H. apply elem_of_union in H as [H|H].
             ++ apply Hv in H as [H|H]; [auto|]. right. apply elem_of_app. auto.
             ++ apply elem_of_singleton in H as ->. right.
                apply elem_of_app. right. constructor.
          -- intros [H|H].
             ++ apply elem_of_union. left. apply Hv. auto.
             ++ apply elem_of_app in H as [H|H].
                ** apply elem_of_union. left. apply Hv. auto.
                ** apply list_elem_of_singleton in H as ->.
                   apply elem_of_union. right. apply elem_of_singleton. reflexivity.
          -- apply StronglySorted_snoc_lt; [exact Hs|].
             eapply Forall_impl; [exact Hf|]. simpl. intros k (? & ? & ?). lia.
          -- apply Forall_app. split.
             ++ eapply Forall_impl; [exact Hf|]. simpl. intros k (? & ? & ?).
                repeat split; auto. lia.
             ++ constructor; [|constructor].
                split; [lia|]. split; [exact HjV0|].
                exists point, pj, d. auto.
          -- intros k Hk HkV Hck. apply elem_of_app.
             destruct (decide (k = j)) as [->|Hne].
             ++ right. constructor.
             ++ left. apply Hc; auto. lia.
        * injection Hbody as <-. exists js. simpl. rewrite Hlen.
          repeat split; auto.
          -- apply Hv.
          -- apply Hv.
          -- eapply Forall_impl; [exact Hf|]. simpl. intros k (? & ? & ?).
             repeat split; auto. lia.
          -- intros k Hk HkV Hck.
             destruct (decide (k = j)) as [->|Hne].
             ++ destruct Hck as (pi & pj' & d' & H1 & H2 & H3 & H4).
                rewrite Hi in H1. injection H1 as <-.
                rewrite Hpj in H2. injection H2 as <-.
                unfold coords in H3. rewrite Hd in H3. injection H3 as <-.
                rewrite Hle in H4. discriminate.
             ++ apply Hc; auto. lia. }
  destruct HI as (js & Hp & Hv & Hs & Hf & Hc).
  exists js. simpl in *. repeat split; auto.
  - apply Hv.
  - apply Hv.
  - eapply Forall_impl; [exact Hf|]. simpl. intros k (? & ? & ?). auto.
  - intros j Hj. apply Hc. rewrite enumerate_length. exact Hj.
Qed.

Lemma greedy_snoc (before : list nat) (ics : list (list nat)) (ic : list nat) :
  greedy M data radius before (ics ++ [ic]) <->
  greedy M data radius before ics /\ cluster_at M data radius (before ++ concat ics) ic.
Proof.
  revert before. induction ics as [|c ics IH]; intros before; simpl.
  - rewrite app_nil_r. tauto.
  - rewrite IH, app_assoc. tauto.
Qed.

Lemma outer_loop_spec clusters visited :
  for_each (enumerate data) (outer_body M data radius) ([], ∅) = Return (clusters, visited) ->
  exists ics,
    Forall2 (points_at data) ics clusters /\
    greedy M data radius [] ics /\
    (forall k, k < length data -> k ∈ concat ics).
Proof.
  intros Hrun.
  pose (Inv := fun (pre : list (nat * Point)) (st : list (list Point) * gset nat) =>
    exists ics,
      Forall2 (points_at data) ics (fst st) /\
      (forall k, k ∈ snd st <-> k ∈ concat ics) /\
      (forall k, k < length pre -> k ∈ snd st) /\
      greedy M data radius [] ics).
  assert (HI : Inv (enumerate data) (clusters, visited)).
  { eapply for_each_invariant; [| |exact Hrun].
    - exists []. simpl. repeat split.
      + constructor.
      + intros H. set_solver.
      + intros H. inversion H.
      + intros k Hk. lia.
    - intros pre [i point] post [cs vis] s' Hsplit (ics & Hp & Hv & Hlt & Hg) Hbody.
      apply enumerate_split in Hsplit as [Hi Hpi].
      simpl in Hp, Hv, Hlt. unfold outer_body in Hbody.
      assert (Hlen : length (pre ++ [(i, point)]) = S i).
      { rewrite length_app. simpl. lia. }
      destruct (decide (i ∈ vis)) as [Hin|Hnin].
      + injection Hbody as <-. exists ics. simpl. rewrite Hlen.
        repeat split; auto; try apply Hv.
        intros k Hk. destruct (decide (k = i)) as [->|Hne]; [exact Hin|].
        apply Hlt. lia.
      + apply rbind_Return in Hbody as ([cluster vis'] & Hinner & Hbody).
        injection Hbody as <-.
        destruct (inner_loop_spec i point _ _ _ Hpi Hinner)
          as (js & Hjs & Hv' & Hs & Hf & Hc).
        exists (ics ++ [i :: js]). simpl. rewrite Hlen.
        assert (Hvis : forall k, k ∈ vis' <-> k ∈ concat ics \/ k = i \/ k ∈ js).
        { intros k. rewrite Hv', elem_of_union, elem_of_singleton, Hv. tauto. }
        assert (Hgt : Forall (fun j => i < j) js).
        { eapply Forall_impl; [exact Hf|]. simpl. intros j [Hj _].
          destruct (decide (i < j)) as [|Hge]; [assumption|]. exfalso. apply Hj.
          apply elem_of_union. destruct (decide (j = i)) as [->|Hne].
          - right. apply elem_of_singleton. reflexivity.
          - left. apply Hlt. lia. }
        repeat split.
        * apply Forall2_app; [exact Hp|]. repeat constructor; [exact Hpi | exact Hjs].
        * intros H. rewrite concat_app, elem_of_app. simpl. rewrite app_nil_r.
          apply Hvis in H as [H|[->|H]]; [auto | right; constructor | right].
          constructor. exact H.
        * rewrite concat_app, elem_of_app. simpl. rewrite app_nil_r.
          intros [H|H]; apply Hvis; [auto|].
          apply elem_of_cons in H as [->|H]; auto.
        * intros k Hk. apply Hvis.
          destruct (decide (k = i)) as [->|Hne]; [auto|].
          left. apply Hv, Hlt. lia.
        * apply greedy_snoc. split; [exact Hg|]. simpl.
          exists i, js. repeat split.
          -- intros H. apply Hnin, Hv. exact H.
          -- intros k Hk. apply Hv, Hlt. lia.
          -- constructor; [exact Hs | exact Hgt].
          -- eapply Forall_impl; [exact Hf|]. simpl. intros j [Hj Hcl].
             split; [|exact Hcl]. intros H. apply Hj.
             apply elem_of_union. left. apply Hv. exact H.
          -- intros j Hj Hnb Hne Hcl. apply Hc; auto.
             intros H. apply elem_of_union in H as [H|H].
             ++ apply Hnb, Hv. exact H.
             ++ apply elem_of_singleton in H. contradiction. }
  destruct HI as (ics & Hp & Hv & Hlt & Hg).
  exists ics. simpl in *. repeat split; auto.
  intros k Hk. apply Hv, Hlt. rewrite enumerate_length. exact Hk.
Qed.

Lemma find_clusters_spec (clusters : list (list Point)) :
  find_clusters M data radius = Return clusters ->
  exists ics,
    Forall2 (points_at data) ics clusters /\
    greedy M data radius [] ics /\
    (forall k, k < length data -> k ∈ concat ics).
Proof.
  rewrite find_clusters_unfold. intros H.
  apply rbind_Return in H as ([cs vis] & Hrun & H). injection H as <-.
  eapply outer_loop_spec. exact Hrun.
Qed.

Lemma cluster_at_NoDup (before ic : list nat) :
  cluster_at M data radius before ic -> NoDup before -> NoDup (before ++ ic).
Proof.
  intros (i & js & -> & Hi & _ & Hs & Hf & _) Hb.
  apply NoDup_app. repeat split.
  - exact Hb.
  - intros k Hk Hin. apply elem_of_cons in Hin as [->|Hin]; [contradiction|].
    rewrite Forall_forall in Hf. destruct (Hf k Hin) as [Hn _]. contradiction.
  - clear -Hs. induction Hs as [|a l Hs IH Hlt]; constructor; [|exact IH].
    intros Hin. rewrite Forall_forall in Hlt. specialize (Hlt a Hin). lia.
Qed.

Lemma greedy_NoDup (before : list nat) (ics : list (list nat)) :
  greedy M data radius before ics -> NoDup before -> NoDup (before ++ concat ics).
Proof.
  revert before. induction ics as [|ic ics IH]; intros before Hg Hb; simpl.
  - rewrite app_nil_r. exact Hb.
  - destruct Hg as [Hc Hg]. rewrite app_assoc. apply IH; [exact Hg|].
    apply cluster_at_NoDup; assumption.
Qed.

Lemma greedy_split (before : list nat) (pre : list (list nat)) ic post :
  greedy M data radius before (pre ++ ic :: post) -> cluster_at M data radius (before ++ concat pre) ic.
Proof.
  revert before. induction pre as [|c pre IH]; intros before; simpl.
  - rewrite app_nil_r. tauto.
  - intros [_ Hg]. rewrite app_assoc. apply IH. exact Hg.
Qed.

Lemma greedy_Forall (before : list nat) (ics : list (list nat)) :
  greedy M data radius before ics -> Forall (fun ic => exists b, cluster_at M data radius b ic) ics.
Proof.
  revert before. induction ics as [|ic ics IH]; intros before; simpl.
  - constructor.
  - intros [Hc Hg]. constructor; eauto.
Qed.

Lemma greedy_seeds (before : list nat) (ics : list (list nat)) :
  greedy M data radius before ics -> StronglySorted seed_lt ics.
Proof.
  revert before. induction ics as [|ic ics IH]; intros before; simpl.
  - constructor.
  - intros [Hc Hg]. constructor; [eapply IH; exact Hg|].
    apply Forall_forall. intros ic' Hin.
    apply list_elem_of_split in Hin as (pre & post & ->).
    apply greedy_split in Hg.
    destruct Hc as (i & js & -> & Hi & Hlow & _).
    destruct Hg as (i' & js' & -> & Hi' & Hlow' & _).
    exists i, i'. simpl. repeat split.
    destruct (Nat.lt_trichotomy i i') as [H|[H|H]]; [exact H| |].
    + subst i'. exfalso. apply Hi'.
      apply elem_of_app. left. apply elem_of_app. right. constructor.
    + exfalso. apply Hi'. apply elem_of_app. left. apply elem_of_app. left.
      apply Hlow. exact H.
Qed.

Lemma points_at_lt (ic : list nat) (c : list Point) :
  points_at data ic c -> Forall (fun k => k < length data) ic.
Proof.
  induction 1 as [|i p ic c Hi _ IH]; constructor; [|exact IH].
  eapply lookup_lt_Some. exact Hi.
Qed.

Lemma points_at_fmap (ic : list nat) (c : list Point) :
  points_at data ic c -> Some <$> c = (fun i => data !! i) <$> ic.
Proof.
  induction 1 as [|i p ic c Hi _ IH]; [reflexivity|].
  rewrite !fmap_cons, Hi, IH. reflexivity.
Qed.

Lemma points_at_concat (ics : list (list nat)) (cs : list (list Point)) :
  Forall2 (points_at data) ics cs -> points_at data (concat ics) (concat cs).
Proof.
  induction 1 as [|ic c ics cs H _ IH]; simpl; [constructor|].
  apply Forall2_app; assumption.
Qed.

Lemma points_at_seq : points_at data (seq 0 (length data)) data.
Proof.
  apply Forall2_same_length_lookup_2.
  - apply length_seq.
  - intros i k p Hk Hp. apply lookup_seq in Hk as [-> _]. exact Hp.
Qed.

(** Index lists that cover the dataset once each give a permutation of it. *)
Lemma points_at_Permutation (ic : list nat) (c : list Point) :
  points_at data ic c -> ic ≡ₚ seq 0 (length data) -> c ≡ₚ data.
Proof.
  intros Hc Hperm.
  assert (H : Some <$> c ≡ₚ Some <$> data).
  { rewrite (points_at_fmap _ _ Hc), (points_at_fmap _ _ points_at_seq).
    apply fmap_Permutation. exact Hperm. }
  eapply (Permutation_map (fun o => default (mkPoint S754_nan S754_nan "") o)) in H.
  rewrite <- !list_fmap_compose in H.
  rewrite !list_fmap_id in H. exact H.
Qed.

Lemma greedy_cover_Permutation (ics : list (list nat)) (cs : list (list Point)) :
  Forall2 (points_at data) ics cs ->
  greedy M data radius [] ics ->
  (forall k, k < length data -> k ∈ concat ics) ->
  concat ics ≡ₚ seq 0 (length data).
Proof.
  intros Hp Hg Hcov. apply NoDup_Permutation.
  - apply (greedy_NoDup [] ics Hg). constructor.
  - apply NoDup_seq.
  - intros k. rewrite elem_of_seq. split.
    + intros Hk. apply points_at_concat, points_at_lt in Hp.
      rewrite Forall_forall in Hp. specialize (Hp k Hk). lia.
    + intros [_ Hk]. apply Hcov. lia.
Qed.

End ClusterSpec.

Lemma find_clusters_returns (M : Libm) (data : list Point) (radius : float) :
  (forall p q, p ∈ data -> q ∈ data ->
     returns (haversine_distance M (coords p) (coords q))) ->
  returns (find_clusters M data radius).
Proof.
  intros Hd. rewrite find_clusters_unfold.
  destruct (for_each_total (outer_body M data radius) (fun _ _ => True)
              (enumerate data) ([], ∅)) as (sf & -> & _); [exact I| |].
  - intros pre [i point] post [cs vis] Hsplit _.
    apply enumerate_split in Hsplit as [_ Hpi]. unfold outer_body.
    destruct (decide (i ∈ vis)); [eauto|].
    destruct (for_each_total (inner_body M radius point) (fun _ _ => True)
                (enumerate data) ([], vis ∪ {[ i ]})) as ([c v] & -> & _);
      [exact I| |simpl; eauto].
    intros pre' [j pj] post' [cl vis'] Hsplit' _.
    apply enumerate_split in Hsplit' as [_ Hpj]. unfold inner_body.
    destruct (decide (j ∈ vis')); [eauto|].
    destruct (Hd point pj) as [d Hdist].
    + eapply list_elem_of_lookup_2. exact Hpi.
    + eapply list_elem_of_lookup_2. exact Hpj.
    + unfold coords in Hdist. rewrite Hdist. simpl.
      destruct (Float.leb d radius); eauto.
  - simpl. eexists. reflexivity.
Qed.

(** C3. The clusters [find_clusters] returns are a partition of the dataset:
    no cluster is empty, their concatenation is a permutation of the
    dataset, and the dataset indices of their points, cluster by cluster,
    list every index of the dataset exactly once.  The call returns as soon
    as the distance between any two points of the dataset can be computed. *)
Theorem find_clusters_partition (M : Libm) (data : list Point) (radius : float) :
  (forall clusters,
      find_clusters M data radius = Return clusters ->
      Forall (fun c => c <> []) clusters /\
      concat clusters ≡ₚ data /\
      exists ics,
        Forall2 (points_at data) ics clusters /\
        concat ics ≡ₚ seq 0 (length data)) /\
  ((forall p q, p ∈ data -> q ∈ data ->
      returns (haversine_distance M (coords p) (coords q))) ->
   returns (find_clusters M data radius)).
Proof.
  split; [|apply find_clusters_returns].
  intros clusters Hrun.
  destruct (find_clusters_spec _ _ _ _ Hrun) as (ics & Hp & Hg & Hcov).
  pose proof (greedy_cover_Permutation _ _ _ _ _ Hp Hg Hcov) as Hperm.
  repeat split.
  - apply greedy_Forall in Hg. clear -Hp Hg.
    induction Hp as [|ic c ics cs H _ IH]; constructor.
    + apply Forall_inv in Hg as (b & i & js & -> & _).
      inversion H. discriminate.
    + apply IH. eapply Forall_inv_tail. exact Hg.
  - eapply points_at_Permutation; [|exact Hperm].
    apply points_at_concat. exact Hp.
  - exists ics. split; assumption.
Qed.

(** C2. Every point [find_clusters] places in a cluster is within [radius]
    (haversine distance, compared with [<=]) of the seed of that cluster,
    its first point.  On dataset indices: the seed [i] of a cluster is the
    first index that no earlier cluster holds, and an index [j] that no
    earlier cluster holds joins the cluster exactly when the distance from
    point [i] to point [j] is at most [radius]; no distance between two
    members is looked at. *)
Theorem find_clusters_within_radius_of_seed
    (M : Libm) (data : list Point) (radius : float) (clusters : list (list Point)) :
  find_clusters M data radius = Return clusters ->
  Forall (fun c => exists seed members,
            c = seed :: members /\
            Forall (fun p => exists d,
                      haversine_distance M (coords seed) (coords p) = Return d /\
                      Float.leb d radius = true) members) clusters /\
  exists ics,
    Forall2 (points_at data) ics clusters /\
    forall pre i js post,
      ics = pre ++ (i :: js) :: post ->
      (i ∉ concat pre) /\
      (forall k, k < i -> k ∈ concat pre) /\
      (forall j, j < length data -> j ∉ concat pre -> j <> i ->
                 (j ∈ js <-> close M data radius i j)).
Proof.
  intros Hrun.
  destruct (find_clusters_spec _ _ _ _ Hrun) as (ics & Hp & Hg & Hcov).
  split.
  - pose proof (greedy_Forall _ _ _ _ _ Hg) as HF. clear -Hp HF.
    induction Hp as [|ic c ics cs H _ IH]; constructor.
    + apply Forall_inv in HF as (b & i & js & -> & _ & _ & _ & Hf & _).
      inversion H as [|i' seed js' members Hseed Hmem]; subst.
      exists seed, members. split; [reflexivity|].
      clear -Hseed Hmem Hf.
      induction Hmem as [|j p js members Hj _ IHm]; constructor.
      * apply Forall_inv in Hf as [_ (pi & pj & d & H1 & H2 & H3 & H4)].
        rewrite Hseed in H1. injection H1 as <-.
        rewrite Hj in H2. injection H2 as <-. eauto.
      * apply IHm. eapply Forall_inv_tail. exact Hf.
    + apply IH. eapply Forall_inv_tail. exact HF.
  - exists ics. split; [exact Hp|].
    intros pre i js post ->.
    apply greedy_split in Hg. simpl in Hg.
    destruct Hg as (i' & js' & Heq & Hi & Hlow & _ & Hf & Hc).
    injection Heq as <- <-. repeat split; auto.
    intros Hj. rewrite Forall_forall in Hf. apply Hf. exact Hj.
Qed.

(** C9. The output order of [find_clusters] follows the dataset order: in
    every cluster the dataset indices increase strictly from the seed on
    (the seed comes first, the members follow in dataset order), the
    clusters are in the increasing order of their seeds' indices, and the
    seed of each cluster is the first index that no earlier cluster holds. *)
Theorem find_clusters_order
    (M : Libm) (data : list Point) (radius : float) (clusters : list (list Point)) :
  find_clusters M data radius = Return clusters ->
  exists ics,
    Forall2 (points_at data) ics clusters /\
    Forall (StronglySorted lt) ics /\
    StronglySorted seed_lt ics /\
    forall pre ic post,
      ics = pre ++ ic :: post ->
      exists i js,
        ic = i :: js /\ (i ∉ concat pre) /\ (forall k, k < i -> k ∈ concat pre).
Proof.
  intros Hrun.
  destruct (find_clusters_spec _ _ _ _ Hrun) as (ics & Hp & Hg & Hcov).
  exists ics. repeat split.
  - exact Hp.
  - eapply Forall_impl; [eapply greedy_Forall; exact Hg|]. simpl.
    intros ic (b & i & js & -> & _ & _ & Hs & _). exact Hs.
  - eapply greedy_seeds. exact Hg.
  - intros pre ic post ->. apply greedy_split in Hg. simpl in Hg.
    destruct Hg as (i & js & -> & Hi & Hlow & _). eauto.
Qed.

(** ** [calculate_distances] *)

Lemma for_each_ext {A S} (l : list A) (body1 body2 : S -> A -> result S) (s : S) :
  (forall s a, a ∈ l -> body1 s a = body2 s a) ->
  for_each l body1 s = for_each l body2 s.
Proof.
  revert s. induction l as [|a l IH]; intros s H; simpl; [reflexivity|].
  rewrite H by constructor. destruct (body2 s a); simpl; [|reflexivity].
  apply IH. intros s' a' Hin. apply H. constructor. exact Hin.
Qed.

Lemma for_each_append {A B} (f : A -> result B) (l : list A) (acc : list B) :
  for_each l (fun acc a => let* b := f a in Return (acc ++ [b])) acc =
  let* bs := mapM f l in Return (acc ++ bs).
Proof.
  revert acc. induction l as [|a l IH]; intros acc; simpl.
  - rewrite app_nil_r. reflexivity.
  - destruct (f a) as [b|e]; simpl; [|reflexivity].
    rewrite IH. destruct (mapM f l); simpl; [|reflexivity].
    rewrite <- app_assoc. reflexivity.
Qed.

Lemma for_each_extend {A B} (g : A -> result (list B)) (l : list A) (acc : list B) :
  for_each l (fun acc a => let* bs := g a in Return (acc ++ bs)) acc =
  let* bss := mapM g l in Return (acc ++ concat bss).
Proof.
  revert acc. induction l as [|a l IH]; intros acc; simpl.
  - rewrite app_nil_r. reflexivity.
  - destruct (g a) as [bs|e]; simpl; [|reflexivity].
    rewrite IH. destruct (mapM g l); simpl; [|reflexivity].
    rewrite <- app_assoc. reflexivity.
Qed.

Lemma mapM_app {A B} (f : A -> result B) (l1 l2 : list A) :
  mapM f (l1 ++ l2) =
  let* bs1 := mapM f l1 in let* bs2 := mapM f l2 in Return (bs1 ++ bs2).
Proof.
  induction l1 as [|a l1 IH]; simpl.
  - destruct (mapM f l2); reflexivity.
  - destruct (f a); simpl; [|reflexivity]. rewrite IH.
    destruct (mapM f l1); simpl; [|reflexivity].
    destruct (mapM f l2); reflexivity.
Qed.

Lemma mapM_flat_map {A B C} (f : B -> result C) (g : A -> list B) (l : list A) :
  mapM f (flat_map g l) =
  let* bss := mapM (fun a => mapM f (g a)) l in Return (concat bss).
Proof.
  induction l as [|a l IH]; simpl; [reflexivity|].
  rewrite mapM_app, IH. destruct (mapM f (g a)); simpl; [|reflexivity].
  destruct (mapM (fun a => mapM f (g a)) l); reflexivity.
Qed.

Lemma mapM_map {A B C} (f : B -> result C) (g : A -> B) (l : list A) :
  mapM f (map g l) = mapM (fun a => f (g a)) l.
Proof.
  induction l as [|a l IH]; simpl; [reflexivity|]. rewrite IH. reflexivity.
Qed.

Lemma mapM_ext {A B} (f g : A -> result B) (l : list A) :
  (forall a, a ∈ l -> f a = g a) -> mapM f l = mapM g l.
Proof.
  induction l as [|a l IH]; intros H; simpl; [reflexivity|].
  rewrite H by constructor. rewrite IH; [reflexivity|].
  intros a' Hin. apply H. constructor. exact Hin.
Qed.

Lemma mapM_Return {A B} (f : A -> result B) (l : list A) (bs : list B) :
  mapM f l = Return bs -> Forall2 (fun a b => f a = Return b) l bs.
Proof.
  revert bs. induction l as [|a l IH]; intros bs; simpl.
  - intros [= <-]. constructor.
  - intros H. apply rbind_Return in H as (b & Hb & H).
    apply rbind_Return in H as (bs' & Hbs & [= <-]).
    constructor; auto.
Qed.

Lemma mapM_returns {A B} (f : A -> result B) (l : list A) :
  (forall a, a ∈ l -> returns (f a)) -> returns (mapM f l).
Proof.
  induction l as [|a l IH]; intros H; simpl; [eexists; reflexivity|].
  destruct (H a) as [b ->]; [constructor|]. simpl.
  destruct IH as [bs ->].
  - intros a' Hin. apply H. constructor. exact Hin.
  - simpl. eexists. reflexivity.
Qed.

Lemma calculate_distances_loop_pairs (M : Libm) (data : list Point) :
  calculate_distances M data =
  mapM (distance_record M data) (loop_pairs (length data)).
Proof.
  unfold calculate_distances, loop_pairs.
  rewrite mapM_flat_map.
  rewrite (for_each_ext _ _
    (fun acc i => let* bs := mapM (distance_record M data)
                               (map (pair i) (range (i + 1) (length data))) in
                  Return (acc ++ bs))).
  - rewrite for_each_extend. reflexivity.
  - intros acc i _. rewrite mapM_map, <- for_each_append.
    apply for_each_ext. intros acc' j _. unfold distance_record. simpl.
    destruct (getitem data i); simpl; [|reflexivity].
    destruct (getitem data j); simpl; [|reflexivity].
    destruct (haversine_distance M _ _); reflexivity.
Qed.

Lemma filter_lt_seq (i m a : nat) :
  filter (fun j => i < j) (seq a m) = seq (a `max` (i + 1)) (a + m - a `max` (i + 1)).
Proof.
  revert a. induction m as [|m IH]; intros a.
  - simpl. replace (a + 0 - a `max` (i + 1)) with 0 by lia. reflexivity.
  - simpl seq. rewrite filter_cons, IH. case_decide.
    + replace (S a `max` (i + 1)) with (S a) by lia.
      replace (a `max` (i + 1)) with a by lia.
      replace (a + S m - a) with (S (S a + m - S a)) by lia. reflexivity.
    + replace (S a `max` (i + 1)) with (i + 1) by lia.
      replace (a `max` (i + 1)) with (i + 1) by lia.
      f_equal. lia.
Qed.

Lemma filter_pair_lt (i : nat) (l : list nat) :
  filter (fun ij : nat * nat => fst ij < snd ij) (map (pair i) l) =
  map (pair i) (filter (fun j => i < j) l).
Proof.
  induction l as [|j l IH]; [reflexivity|].
  simpl map. rewrite !filter_cons, IH. simpl.
  destruct (decide (i < j)); reflexivity.
Qed.

Lemma index_pairs_loop_pairs (n : nat) : index_pairs n = loop_pairs n.
Proof.
  unfold index_pairs, loop_pairs, range. rewrite Nat.sub_0_r.
  generalize (seq 0 n) at 1 3. intros l.
  induction l as [|i l IH]; [reflexivity|].
  simpl. rewrite filter_app, IH, filter_pair_lt, filter_lt_seq.
  repeat f_equal; lia.
Qed.

Lemma StronglySorted_lt_seq (a m : nat) : StronglySorted lt (seq a m).
Proof.
  revert a. induction m as [|m IH]; intros a; simpl; constructor.
  - apply IH.
  - apply Forall_forall. intros k Hk. apply elem_of_seq in Hk. lia.
Qed.

Lemma index_pairs_sorted (n : nat) : StronglySorted lex_lt (index_pairs n).
Proof.
  rewrite index_pairs_loop_pairs. unfold loop_pairs, range.
  generalize (StronglySorted_lt_seq 0 (n - 0)).
  generalize (seq 0 (n - 0)). intros l Hl.
  induction Hl as [|i l Hl IH Hlt]; simpl; [constructor|].
  apply StronglySorted_app_2.
  - intros [i1 j1] [i2 j2] H1 H2.
    apply list_elem_of_fmap in H1 as (j & [= -> ->] & _).
    apply list_elem_of_In, in_flat_map in H2 as (i' & Hi' & H2).
    apply list_elem_of_In, list_elem_of_fmap in H2 as (j' & [= -> ->] & _).
    left. simpl. rewrite Forall_forall in Hlt. apply Hlt, list_elem_of_In, Hi'.
  - generalize (StronglySorted_lt_seq (i + 1) (n - (i + 1))).
    generalize (seq (i + 1) (n - (i + 1))). intros l' Hl'.
    induction Hl' as [|j l' Hl' IH' Hlt']; simpl; constructor; [exact IH'|].
    apply Forall_forall. intros [i1 j1] H1.
    apply list_elem_of_fmap in H1 as (j' & [= -> ->] & Hj').
    right. simpl. split; [reflexivity|].
    rewrite Forall_forall in Hlt'. apply Hlt', Hj'.
  - exact IH.
Qed.

Lemma index_pairs_elem_of (n i j : nat) :
  (i, j) ∈ index_pairs n <-> i < j /\ j < n.
Proof.
  unfold index_pairs. rewrite list_elem_of_filter, list_elem_of_In, in_prod_iff.
  rewrite <- !list_elem_of_In, !elem_of_seq. simpl. lia.
Qed.

Lemma index_pairs_length (n : nat) : length (index_pairs n) = n * (n - 1) / 2.
Proof.
  rewrite index_pairs_loop_pairs. unfold loop_pairs, range.
  rewrite Nat.sub_0_r.
  assert (H : forall m a, a + m = n ->
            2 * length (flat_map (fun i => map (pair i) (seq (i + 1) (n - (i + 1))))
                          (seq a m)) = m * (m - 1)).
  { induction m as [|m IH]; intros a Ha; [reflexivity|].
    simpl seq. simpl flat_map. rewrite length_app, length_map, length_seq.
    specialize (IH (S a) ltac:(lia)). nia. }
  specialize (H n 0 eq_refl).
  rewrite <- H, Nat.mul_comm. symmetry. apply Nat.div_mul. discriminate.
Qed.

Lemma distance_record_Return (M : Libm) (data : list Point) (ij : nat * nat) r :
  distance_record M data ij = Return r ->
  exists pi pj d,
    (data !! fst ij = Some pi) /\ (data !! snd ij = Some pj) /\
    haversine_distance M (coords pi) (coords pj) = Return d /\
    r = mkDistanceRecord (coords pi) (coords pj) d.
Proof.
  unfold distance_record, getitem. intros H.
  destruct (data !! fst ij) as [pi|]; [|discriminate].
  destruct (data !! snd ij) as [pj|]; [|discriminate]. simpl in H.
  apply rbind_Return in H as (d & Hd & [= <-]).
  exists pi, pj, d. auto.
Qed.

(** X1. The loops of [calculate_distances] (C5, for the datasets whose
    distances can be computed). [calculate_distances] visits the pairs of indices [(i, j)] with
    [i < j] in lexicographic order, there are [n * (n - 1) / 2] of them for a
    dataset of [n] points, and it returns one record per pair, in that order,
    with the coordinates of the two points and their haversine distance.  It
    returns as soon as the distance between any two points of the dataset
    can be computed. *)
Theorem calculate_distances_pairs (M : Libm) (data : list Point) :
  calculate_distances M data =
    mapM (distance_record M data) (index_pairs (length data)) /\
  length (index_pairs (length data)) = length data * (length data - 1) / 2 /\
  StronglySorted lex_lt (index_pairs (length data)) /\
  (forall i j, (i, j) ∈ index_pairs (length data) <-> i < j /\ j < length data) /\
  (forall records,
      calculate_distances M data = Return records ->
      length records = length data * (length data - 1) / 2 /\
      Forall2 (fun ij r =>
                 exists pi pj d,
                   (data !! fst ij = Some pi) /\ (data !! snd ij = Some pj) /\
                   haversine_distance M (coords pi) (coords pj) = Return d /\
                   r = mkDistanceRecord (coords pi) (coords pj) d)
              (index_pairs (length data)) records) /\
  ((forall p q, p ∈ data -> q ∈ data ->
      returns (haversine_distance M (coords p) (coords q))) ->
   returns (calculate_distances M data)).
Proof.
  assert (Heq : calculate_distances M data =
                mapM (distance_record M data) (index_pairs (length data))).
  { rewrite index_pairs_loop_pairs. apply calculate_distances_loop_pairs. }
  split; [exact Heq|].
  split; [apply index_pairs_length|].
  split; [apply index_pairs_sorted|].
  split; [apply index_pairs_elem_of|].
  split.
  - intros records Hrun. rewrite Heq in Hrun. apply mapM_Return in Hrun.
    split.
    + rewrite <- (Forall2_length _ _ _ Hrun). apply index_pairs_length.
    + eapply Forall2_impl; [exact Hrun|]. simpl.
      intros ij r. apply distance_record_Return.
  - intros Hd. rewrite Heq. apply mapM_returns.
    intros [i j] Hij. apply index_pairs_elem_of in Hij as [Hlt Hj].
    unfold distance_record, getitem. simpl.
    destruct (lookup_lt_is_Some_2 data i ltac:(lia)) as [pi Hpi].
    destruct (lookup_lt_is_Some_2 data j Hj) as [pj Hpj].
    rewrite Hpi, Hpj. simpl.
    destruct (Hd pi pj) as [d ->].
    + eapply list_elem_of_lookup_2. exact Hpi.
    + eapply list_elem_of_lookup_2. exact Hpj.
    + simpl. eexists. reflexivity.
Qed.

(** ** [summarize_data] *)

(** C1 (as amended). [summarize_data] has no guard for an empty dataset: the
    sum of no latitude is the integer 0, its division by the number of
    points, 0, raises [ZeroDivisionError], and that is how the call ends. *)
Theorem summarize_data_empty :
  Py.sum (map x []) = Py.Int 0 /\
  Py.truediv (Py.Int 0) (Z.of_nat (length (@nil Point))) = Raise ZeroDivisionError /\
  summarize_data [] = Raise ZeroDivisionError.
Proof. repeat split. Qed.

Lemma summarize_data_empty_not_an_empty_input_error :
  ~ (exists e, summarize_data [] = Raise e /\ is_arithmetic_error e = false).
Proof. intros (e & [= <-] & H). discriminate. Qed.

(** ** Concrete runs *)

Lemma find_clusters_within_radius_of_seed_witness :
  find_clusters series_libm [point_a; point_b; point_c] (Float.of_Z 10) =
    Return [[point_a; point_c]; [point_b]] /\
  Forall (fun c => exists seed members,
            c = seed :: members /\
            Forall (fun p => exists d,
                      haversine_distance series_libm (coords seed) (coords p) = Return d /\
                      Float.leb d (Float.of_Z 10) = true) members)
         [[point_a; point_c]; [point_b]].
Proof.
  split; [vm_compute; reflexivity|].
  refine (proj1 (find_clusters_within_radius_of_seed series_libm
                   [point_a; point_b; point_c] (Float.of_Z 10)
                   [[point_a; point_c]; [point_b]] _)).
  vm_compute. reflexivity.
Defined.

Lemma find_clusters_order_witness :
  find_clusters series_libm [point_a; point_b; point_c] (Float.of_Z 10) =
    Return [[point_a; point_c]; [point_b]] /\
  exists ics,
    Forall2 (points_at [point_a; point_b; point_c]) ics [[point_a; point_c]; [point_b]] /\
    Forall (StronglySorted lt) ics /\
    StronglySorted seed_lt ics.
Proof.
  split; [vm_compute; reflexivity|].
  destruct (find_clusters_order series_libm [point_a; point_b; point_c] (Float.of_Z 10)
              [[point_a; point_c]; [point_b]]) as (ics & H1 & H2 & H3 & _).
  - vm_compute. reflexivity.
  - exists ics. auto.
Defined.

Lemma find_clusters_partition_witness :
  find_clusters series_libm [point_a; point_b; point_c] (Float.of_Z 10) =
    Return [[point_a; point_c]; [point_b]] /\
  concat [[point_a; point_c]; [point_b]] ≡ₚ [point_a; point_b; point_c].
Proof.
  split; [vm_compute; reflexivity|].
  refine (proj1 (proj2 (proj1 (find_clusters_partition series_libm
                   [point_a; point_b; point_c] (Float.of_Z 10))
                   [[point_a; point_c]; [point_b]] _))).
  vm_compute. reflexivity.
Defined.

(** ** The order of floats *)

Lemma compare_cont_Eq (m1 m2 : positive) :
  Pos.compare_cont Eq m1 m2 = Pos.compare m1 m2.
Proof. reflexivity. Qed.

Ltac float_order :=
  repeat match goal with
         | s : bool |- _ => destruct s
         end;
  simpl in *; try congruence; try discriminate;
  rewrite ?compare_cont_Eq in *;
  repeat match goal with
         | H : context [Z.compare ?a ?b] |- _ =>
             destruct (Z.compare_spec a b); simpl in *; try discriminate
         | |- context [Z.compare ?a ?b] =>
             destruct (Z.compare_spec a b); simpl in *; try discriminate
         | H : context [Pos.compare ?a ?b] |- _ =>
             destruct (Pos.compare_spec a b); simpl in *; try discriminate
         | |- context [Pos.compare ?a ?b] =>
             destruct (Pos.compare_spec a b); simpl in *; try discriminate
         end;
  try reflexivity; try congruence; try lia.

(** [v < m] fails on two numbers exactly when [m <= v] holds. *)
Lemma Float_ltb_false_leb (v m : float) :
  Float.is_nan v = false -> Float.is_nan m = false ->
  Float.ltb v m = false -> Float.leb m v = true.
Proof.
  unfold Float.ltb, Float.leb, SFltb, SFleb.
  destruct v as [sv|sv| |sv mv ev], m as [sm|sm| |sm mm em];
    simpl; intros; float_order.
Qed.

Lemma Float_ltb_leb (v m : float) : Float.ltb v m = true -> Float.leb v m = true.
Proof.
  unfold Float.ltb, Float.leb, SFltb, SFleb.
  destruct (SFcompare v m) as [[]|]; congruence.
Qed.

Lemma Float_leb_refl (v : float) : Float.is_nan v = false -> Float.leb v v = true.
Proof.
  unfold Float.leb, SFleb.
  destruct v as [sv|sv| |sv mv ev]; simpl; intros; float_order.
Qed.

Lemma Float_leb_trans (a b c : float) :
  Float.leb a b = true -> Float.leb b c = true -> Float.leb a c = true.
Proof.
  unfold Float.leb, SFleb.
  destruct a as [sa|sa| |sa ma ea], b as [sb|sb| |sb mb eb],
           c as [sc|sc| |sc mc ec]; simpl; intros; float_order.
Qed.

(** ** [summarize_data] on a dataset with points *)

Lemma sum_to_float (l : list float) (acc : Py.number) :
  Py.to_float (fold_left (fun acc v => Py.Flt (Float.add (Py.to_float acc) v)) l acc) =
  fold_left Float.add l (Py.to_float acc).
Proof.
  revert acc. induction l as [|v l IH]; intros acc; simpl; [reflexivity|].
  rewrite IH. reflexivity.
Qed.

Lemma fold_min_spec (l seen : list float) (m : float) :
  m ∈ seen -> (forall v, v ∈ seen -> Float.leb m v = true) ->
  Forall is_number (seen ++ l) ->
  is_minimum (fold_left (fun m v => if Float.ltb v m then v else m) l m) (seen ++ l).
Proof.
  revert seen m. induction l as [|v l IH]; intros seen m Hin Hle Hnum; simpl.
  - rewrite app_nil_r. split; assumption.
  - replace (seen ++ v :: l) with ((seen ++ [v]) ++ l) in *
      by (rewrite <- app_assoc; reflexivity).
    assert (Hv : is_number v).
    { rewrite Forall_forall in Hnum. apply Hnum.
      apply elem_of_app. left. apply elem_of_app. right. constructor. }
    assert (Hm : is_number m).
    { rewrite Forall_forall in Hnum. apply Hnum.
      apply elem_of_app. left. apply elem_of_app. left. exact Hin. }
    apply IH; [| |exact Hnum]; destruct (Float.ltb v m) eqn:Hlt.
    + apply elem_of_app. right. constructor.
    + apply elem_of_app. left. exact Hin.
    + intros u Hu. apply elem_of_app in Hu as [Hu|Hu].
      * eapply Float_leb_trans; [apply Float_ltb_leb; exact Hlt | apply Hle, Hu].
      * apply list_elem_of_singleton in Hu as ->. apply Float_leb_refl, Hv.
    + intros u Hu. apply elem_of_app in Hu as [Hu|Hu]; [apply Hle, Hu|].
      apply list_elem_of_singleton in Hu as ->.
      apply Float_ltb_false_leb; assumption.
Qed.

Lemma fold_max_spec (l seen : list float) (m : float) :
  m ∈ seen -> (forall v, v ∈ seen -> Float.leb v m = true) ->
  Forall is_number (seen ++ l) ->
  is_maximum (fold_left (fun m v => if Float.ltb m v then v else m) l m) (seen ++ l).
Proof.
  revert seen m. induction l as [|v l IH]; intros seen m Hin Hle Hnum; simpl.
  - rewrite app_nil_r. split; assumption.
  - replace (seen ++ v :: l) with ((seen ++ [v]) ++ l) in *
      by (rewrite <- app_assoc; reflexivity).
    assert (Hv : is_number v).
    { rewrite Forall_forall in Hnum. apply Hnum.
      apply elem_of_app. left. apply elem_of_app. right. constructor. }
    assert (Hm : is_number m).
    { rewrite Forall_forall in Hnum. apply Hnum.
      apply elem_of_app. left. apply elem_of_app. left. exact Hin. }
    apply IH; [| |exact Hnum]; destruct (Float.ltb m v) eqn:Hlt.
    + apply elem_of_app. right. constructor.
    + apply elem_of_app. left. exact Hin.
    + intros u Hu. apply elem_of_app in Hu as [Hu|Hu].
      * eapply Float_leb_trans; [apply Hle, Hu | apply Float_ltb_leb; exact Hlt].
      * apply list_elem_of_singleton in Hu as ->. apply Float_leb_refl, Hv.
    + intros u Hu. apply elem_of_app in Hu as [Hu|Hu]; [apply Hle, Hu|].
      apply list_elem_of_singleton in Hu as ->.
      apply Float_ltb_false_leb; assumption.
Qed.

Lemma min_spec (l : list float) :
  l <> [] -> Forall is_number l ->
  exists m, Py.min l = Return m /\ is_minimum m l.
Proof.
  destruct l as [|a l]; [congruence|]. intros _ Hnum. simpl.
  eexists. split; [reflexivity|].
  apply (fold_min_spec l [a] a); [constructor | | exact Hnum].
  intros v Hv. apply list_elem_of_singleton in Hv as ->.
  apply Float_leb_refl. exact (Forall_inv Hnum).
Qed.

Lemma max_spec (l : list float) :
  l <> [] -> Forall is_number l ->
  exists m, Py.max l = Return m /\ is_maximum m l.
Proof.
  destruct l as [|a l]; [congruence|]. intros _ Hnum. simpl.
  eexists. split; [reflexivity|].
  apply (fold_max_spec l [a] a); [constructor | | exact Hnum].
  intros v Hv. apply list_elem_of_singleton in Hv as ->.
  apply Float_leb_refl. exact (Forall_inv Hnum).
Qed.

Lemma truediv_sum (l : list float) :
  l <> [] ->
  Py.truediv (Py.sum l) (Z.of_nat (length l)) = Return (mean l).
Proof.
  intros Hl. unfold Py.truediv, Py.sum, mean.
  destruct (Z.eqb_spec (Z.of_nat (length l)) 0) as [H|_].
  - destruct l; [congruence | simpl in H; lia].
  - rewrite sum_to_float. reflexivity.
Qed.

(** C7. On a dataset with at least one point, whose coordinates are numbers,
    [summarize_data] returns the number of points, the arithmetic means of
    the latitudes and of the longitudes, and the least and the greatest
    latitude and longitude; on the two points (25.0, -80.0) and
    (27.0, -82.0) these are 2, 26.0, -81.0 and 25.0, 27.0, -82.0, -80.0. *)
Theorem summarize_data_correct (data : list Point) :
  data <> [] ->
  Forall (fun p => is_number (x p) /\ is_number (y p)) data ->
  (exists s,
      summarize_data data = Return s /\
      total_points s = Z.of_nat (length data) /\
      average_latitude s = mean (map x data) /\
      average_longitude s = mean (map y data) /\
      is_minimum (min_lat (bounding_box s)) (map x data) /\
      is_maximum (max_lat (bounding_box s)) (map x data) /\
      is_minimum (min_lon (bounding_box s)) (map y data) /\
      is_maximum (max_lon (bounding_box s)) (map y data)) /\
  summarize_data [point_a; point_b] =
    Return {| total_points := 2;
              average_latitude := Float.of_Z 26;
              average_longitude := Float.of_Z (-81);
              bounding_box := {| min_lat := Float.of_Z 25;
                                 max_lat := Float.of_Z 27;
                                 min_lon := Float.of_Z (-82);
                                 max_lon := Float.of_Z (-80) |} |}.
Proof.
  intros Hne Hnum. split; [|vm_compute; reflexivity].
  assert (Hx : map x data <> []) by (destruct data; simpl; congruence).
  assert (Hy : map y data <> []) by (destruct data; simpl; congruence).
  assert (Hnx : Forall is_number (map x data)).
  { apply Forall_map. eapply Forall_impl; [exact Hnum|]. simpl. tauto. }
  assert (Hny : Forall is_number (map y data)).
  { apply Forall_map. eapply Forall_impl; [exact Hnum|]. simpl. tauto. }
  destruct (min_spec _ Hx Hnx) as (m1 & Hm1 & Hmin1).
  destruct (max_spec _ Hx Hnx) as (m2 & Hm2 & Hmax2).
  destruct (min_spec _ Hy Hny) as (m3 & Hm3 & Hmin3).
  destruct (max_spec _ Hy Hny) as (m4 & Hm4 & Hmax4).
  unfold summarize_data.
  pose proof (truediv_sum _ Hx) as Hax. pose proof (truediv_sum _ Hy) as Hay.
  rewrite List.length_map in Hax, Hay.
  rewrite Hax, Hay, Hm1, Hm2, Hm3, Hm4. simpl.
  eexists. split; [reflexivity|]. simpl.
  do 3 (split; [reflexivity|]). do 3 (split; [assumption|]). assumption.
Qed.

Lemma summarize_data_correct_witness :
  exists s,
    summarize_data [point_a; point_b] = Return s /\
    total_points s = 2%Z /\
    is_minimum (min_lat (bounding_box s)) (map x [point_a; point_b]).
Proof.
  destruct (proj1 (summarize_data_correct [point_a; point_b]
                     ltac:(discriminate)
                     ltac:(repeat constructor)))
    as (s & H1 & H2 & _ & _ & H3 & _).
  exists s. auto.
Defined.

(** ** A domain error of [haversine_distance] *)

(** C4 (the code at a failing input). Between the antipodal points
    (-87.5, 0.0) and (87.5, 180.0), whose coordinates are finite numbers, the
    squared sine 0.9980973490458729 and the product of the cosines
    0.0019026509541272346 add up to 1.0000000000000002 in binary64, so that
    [sqrt(1 - a)] is the root of a negative number and [haversine_distance]
    raises [ValueError] instead of returning a distance. *)
Theorem haversine_distance_antipodes_raise :
  let M := glibc_antipodes in
  let lat1 := radians (x point_south) in
  let lat2 := radians (x point_north) in
  let dlon := Float.sub (radians (y point_north)) (radians (y point_south)) in
  let a := S754_finite false 4503599627370497 (-52) in
  (finite_number (x point_south) /\ finite_number (y point_south)) /\
  (finite_number (x point_north) /\ finite_number (y point_north)) /\
  (exists s1 t1 c1 c2 s2 t2,
      (let* hlat := truediv (Float.sub lat2 lat1) (Float.of_Z 2) in sin M hlat)
        = Return s1 /\
      pow2 M s1 = Return t1 /\
      cos M lat1 = Return c1 /\
      cos M lat2 = Return c2 /\
      (let* hlon := truediv dlon (Float.of_Z 2) in sin M hlon) = Return s2 /\
      pow2 M s2 = Return t2 /\
      Float.add t1 (Float.mul (Float.mul c1 c2) t2) = a) /\
  sqrt a = Return (Float.of_Z 1) /\
  Float.sub (Float.of_Z 1) a = S754_finite true 4503599627370496 (-104) /\
  sqrt (Float.sub (Float.of_Z 1) a) = Raise ValueError /\
  haversine_distance M (coords point_south) (coords point_north)
    = Raise ValueError.
Proof.
  cbv zeta. do 2 (split; [split; split; vm_compute; reflexivity|]).
  split; [|repeat split; vm_compute; reflexivity].
  exists (S754_finite false 8998626396882423 (-53)),
         (S754_finite false 8990061698484946 (-53)),
         (S754_finite false 6286216213909010 (-57)),
         (S754_finite false 6286216213909010 (-57)),
         (Float.of_Z 1), (Float.of_Z 1).
  repeat split; vm_compute; reflexivity.
Qed.

(** C5 (the code at a failing input). On the dataset of the two antipodal
    points, [calculate_distances] returns no list of one record: the domain
    error of [haversine_distance] on the pair (0, 1) ends the call. *)
Theorem calculate_distances_antipodes_raise :
  calculate_distances glibc_antipodes [point_south; point_north]
    = Raise ValueError.
Proof. vm_compute. reflexivity. Qed.

(** C10 (the code at a failing input). On the dataset of the two antipodal
    points, whose coordinates are finite numbers, and with the negative
    radius -1, [find_clusters] returns no singleton clusters: the domain
    error of [haversine_distance] on the seed 0 and the index 1 ends the
    call. *)
Theorem find_clusters_antipodes_raise :
  Forall (fun p => finite_number (x p) /\ finite_number (y p))
         [point_south; point_north] /\
  Float.ltb (Float.of_Z (-1)) (Float.of_Z 0) = true /\
  find_clusters glibc_antipodes [point_south; point_north] (Float.of_Z (-1))
    = Raise ValueError.
Proof.
  split; [|split]; [|vm_compute; reflexivity..].
  repeat constructor; vm_compute; reflexivity.
Qed.

(** ** Symmetry of [haversine_distance] *)

Lemma binary_round_aux_abs (s s' : bool) (m e : Z) (l : location) :
  SFabs (binary_round_aux Float.prec Float.emax s m e l) =
  SFabs (binary_round_aux Float.prec Float.emax s' m e l).
Proof.
  unfold binary_round_aux.
  destruct (shr_fexp _ _ m e l) as [mrs' e'].
  destruct (shr_fexp _ _ _ e' loc_Exact) as [mrs'' e''].
  destruct (shr_m mrs''); simpl; [reflexivity| |reflexivity].
  destruct (Z.leb _ _); reflexivity.
Qed.

Lemma binary_normalize_abs_opp (m e : Z) :
  SFabs (binary_normalize Float.prec Float.emax (- m) e false) =
  SFabs (binary_normalize Float.prec Float.emax m e false).
Proof.
  destruct m as [|p|p]; simpl; [reflexivity| |];
    unfold binary_round; destruct (shl_align _ _ _); apply binary_round_aux_abs.
Qed.

Lemma Float_mul_comm (a b : float) : Float.mul a b = Float.mul b a.
Proof.
  unfold Float.mul.
  destruct a as [sa|sa| |sa ma ea], b as [sb|sb| |sb mb eb]; simpl;
    rewrite ?(xorb_comm sb sa); try reflexivity.
  rewrite (Pos.mul_comm mb ma), (Z.add_comm eb ea). reflexivity.
Qed.

Lemma Float_abs_sub_swap (a b : float) :
  Float.abs (Float.sub a b) = Float.abs (Float.sub b a).
Proof.
  unfold Float.abs, Float.sub.
  destruct a as [sa|sa| |sa ma ea], b as [sb|sb| |sb mb eb]; simpl;
    try reflexivity;
    try (destruct sa, sb; reflexivity).
  rewrite (Z.min_comm eb ea).
  rewrite <- binary_normalize_abs_opp. f_equal. f_equal. lia.
Qed.

Lemma Float_abs_div (u v c : float) :
  Float.abs u = Float.abs v -> Float.abs (Float.div u c) = Float.abs (Float.div v c).
Proof.
  unfold Float.abs, Float.div.
  destruct u as [su|su| |su mu eu], v as [sv|sv| |sv mv ev]; simpl;
    try discriminate; intros H;
    destruct c as [sc|sc| |sc mc ec]; simpl; try reflexivity.
  injection H as -> ->.
  destruct (SFdiv_core_binary _ _ _ _ _ _) as [[mz ez] lz].
  apply binary_round_aux_abs.
Qed.

Lemma Float_abs_eq (u v : float) :
  Float.abs u = Float.abs v -> v = u \/ v = Float.opp u.
Proof.
  destruct u as [su|su| |su mu eu], v as [sv|sv| |sv mv ev]; simpl;
    try discriminate; intros H; try (injection H as -> ->);
    repeat match goal with s : bool |- _ => destruct s end; auto.
Qed.

Lemma math_1_Raise (func : float -> float) (v : float) (e : PyExc) :
  math_1 func v = Raise e -> e = ValueError.
Proof.
  unfold math_1.
  destruct (_ && _); [congruence|]. destruct (_ && _); congruence.
Qed.

Lemma truediv_two (v : float) :
  truediv v (Float.of_Z 2) = Return (Float.div v (Float.of_Z 2)).
Proof. reflexivity. Qed.

Section Symmetry.

Context (M : Libm).

(** The sine of the C library is an odd function. *)
Hypothesis sin_odd : forall v, libm_sin M (Float.opp v) = Float.opp (libm_sin M v).

Lemma sin_abs (u v : float) :
  Float.abs u = Float.abs v ->
  match sin M u, sin M v with
  | Return a, Return b => Float.abs a = Float.abs b
  | Raise _, Raise _ => True
  | _, _ => False
  end.
Proof.
  intros H. apply Float_abs_eq in H as [->| ->].
  - destruct (sin M u); reflexivity.
  - unfold sin, math_1. rewrite sin_odd.
    destruct (libm_sin M u) as [s|s| |s m e], u as [su|su| |su mu eu]; simpl;
      reflexivity.
Qed.

Lemma pow2_abs (a b : float) :
  Float.abs a = Float.abs b -> pow2 M a = pow2 M b.
Proof.
  intros H. apply Float_abs_eq in H as [->| ->]; [reflexivity|].
  unfold pow2.
  destruct a as [s|s| |s m e]; simpl; try reflexivity.
  unfold Float.ltb, SFltb. simpl. destruct s; reflexivity.
Qed.

Lemma haversine_distance_swap (coord1 coord2 : coord) :
  haversine_distance M coord1 coord2 = haversine_distance M coord2 coord1.
Proof.
  destruct coord1 as [la1 lo1], coord2 as [la2 lo2].
  unfold haversine_distance. rewrite !truediv_two. cbn [rbind fst snd].
  set (two := Float.of_Z 2).
  set (lat1 := radians la1). set (lat2 := radians la2).
  set (lon1 := radians lo1). set (lon2 := radians lo2).
  pose proof (sin_abs (Float.div (Float.sub lat2 lat1) two)
                (Float.div (Float.sub lat1 lat2) two)
                (Float_abs_div _ _ _ (Float_abs_sub_swap _ _))) as Hlat.
  pose proof (sin_abs (Float.div (Float.sub lon2 lon1) two)
                (Float.div (Float.sub lon1 lon2) two)
                (Float_abs_div _ _ _ (Float_abs_sub_swap _ _))) as Hlon.
  revert Hlat.
  destruct (sin M (Float.div (Float.sub lat2 lat1) two)) as [s1|e1] eqn:E1,
           (sin M (Float.div (Float.sub lat1 lat2) two)) as [s1'|e1'] eqn:E1';
    intros Hlat; try contradiction; cbn [rbind];
    [|apply math_1_Raise in E1, E1'; congruence].
  rewrite (pow2_abs _ _ Hlat).
  destruct (pow2 M s1') as [t1|e]; cbn [rbind]; [|reflexivity].
  destruct (cos M lat1) as [c1|ec1] eqn:C1, (cos M lat2) as [c2|ec2] eqn:C2;
    cbn [rbind]; try reflexivity;
    [|apply math_1_Raise in C1, C2; congruence].
  revert Hlon.
  destruct (sin M (Float.div (Float.sub lon2 lon1) two)) as [s2|e2] eqn:E2,
           (sin M (Float.div (Float.sub lon1 lon2) two)) as [s2'|e2'] eqn:E2';
    intros Hlon; try contradiction; cbn [rbind];
    [|apply math_1_Raise in E2, E2'; congruence].
  rewrite (pow2_abs _ _ Hlon), (Float_mul_comm c2 c1). reflexivity.
Qed.

End Symmetry.

(** C6. [haversine_distance] is symmetric: with a C library whose sine is an
    odd function, swapping the two points changes neither the value returned
    nor the exception raised. *)
Theorem haversine_distance_symmetric (M : Libm) (coord1 coord2 : coord) :
  (forall v, libm_sin M (Float.opp v) = Float.opp (libm_sin M v)) ->
  haversine_distance M coord1 coord2 = haversine_distance M coord2 coord1.
Proof. intros Hodd. apply haversine_distance_swap. exact Hodd. Qed.

Lemma series_libm_sin_odd (v : float) :
  libm_sin series_libm (Float.opp v) = Float.opp (libm_sin series_libm v).
Proof.
  destruct v as [s|s| |s m e]; try reflexivity.
  cbn [libm_sin series_libm Float.opp SFopp Float.is_finite]. unfold cut.
  cbn [in_range Float.signbit]. destruct (_ && _)%bool; reflexivity.
Qed.

Lemma haversine_distance_symmetric_witness :
  haversine_distance series_libm (coords point_a) (coords point_b) =
  haversine_distance series_libm (coords point_b) (coords point_a).
Proof.
  apply (haversine_distance_symmetric series_libm (coords point_a) (coords point_b)).
  exact series_libm_sin_odd.
Defined.

(** ** Distances are not negative *)

Lemma signbit_not_negative (f : float) :
  Float.signbit f = false -> not_negative f = true.
Proof. destruct f as [s|s| |s m e]; simpl; intros H; rewrite ?H; reflexivity. Qed.

Lemma binary_round_aux_signbit (m e : Z) (l : location) :
  Float.signbit (binary_round_aux Float.prec Float.emax false m e l) = false.
Proof.
  unfold binary_round_aux.
  destruct (shr_fexp _ _ m e l) as [mrs' e'].
  destruct (shr_fexp _ _ _ e' loc_Exact) as [mrs'' e''].
  destruct (shr_m mrs''); simpl; [reflexivity| |reflexivity].
  destruct (Z.leb _ _); reflexivity.
Qed.

Lemma binary_round_aux_not_negative (m e : Z) (l : location) :
  not_negative (binary_round_aux Float.prec Float.emax false m e l) = true.
Proof. apply signbit_not_negative, binary_round_aux_signbit. Qed.

Lemma Float_mul_not_negative (c t : float) :
  Float.is_finite c = true -> Float.signbit c = false ->
  not_negative t = true -> not_negative (Float.mul c t) = true.
Proof.
  unfold Float.mul.
  destruct c as [sc|sc| |sc mc ec], t as [st|st| |st mt et]; simpl;
    try discriminate; try reflexivity; intros _ -> Ht; simpl.
  - exact Ht.
  - apply negb_true_iff in Ht as ->. apply binary_round_aux_not_negative.
Qed.

Lemma Float_abs_not_negative (c : float) : not_negative (Float.abs c) = true.
Proof. destruct c; reflexivity. Qed.

Lemma Float_leb_not_negative (d radius : float) :
  not_negative d = true ->
  Float.ltb radius (Float.of_Z 0) = true ->
  Float.leb d radius = false.
Proof.
  unfold Float.ltb, Float.leb, SFltb, SFleb.
  change (Float.of_Z 0) with (S754_zero false).
  destruct d as [sd|sd| |sd md ed], radius as [sr|sr| |sr mr er]; simpl;
    try discriminate; try reflexivity;
    repeat match goal with s : bool |- _ => destruct s end;
    simpl; try discriminate; reflexivity.
Qed.

(** What [math.sqrt] returns has its sign bit clear, but for the root -0.0
    of -0.0. *)
Lemma sqrt_Return (v r : float) :
  sqrt v = Return r ->
  Float.signbit r = false \/ (v = S754_zero true /\ r = S754_zero true).
Proof.
  unfold sqrt, math_1, Float.sqrt.
  destruct v as [s|s| |s m e]; simpl.
  - intros [= <-]. destruct s; auto.
  - destruct s; simpl; [discriminate|]. intros [= <-]. auto.
  - intros [= <-]. auto.
  - destruct s; simpl; [discriminate|].
    destruct (SFsqrt_core_binary _ _ _ _) as [[mz ez] lz].
    pose proof (binary_round_aux_signbit mz ez lz) as H.
    destruct (binary_round_aux _ _ false mz ez lz) as [s'|s'| |s' m' e'];
      simpl in *; try discriminate; intros [= <-]; left; exact H.
Qed.

Section NotNegative.

Context (M : Libm).

(** The arc tangent of the C library has the sign of its first argument
    (C99, F.9.1.4). *)
Hypothesis atan2_sign : forall v w,
  Float.is_nan (libm_atan2 M v w) = false ->
  Float.signbit (libm_atan2 M v w) = Float.signbit v.

Lemma m_atan2_not_negative (v w : float) :
  Float.signbit v = false -> not_negative (m_atan2 M v w) = true.
Proof.
  intros Hv. unfold m_atan2, copysign. rewrite Hv.
  destruct (_ || _); [reflexivity|].
  repeat match goal with
         | |- context [if ?b then _ else _] => destruct b
         end; try apply Float_abs_not_negative.
  destruct (Float.is_nan (libm_atan2 M v w)) eqn:Hn.
  - destruct (libm_atan2 M v w); simpl in *; congruence.
  - apply signbit_not_negative. rewrite atan2_sign; assumption.
Qed.

Lemma atan2_Return (v w r : float) :
  atan2 M v w = Return r -> r = m_atan2 M v w.
Proof.
  unfold atan2, math_2. destruct (_ && _); [discriminate|].
  destruct (_ && _); [discriminate|]. congruence.
Qed.

Lemma haversine_distance_not_negative (coord1 coord2 : coord) (d : float) :
  haversine_distance M coord1 coord2 = Return d -> not_negative d = true.
Proof.
  unfold haversine_distance. intros H.
  apply rbind_Return in H as (hlat & _ & H).
  apply rbind_Return in H as (s1 & _ & H).
  apply rbind_Return in H as (t1 & _ & H).
  apply rbind_Return in H as (c1 & _ & H).
  apply rbind_Return in H as (c2 & _ & H).
  apply rbind_Return in H as (hlon & _ & H).
  apply rbind_Return in H as (s2 & _ & H).
  apply rbind_Return in H as (t2 & _ & H).
  revert H. generalize (Float.add t1 (Float.mul (Float.mul c1 c2) t2)).
  intros a H.
  apply rbind_Return in H as (ra & Hra & H).
  apply rbind_Return in H as (rb & Hrb & H).
  apply rbind_Return in H as (t & Ht & [= <-]).
  apply atan2_Return in Ht.
  assert (Hnn : not_negative t = true).
  { apply sqrt_Return in Hra as [Hra|[-> ->]].
    - subst t. apply m_atan2_not_negative. exact Hra.
    - vm_compute in Hrb. injection Hrb as <-. subst t. reflexivity. }
  change (not_negative (Float.mul R (Float.mul (Float.of_Z 2) t)) = true).
  apply Float_mul_not_negative; [reflexivity | reflexivity |].
  apply Float_mul_not_negative; [reflexivity | reflexivity | exact Hnn].
Qed.

End NotNegative.

(** ** [find_clusters] when no distance is within the radius *)

Lemma enumerate_snd {A} (l : list A) : map snd (enumerate l) = l.
Proof.
  unfold enumerate. change (map snd) with (fmap (M:=list) (@snd nat A)).
  apply snd_zip. rewrite length_seq. lia.
Qed.

Lemma find_clusters_singletons (M : Libm) (data : list Point) (radius : float) :
  (forall p q, p ∈ data -> q ∈ data ->
     exists d, haversine_distance M (coords p) (coords q) = Return d /\
               Float.leb d radius = false) ->
  find_clusters M data radius = Return (map (fun p => [p]) data).
Proof.
  intros Hd. rewrite find_clusters_unfold.
  pose (Inv := fun (pre : list (nat * Point)) (st : list (list Point) * gset nat) =>
    fst st = map (fun ip => [snd ip]) pre /\
    forall k, k ∈ snd st <-> k < length pre).
  destruct (for_each_total (outer_body M data radius) Inv (enumerate data) ([], ∅))
    as ([cs vis] & -> & Hcs & _).
  - split; [reflexivity|]. intros k. simpl. split; [set_solver | lia].
  - intros pre [i point] post [cs vis] Hsplit [Hcs Hvis].
    apply enumerate_split in Hsplit as [Hi Hpi]. simpl in Hcs, Hvis.
    unfold outer_body.
    destruct (decide (i ∈ vis)) as [Hin|Hnin]; [apply Hvis in Hin; lia|].
    destruct (for_each_total (inner_body M radius point)
                (fun _ st => st = ([], vis ∪ {[ i ]}))
                (enumerate data) ([], vis ∪ {[ i ]})) as (st & -> & ->);
      [reflexivity| |].
    + intros pre' [j pj] post' st Hsplit' ->.
      apply enumerate_split in Hsplit' as [_ Hpj]. unfold inner_body.
      destruct (decide (j ∈ vis ∪ {[ i ]})); [eauto|].
      destruct (Hd point pj) as (d & Hdist & Hle).
      * eapply list_elem_of_lookup_2. exact Hpi.
      * eapply list_elem_of_lookup_2. exact Hpj.
      * unfold coords in Hdist. rewrite Hdist. simpl. rewrite Hle. eauto.
    + simpl. eexists. split; [reflexivity|]. split; simpl.
      * rewrite map_app, Hcs. reflexivity.
      * intros k. rewrite length_app, elem_of_union, elem_of_singleton, Hvis.
        simpl. lia.
  - simpl in *. rewrite Hcs. f_equal.
    rewrite <- (enumerate_snd data) at 2. rewrite map_map. reflexivity.
Qed.

(** X2. Negative radii (C10, for the datasets whose distances can be
    computed).  With a negative radius, [find_clusters] puts every point in a
    cluster of its own, in dataset order, as soon as the distance between any
    two points of the dataset can be computed: a distance is a NaN, a zero or
    a number whose sign bit is clear, so that it is never [<=] a negative
    radius.  The sign of a distance is that of an arc tangent: the C library
    is taken to return arc tangents with the sign of their first argument. *)
Theorem find_clusters_negative_radius (M : Libm) (data : list Point) (radius : float) :
  (forall v w, Float.is_nan (libm_atan2 M v w) = false ->
               Float.signbit (libm_atan2 M v w) = Float.signbit v) ->
  Float.ltb radius (Float.of_Z 0) = true ->
  (forall p q, p ∈ data -> q ∈ data ->
     returns (haversine_distance M (coords p) (coords q))) ->
  (forall p q d, haversine_distance M (coords p) (coords q) = Return d ->
     not_negative d = true /\ Float.leb d radius = false) /\
  find_clusters M data radius = Return (map (fun p => [p]) data).
Proof.
  intros Hsign Hradius Hret.
  assert (Hnn : forall p q d,
             haversine_distance M (coords p) (coords q) = Return d ->
             not_negative d = true /\ Float.leb d radius = false).
  { intros p q d Hd.
    pose proof (haversine_distance_not_negative M Hsign _ _ _ Hd) as H.
    split; [exact H|]. apply Float_leb_not_negative; assumption. }
  split; [exact Hnn|].
  apply find_clusters_singletons. intros p q Hp Hq.
  destruct (Hret p q Hp Hq) as [d Hd]. exists d. split; [exact Hd|].
  apply (Hnn p q d Hd).
Qed.

Lemma Float_div_abs_signbit (v w : float) :
  Float.is_nan (Float.div v (Float.abs w)) = false ->
  Float.signbit (Float.div v (Float.abs w)) = Float.signbit v.
Proof.
  unfold Float.div.
  destruct v as [sv|sv| |sv mv ev], w as [sw|sw| |sw mw ew]; simpl;
    try discriminate; rewrite ?xorb_false_r; try reflexivity.
  destruct (SFdiv_core_binary _ _ _ _ _ _) as [[mz ez] lz].
  unfold binary_round_aux.
  destruct (shr_fexp _ _ mz ez lz) as [mrs' e'].
  destruct (shr_fexp _ _ _ e' loc_Exact) as [mrs'' e''].
  destruct (shr_m mrs''); simpl; [reflexivity| |discriminate].
  destruct (Z.leb _ _); reflexivity.
Qed.

Lemma series_libm_atan2_sign (v w : float) :
  Float.is_nan (libm_atan2 series_libm v w) = false ->
  Float.signbit (libm_atan2 series_libm v w) = Float.signbit v.
Proof.
  cbn [libm_atan2 series_libm]. unfold cut.
  destruct (in_range 2 (Float.div v (Float.abs w))); [|reflexivity].
  apply Float_div_abs_signbit.
Qed.

Lemma find_clusters_negative_radius_witness :
  find_clusters series_libm [point_a; point_b] (Float.of_Z (-1)) =
  Return [[point_a]; [point_b]].
Proof.
  refine (proj2 (find_clusters_negative_radius series_libm [point_a; point_b]
                   (Float.of_Z (-1)) series_libm_atan2_sign _ _)).
  - vm_compute. reflexivity.
  - intros p q Hp Hq.
    repeat (apply elem_of_cons in Hp as [->|Hp]);
      try (apply elem_of_nil in Hp; contradiction);
      repeat (apply elem_of_cons in Hq as [->|Hq]);
      try (apply elem_of_nil in Hq; contradiction);
      eexists; vm_compute; reflexivity.
Defined.

(** ** Magnitudes of rounded results *)

Section Magnitudes.

Local Open Scope Z_scope.

Lemma shr_1_m (mrs : shr_record) :
  0 <= shr_m mrs -> shr_m (shr_1 mrs) = shr_m mrs / 2 /\ 0 <= shr_m (shr_1 mrs).
Proof.
  destruct mrs as [m r s]. simpl. intros Hm.
  destruct m as [|p|p]; [split; reflexivity| |lia].
  destruct p as [p|p|]; simpl.
  - split; [|lia]. rewrite Pos2Z.inj_xI. 
    rewrite (Z.mul_comm 2), Z.div_add_l by lia. reflexivity.
  - split; [|lia]. rewrite Pos2Z.inj_xO.
    rewrite (Z.mul_comm 2), Z.div_mul by lia. reflexivity.
  - split; [reflexivity|lia].
Qed.

Lemma iter_pos_shr_m (p : positive) (mrs : shr_record) :
  0 <= shr_m mrs ->
  shr_m (SpecFloat.iter_pos shr_1 p mrs) = shr_m mrs / 2 ^ Z.pos p /\
  0 <= shr_m (SpecFloat.iter_pos shr_1 p mrs).
Proof.
  revert mrs. induction p as [p IH|p IH|]; intros mrs Hm; cbn [SpecFloat.iter_pos].
  - destruct (shr_1_m mrs Hm) as [H1 H1'].
    destruct (IH _ H1') as [H2 H2'].
    destruct (IH _ H2') as [H3 H3'].
    split; [|exact H3'].
    rewrite H3, H2, H1, !Z.div_div by lia.
    f_equal. rewrite (Pos2Z.inj_xI p).
    replace (2 * Z.pos p + 1) with (1 + Z.pos p + Z.pos p) by lia.
    rewrite !Z.pow_add_r by lia. change (2 ^ 1) with 2. lia.
  - destruct (IH _ Hm) as [H2 H2'].
    destruct (IH _ H2') as [H3 H3'].
    split; [|exact H3'].
    rewrite H3, H2, !Z.div_div by lia.
    f_equal. rewrite (Pos2Z.inj_xO p).
    replace (2 * Z.pos p) with (Z.pos p + Z.pos p) by lia.
    rewrite !Z.pow_add_r by lia. lia.
  - destruct (shr_1_m mrs Hm) as [H1 H1']. split; [|exact H1'].
    rewrite H1. reflexivity.
Qed.

Lemma digits2_pos_bounds (p : positive) :
  2 ^ (Z.pos (digits2_pos p) - 1) <= Z.pos p < 2 ^ Z.pos (digits2_pos p).
Proof.
  induction p as [p IH|p IH|]; cbn [digits2_pos].
  - rewrite Pos2Z.inj_succ. set (d := Z.pos (digits2_pos p)) in *.
    replace (Z.succ d - 1) with (Z.succ (d - 1)) by lia.
    rewrite !Z.pow_succ_r by lia. rewrite (Pos2Z.inj_xI p). lia.
  - rewrite Pos2Z.inj_succ. set (d := Z.pos (digits2_pos p)) in *.
    replace (Z.succ d - 1) with (Z.succ (d - 1)) by lia.
    rewrite !Z.pow_succ_r by lia. rewrite (Pos2Z.inj_xO p). lia.
  - simpl. lia.
Qed.

Lemma Zdigits2_le (M a : Z) :
  0 <= M -> 0 <= a -> M < 2 ^ a -> Zdigits2 M <= a.
Proof.
  intros HM Ha Hlt. destruct M as [|p|p]; simpl; [lia| |lia].
  pose proof (digits2_pos_bounds p) as [Hlo _].
  destruct (Z_lt_le_dec a (Z.pos (digits2_pos p))) as [Hd|Hd]; [|exact Hd].
  exfalso. assert (2 ^ a <= 2 ^ (Z.pos (digits2_pos p) - 1)).
  { apply Z.pow_le_mono_r; lia. }
  lia.
Qed.

Lemma shr_spec (mrs : shr_record) (e n : Z) :
  0 <= shr_m mrs ->
  snd (shr mrs e n) = e + Z.max 0 n /\
  shr_m (fst (shr mrs e n)) = shr_m mrs / 2 ^ Z.max 0 n /\
  0 <= shr_m (fst (shr mrs e n)).
Proof.
  intros Hm. unfold shr. destruct n as [|p|p]; simpl fst; simpl snd.
  - rewrite Z.max_l by lia. rewrite Z.div_1_r. lia.
  - rewrite Z.max_r by lia. destruct (iter_pos_shr_m p mrs Hm). auto.
  - rewrite Z.max_l by lia. rewrite Z.div_1_r. lia.
Qed.

Lemma shr_record_of_loc_m (m : Z) (l : location) :
  shr_m (shr_record_of_loc m l) = m.
Proof. destruct l as [|[]]; reflexivity. Qed.

Lemma round_nearest_even_bounds (m : Z) (l : location) :
  m <= round_nearest_even m l <= m + 1.
Proof.
  unfold round_nearest_even. destruct l as [|[]]; try lia.
  destruct (Z.even m); lia.
Qed.

Lemma pow2_div (a b : Z) : 0 <= b <= a -> 2 ^ a / 2 ^ b = 2 ^ (a - b).
Proof.
  intros H. replace a with ((a - b) + b) at 1 by lia.
  rewrite Z.pow_add_r by lia. apply Z.div_mul. 
  pose proof (Z.pow_pos_nonneg 2 b). lia.
Qed.

Lemma binary_round_aux_bounded (s : bool) (M E K : Z) (l : location) :
  0 <= M -> E <= K -> M < 2 ^ (K - E) -> -1074 <= K <= 1023 -> E <= 971 ->
  bounded K (binary_round_aux Float.prec Float.emax s M E l).
Proof.
  intros HM HEK HMK HK HE.
  unfold binary_round_aux, shr_fexp.
  pose proof (Zdigits2_le M (K - E) HM ltac:(lia) HMK) as HD.
  set (n1 := fexp Float.prec Float.emax (Zdigits2 M + E) - E).
  pose proof (shr_spec (shr_record_of_loc M l) E n1) as H1.
  rewrite shr_record_of_loc_m in H1. specialize (H1 HM).
  destruct (shr (shr_record_of_loc M l) E n1) as [mrs' e'].
  simpl fst in H1; simpl snd in H1. destruct H1 as (He' & Hm1 & Hm1pos).
  assert (He'K : e' <= K /\ e' <= 971).
  { subst e' n1. unfold fexp, emin, Float.prec, Float.emax. lia. }
  assert (Hm1K : shr_m mrs' < 2 ^ (K - e')).
  { rewrite Hm1. apply Z.div_lt_upper_bound.
    - apply Z.pow_pos_nonneg; lia.
    - rewrite <- Z.pow_add_r by lia.
      replace (Z.max 0 n1 + (K - e')) with (K - E) by lia. exact HMK. }
  pose proof (round_nearest_even_bounds (shr_m mrs') (loc_of_shr_record mrs')) as Hr.
  set (mr := round_nearest_even (shr_m mrs') (loc_of_shr_record mrs')) in *.
  assert (HD2 : Zdigits2 mr <= K - e' + 1).
  { apply Zdigits2_le; [lia | lia |].
    rewrite Z.pow_add_r by lia. change (2 ^ 1) with 2. lia. }
  set (n2 := fexp Float.prec Float.emax (Zdigits2 mr + e') - e').
  pose proof (shr_spec (shr_record_of_loc mr loc_Exact) e' n2) as H2.
  rewrite shr_record_of_loc_m in H2. specialize (H2 ltac:(lia)).
  destruct (shr (shr_record_of_loc mr loc_Exact) e' n2) as [mrs'' e''].
  simpl fst in H2; simpl snd in H2. destruct H2 as (He'' & Hm2 & Hm2pos).
  assert (He''K : e'' <= K /\ e'' <= 971).
  { subst e'' n2. unfold fexp, emin, Float.prec, Float.emax. lia. }
  assert (Hm2K : shr_m mrs'' <= 2 ^ (K - e'')).
  { rewrite Hm2. replace (K - e'') with (K - e' - Z.max 0 n2) by lia.
    rewrite <- pow2_div by lia.
    apply Z.div_le_mono; [apply Z.pow_pos_nonneg; lia | lia]. }
  destruct (shr_m mrs'') as [|m|m]; simpl; [exact I| |lia].
  destruct (Z.leb_spec e'' (Float.emax - Float.prec)) as [_|Hgt].
  - simpl. lia.
  - unfold Float.emax, Float.prec in Hgt. lia.
Qed.


Lemma Pos_iter_xO (m d : positive) : Z.pos (Pos.iter xO m d) = Z.pos m * 2 ^ Z.pos d.
Proof.
  induction d as [|d IH] using Pos.peano_ind.
  - simpl. lia.
  - rewrite Pos.iter_succ, Pos2Z.inj_xO, IH, Pos2Z.inj_succ, Z.pow_succ_r by lia.
    lia.
Qed.

Lemma shl_align_spec (m : positive) (e e' : Z) :
  snd (shl_align m e e') = Z.min e e' /\
  Z.pos (fst (shl_align m e e')) = Z.pos m * 2 ^ (e - Z.min e e').
Proof.
  unfold shl_align. destruct (e' - e) as [|d|d] eqn:Hd; simpl.
  - rewrite Z.min_l by lia. rewrite Z.sub_diag. simpl. lia.
  - rewrite Z.min_l by lia. rewrite Z.sub_diag. simpl. lia.
  - rewrite Z.min_r by lia. split; [reflexivity|].
    rewrite Pos_iter_xO. f_equal. f_equal. lia.
Qed.

Lemma binary_round_bounded (s : bool) (m : positive) (e K : Z) :
  e <= K -> Z.pos m < 2 ^ (K - e) -> -1074 <= K <= 1023 -> e <= 971 ->
  bounded K (binary_round Float.prec Float.emax s m e).
Proof.
  intros HeK Hm HK He. unfold binary_round.
  pose proof (shl_align_spec m e (fexp Float.prec Float.emax (Z.pos (digits2_pos m) + e)))
    as [H1 H2].
  destruct (shl_align m e _) as [mz ez]. simpl in H1, H2.
  apply binary_round_aux_bounded; try lia.
  rewrite H2. subst ez.
  replace (K - Z.min e (fexp Float.prec Float.emax (Z.pos (digits2_pos m) + e)))
    with ((K - e) + (e - Z.min e (fexp Float.prec Float.emax (Z.pos (digits2_pos m) + e))))
    by lia.
  rewrite Z.pow_add_r by lia.
  apply Z.mul_lt_mono_pos_r; [apply Z.pow_pos_nonneg; lia | exact Hm].
Qed.

Lemma binary_normalize_bounded (m e K : Z) (szero : bool) :
  e <= K -> Z.abs m < 2 ^ (K - e) -> -1074 <= K <= 1023 -> e <= 971 ->
  bounded K (binary_normalize Float.prec Float.emax m e szero).
Proof.
  intros HeK Hm HK He. destruct m as [|p|p]; simpl; [exact I| |];
    apply binary_round_bounded; assumption.
Qed.

Lemma bounded_mono (K K' : Z) (f : float) : K <= K' -> bounded K f -> bounded K' f.
Proof.
  intros HK. destruct f as [s|s| |s m e]; simpl; try tauto.
  intros (He & He' & Hm). split; [lia|]. split; [lia|].
  etransitivity; [exact Hm|]. apply Z.pow_le_mono_r; lia.
Qed.

Lemma bounded_finite (K : Z) (f : float) : bounded K f -> Float.is_finite f = true.
Proof. destruct f; simpl; tauto. Qed.

Lemma binary_round_signbit (m : positive) (e : Z) :
  Float.signbit (binary_round Float.prec Float.emax false m e) = false.
Proof.
  unfold binary_round. destruct (shl_align m e _). apply binary_round_aux_signbit.
Qed.

Lemma bounded_strictly (K : Z) (f : float) : bounded K f -> strictly (K + 1) f.
Proof.
  destruct f as [s|s| |s m e]; simpl; try tauto. intros (He & _ & Hm).
  replace (K + 1 - e) with (Z.succ (K - e)) by lia.
  rewrite Z.pow_succ_r by lia. lia.
Qed.

Lemma Float_mul_bounded_strictly (a b : float) (Ka Kb : Z) :
  bounded Ka a -> bounded Kb b -> strictly Kb b ->
  Ka <= 0 \/ Kb <= 0 \/ Ka + Kb <= 971 ->
  -1074 <= Ka + Kb <= 1023 ->
  bounded (Ka + Kb) (Float.mul a b).
Proof.
  unfold Float.mul.
  destruct a as [sa|sa| |sa ma ea], b as [sb|sb| |sb mb eb]; simpl; try tauto.
  intros (Hea & Hea' & Hma) (Heb & Heb' & Hmb) Hst Hexp HK.
  apply binary_round_aux_bounded; try lia.
  replace (Ka + Kb - (ea + eb)) with ((Ka - ea) + (Kb - eb)) by lia.
  rewrite Z.pow_add_r, Pos2Z.inj_mul by lia.
  apply Z.le_lt_trans with (2 ^ (Ka - ea) * Z.pos mb).
  - apply Z.mul_le_mono_nonneg_r; lia.
  - apply Z.mul_lt_mono_pos_l; [apply Z.pow_pos_nonneg; lia | exact Hst].
Qed.

Lemma Float_mul_bounded (a b : float) (Ka Kb : Z) :
  bounded Ka a -> bounded Kb b ->
  Ka <= 0 \/ Kb < 0 \/ Ka + Kb < 971 ->
  -1074 <= Ka + Kb + 1 <= 1023 ->
  bounded (Ka + Kb + 1) (Float.mul a b).
Proof.
  intros Ha Hb Hexp HK. rewrite <- Z.add_assoc.
  apply Float_mul_bounded_strictly; try lia; try assumption.
  - eapply bounded_mono; [|exact Hb]. lia.
  - apply bounded_strictly. exact Hb.
Qed.

Lemma aligned_bound (m : positive) (e ez K : Z) :
  ez <= e <= K -> Z.pos m <= 2 ^ (K - e) ->
  Z.pos m * 2 ^ (e - ez) <= 2 ^ (K - ez).
Proof.
  intros He Hm. replace (K - ez) with ((K - e) + (e - ez)) by lia.
  rewrite Z.pow_add_r by lia.
  apply Z.mul_le_mono_nonneg_r; [apply Z.pow_nonneg; lia | exact Hm].
Qed.

Lemma Float_sub_bounded (a b : float) (K : Z) :
  bounded K a -> bounded K b -> -1074 <= K + 2 <= 1023 ->
  bounded (K + 2) (Float.sub a b).
Proof.
  unfold Float.sub.
  destruct a as [sa|sa| |sa ma ea], b as [sb|sb| |sb mb eb]; simpl; try tauto.
  - destruct sa, sb; simpl; tauto.
  - intros _ (He & He' & Hm) HK. repeat split; try lia.
    etransitivity; [exact Hm|]. apply Z.pow_le_mono_r; lia.
  - intros (He & He' & Hm) _ HK. repeat split; try lia.
    etransitivity; [exact Hm|]. apply Z.pow_le_mono_r; lia.
  - intros (Hea & Hea' & Hma) (Heb & Heb' & Hmb) HK.
    pose proof (shl_align_spec ma ea (Z.min ea eb)) as [_ Ha].
    pose proof (shl_align_spec mb eb (Z.min ea eb)) as [_ Hb].
    rewrite (Z.min_r ea (Z.min ea eb)) in Ha by lia.
    rewrite (Z.min_r eb (Z.min ea eb)) in Hb by lia.
    pose proof (aligned_bound ma ea (Z.min ea eb) K ltac:(lia) Hma) as Ha'.
    pose proof (aligned_bound mb eb (Z.min ea eb) K ltac:(lia) Hmb) as Hb'.
    apply binary_normalize_bounded; try lia.
    rewrite Ha, Hb.
    replace (K + 2 - Z.min ea eb) with (Z.succ (Z.succ (K - Z.min ea eb))) by lia.
    rewrite !Z.pow_succ_r by lia.
    assert (0 < 2 ^ (K - Z.min ea eb)) by (apply Z.pow_pos_nonneg; lia).
    destruct sa, sb; simpl; lia.
Qed.

Lemma of_Z_360 : Float.of_Z 360 = S754_finite false 6333186975989760 (-44).
Proof. reflexivity. Qed.

Lemma Float_add_360 (d : float) :
  bounded 8 d ->
  bounded 10 (Float.add d (Float.of_Z 360)) /\
  Float.signbit (Float.add d (Float.of_Z 360)) = false.
Proof.
  rewrite of_Z_360. unfold Float.add.
  destruct d as [s|s| |s m e]; cbn [bounded SFadd]; try tauto.
  - intros _. cbn. split; [|reflexivity]. repeat split; lia.
  - intros (He & He' & Hm).
    set (ez := Z.min e (-44)).
    pose proof (shl_align_spec m e ez) as [_ Ha].
    pose proof (shl_align_spec 6333186975989760 (-44) ez) as [_ Hb].
    rewrite (Z.min_r e ez) in Ha by lia.
    rewrite (Z.min_r (-44) ez) in Hb by lia.
    pose proof (aligned_bound m e ez 8 ltac:(lia) Hm) as Ha'.
    assert (HP : 0 < 2 ^ (- ez)) by (apply Z.pow_pos_nonneg; lia).
    assert (H8 : 2 ^ (8 - ez) = 256 * 2 ^ (- ez)).
    { replace (8 - ez) with (8 + - ez) by lia. rewrite Z.pow_add_r by lia.
      reflexivity. }
    assert (H10 : 2 ^ (10 - ez) = 1024 * 2 ^ (- ez)).
    { replace (10 - ez) with (10 + - ez) by lia. rewrite Z.pow_add_r by lia.
      reflexivity. }
    assert (H360 : 6333186975989760 * 2 ^ (-44 - ez) = 360 * 2 ^ (- ez)).
    { replace (- ez) with (44 + (-44 - ez)) by lia. rewrite Z.pow_add_r by lia.
      change (2 ^ 44) with 17592186044416. lia. }
    set (X := Z.pos (fst (shl_align m e ez))) in *.
    set (Y := Z.pos (fst (shl_align 6333186975989760 (-44) ez))) in *.
    assert (HS : 0 < cond_Zopp s X + cond_Zopp false Y < 2 ^ (10 - ez)).
    { unfold cond_Zopp. destruct s; lia. }
    destruct (cond_Zopp s X + cond_Zopp false Y) as [|p|p] eqn:HSp; try lia.
    cbn [binary_normalize]. split.
    + apply binary_round_bounded; lia.
    + apply binary_round_signbit.
Qed.

Lemma finite_number_bounded (v : float) : finite_number v -> bounded 1024 v.
Proof.
  intros [Hf Hv]. destruct v as [s|s| |s m e]; simpl in *; try discriminate; [exact I|].
  unfold SpecFloat.bounded, canonical_mantissa in Hv.
  apply andb_true_iff in Hv as [Hc He].
  apply Z.eqb_eq in Hc. apply Z.leb_le in He.
  unfold fexp, emin, Float.prec, Float.emax in *.
  pose proof (digits2_pos_bounds m) as [_ Hd].
  repeat split; try lia.
  apply Z.lt_le_incl. eapply Z.lt_le_trans; [exact Hd|].
  apply Z.pow_le_mono_r; lia.
Qed.

Ltac closed_bound := repeat split; cbv; congruence.

Lemma degToRad_eq : degToRad = S754_finite false 5030569068109113 (-58).
Proof. reflexivity. Qed.

Lemma radToDeg_eq : radToDeg = S754_finite false 8063664102031864 (-47).
Proof. reflexivity. Qed.

Lemma radians_bounded (v : float) : finite_number v -> bounded 1019 (radians v).
Proof.
  intros Hv. apply finite_number_bounded in Hv. unfold radians.
  rewrite degToRad_eq.
  apply (Float_mul_bounded_strictly v _ 1024 (-5)); try lia; try assumption;
    closed_bound.
Qed.

Lemma degrees_bounded (r : float) : bounded 2 r -> bounded 8 (degrees r).
Proof.
  intros Hr. unfold degrees. rewrite radToDeg_eq.
  apply (Float_mul_bounded_strictly r _ 2 6); try lia; try assumption;
    closed_bound.
Qed.

Lemma math_1_bounded (func : float -> float) (v : float) (K : Z) :
  bounded K (func v) -> math_1 func v = Return (func v).
Proof.
  unfold math_1. destruct (func v); simpl; try tauto; reflexivity.
Qed.

Section Bearing.

Context (M : Libm).

(** The C library: sines and cosines of finite numbers are at most 1 in
    magnitude, arc tangents of finite numbers are finite numbers within 4
    (they are within pi), and the remainder of a finite number that is not
    negative by 360 is a number from 0 to 360, 360 excluded. *)
Hypothesis sin_unit : forall v, Float.is_finite v = true -> bounded 0 (libm_sin M v).
Hypothesis cos_unit : forall v, Float.is_finite v = true -> bounded 0 (libm_cos M v).
Hypothesis atan2_bound : forall v w,
  Float.is_finite v = true -> Float.is_finite w = true ->
  bounded 2 (libm_atan2 M v w).
Hypothesis fmod_360 : forall v,
  Float.is_finite v = true -> Float.signbit v = false ->
  Float.signbit (libm_fmod M v (Float.of_Z 360)) = false /\
  Float.ltb (libm_fmod M v (Float.of_Z 360)) (Float.of_Z 360) = true.

Lemma m_atan2_bounded (v w : float) :
  Float.is_finite v = true -> Float.is_finite w = true ->
  bounded 2 (m_atan2 M v w).
Proof.
  intros Hv Hw. unfold m_atan2.
  replace (Float.is_nan w) with false by (destruct w; simpl in *; congruence).
  replace (Float.is_nan v) with false by (destruct v; simpl in *; congruence).
  replace (Float.is_inf v) with false by (destruct v; simpl in *; congruence).
  replace (Float.is_inf w) with false by (destruct w; simpl in *; congruence).
  cbn [orb]. destruct (Float.is_zero v); [|apply atan2_bound; assumption].
  unfold copysign.
  destruct (Float.eqb _ _), (Float.signbit v); closed_bound.
Qed.

Lemma atan2_bounded (v w : float) (Kv Kw : Z) :
  bounded Kv v -> bounded Kw w ->
  exists r, atan2 M v w = Return r /\ bounded 2 r.
Proof.
  intros Hv Hw. apply bounded_finite in Hv, Hw.
  pose proof (m_atan2_bounded v w Hv Hw) as Hr.
  exists (m_atan2 M v w). split; [|exact Hr].
  unfold atan2, math_2. destruct (m_atan2 M v w); simpl in *; try tauto; reflexivity.
Qed.

Lemma sin_libm (v : float) (K : Z) :
  bounded K v -> sin M v = Return (libm_sin M v).
Proof.
  intros Hv. apply bounded_finite in Hv.
  eapply math_1_bounded. apply sin_unit, Hv.
Qed.

Lemma cos_libm (v : float) (K : Z) :
  bounded K v -> cos M v = Return (libm_cos M v).
Proof.
  intros Hv. apply bounded_finite in Hv.
  eapply math_1_bounded. apply cos_unit, Hv.
Qed.

(** The remainder by 360 of a finite number that is not negative is the C
    library's: no 360 is added to it, and a zero remainder is [+0.0], which
    is the zero the C library returned. *)
Lemma rem_360 (v : float) :
  Float.is_finite v = true -> Float.signbit v = false ->
  rem M v (Float.of_Z 360) = Return (libm_fmod M v (Float.of_Z 360)) /\
  Float.leb (Float.of_Z 0) (libm_fmod M v (Float.of_Z 360)) = true /\
  Float.ltb (libm_fmod M v (Float.of_Z 360)) (Float.of_Z 360) = true.
Proof.
  intros Hv Hs. destruct (fmod_360 v Hv Hs) as [Hrs Hrl].
  unfold rem. change (Float.is_zero (Float.of_Z 360)) with false. cbv iota.
  change (Float.ltb (Float.of_Z 360) (S754_zero false)) with false.
  revert Hrs Hrl. generalize (libm_fmod M v (Float.of_Z 360)).
  intros r Hrs Hrl.
  destruct r as [s|s| |s m e]; cbn [Float.signbit] in Hrs; subst;
    try discriminate Hrl.
  - split; [reflexivity|]. split; reflexivity.
  - split; [reflexivity|]. split; [reflexivity | exact Hrl].
Qed.

Lemma calculate_bearing_formula (coord1 coord2 : coord) :
  finite_number (fst coord1) -> finite_number (snd coord1) ->
  finite_number (fst coord2) -> finite_number (snd coord2) ->
  let lat1 := radians (fst coord1) in
  let lon1 := radians (snd coord1) in
  let lat2 := radians (fst coord2) in
  let lon2 := radians (snd coord2) in
  let dlon := Float.sub lon2 lon1 in
  let x := Float.mul (libm_sin M dlon) (libm_cos M lat2) in
  let y := Float.sub (Float.mul (libm_cos M lat1) (libm_sin M lat2))
                     (Float.mul (Float.mul (libm_sin M lat1) (libm_cos M lat2))
                                (libm_cos M dlon)) in
  exists initial_bearing b,
    atan2 M x y = Return initial_bearing /\
    rem M (Float.add (degrees initial_bearing) (Float.of_Z 360)) (Float.of_Z 360)
      = Return b /\
    b = libm_fmod M (Float.add (degrees initial_bearing) (Float.of_Z 360))
                    (Float.of_Z 360) /\
    calculate_bearing M coord1 coord2 = Return b /\
    Float.leb (Float.of_Z 0) b = true /\
    Float.ltb b (Float.of_Z 360) = true.
Proof.
  intros Hla1 Hlo1 Hla2 Hlo2. cbv zeta. unfold calculate_bearing.
  pose proof (radians_bounded _ Hla1) as Hlat1.
  pose proof (radians_bounded _ Hlo1) as Hlon1.
  pose proof (radians_bounded _ Hla2) as Hlat2.
  pose proof (radians_bounded _ Hlo2) as Hlon2.
  set (lat1 := radians (fst coord1)) in *. set (lon1 := radians (snd coord1)) in *.
  set (lat2 := radians (fst coord2)) in *. set (lon2 := radians (snd coord2)) in *.
  pose proof (Float_sub_bounded lon2 lon1 1019 Hlon2 Hlon1 ltac:(lia)) as Hdlon.
  set (dlon := Float.sub lon2 lon1) in *.
  rewrite (sin_libm dlon _ Hdlon), (cos_libm lat2 _ Hlat2),
    (cos_libm lat1 _ Hlat1), (sin_libm lat2 _ Hlat2), (sin_libm lat1 _ Hlat1),
    (cos_libm dlon _ Hdlon).
  cbn [rbind].
  pose proof (sin_unit dlon (bounded_finite _ _ Hdlon)) as Hsdlon.
  pose proof (cos_unit lat2 (bounded_finite _ _ Hlat2)) as Hclat2.
  pose proof (cos_unit lat1 (bounded_finite _ _ Hlat1)) as Hclat1.
  pose proof (sin_unit lat2 (bounded_finite _ _ Hlat2)) as Hslat2.
  pose proof (sin_unit lat1 (bounded_finite _ _ Hlat1)) as Hslat1.
  pose proof (cos_unit dlon (bounded_finite _ _ Hdlon)) as Hcdlon.
  pose proof (Float_mul_bounded _ _ 0 0 Hsdlon Hclat2 ltac:(lia) ltac:(lia)) as Hx.
  pose proof (Float_mul_bounded _ _ 0 0 Hclat1 Hslat2 ltac:(lia) ltac:(lia)) as Hy1.
  pose proof (Float_mul_bounded _ _ 0 0 Hslat1 Hclat2 ltac:(lia) ltac:(lia)) as Hy2.
  pose proof (Float_mul_bounded _ _ 1 0 Hy2 Hcdlon ltac:(lia) ltac:(lia)) as Hy3.
  pose proof (Float_sub_bounded _ _ 2 (bounded_mono 1 2 _ ltac:(lia) Hy1) Hy3
                ltac:(lia)) as Hy.
  destruct (atan2_bounded _ _ _ _ Hx Hy) as (r & Hatan & Hr).
  rewrite Hatan. cbn [rbind].
  destruct (Float_add_360 _ (degrees_bounded r Hr)) as [Hv Hs].
  destruct (rem_360 _ (bounded_finite _ _ Hv) Hs) as (Hrem & H0 & H360).
  exists r, (libm_fmod M (Float.add (degrees r) (Float.of_Z 360)) (Float.of_Z 360)).
  repeat split; assumption.
Qed.

End Bearing.

End Magnitudes.

(** C8. [calculate_bearing] returns the initial bearing from the first point
    to the second in degrees, normalised to a number from 0 to 360, 360
    excluded.  For points with finite coordinates it returns
    [(degrees(atan2(x, y)) + 360) % 360], where [x] is
    [sin(dlon) * cos(lat2)] and [y] is
    [cos(lat1) * sin(lat2) - sin(lat1) * cos(lat2) * cos(dlon)] of the
    coordinates in radians: the arc tangent [initial_bearing] of [x] and [y]
    is converted to degrees, 360 is added, and the result [b] is the
    remainder of that sum by 360, which is the C library's [fmod] of it; and
    [b] is at least 0 and less than 360.  The C library is taken to return
    sines and cosines of magnitude at most 1 and arc tangents of magnitude at
    most 4 for finite arguments, and a remainder by 360 from 0 to 360, 360
    excluded, for a finite argument that is not negative. *)
Theorem calculate_bearing_in_range (M : Libm) (coord1 coord2 : coord) :
  (forall v, Float.is_finite v = true -> bounded 0 (libm_sin M v)) ->
  (forall v, Float.is_finite v = true -> bounded 0 (libm_cos M v)) ->
  (forall v w, Float.is_finite v = true -> Float.is_finite w = true ->
               bounded 2 (libm_atan2 M v w)) ->
  (forall v, Float.is_finite v = true -> Float.signbit v = false ->
             Float.signbit (libm_fmod M v (Float.of_Z 360)) = false /\
             Float.ltb (libm_fmod M v (Float.of_Z 360)) (Float.of_Z 360) = true) ->
  finite_number (fst coord1) -> finite_number (snd coord1) ->
  finite_number (fst coord2) -> finite_number (snd coord2) ->
  let lat1 := radians (fst coord1) in
  let lon1 := radians (snd coord1) in
  let lat2 := radians (fst coord2) in
  let lon2 := radians (snd coord2) in
  let dlon := Float.sub lon2 lon1 in
  let x := Float.mul (libm_sin M dlon) (libm_cos M lat2) in
  let y := Float.sub (Float.mul (libm_cos M lat1) (libm_sin M lat2))
                     (Float.mul (Float.mul (libm_sin M lat1) (libm_cos M lat2))
                                (libm_cos M dlon)) in
  exists initial_bearing b,
    atan2 M x y = Return initial_bearing /\
    rem M (Float.add (degrees initial_bearing) (Float.of_Z 360)) (Float.of_Z 360)
      = Return b /\
    b = libm_fmod M (Float.add (degrees initial_bearing) (Float.of_Z 360))
                    (Float.of_Z 360) /\
    calculate_bearing M coord1 coord2 = Return b /\
    Float.leb (Float.of_Z 0) b = true /\
    Float.ltb b (Float.of_Z 360) = true.
Proof. intros. apply calculate_bearing_formula; assumption. Qed.

Lemma in_range_bounded (K : Z) (f : float) : in_range K f = true -> bounded K f.
Proof.
  destruct f as [s|s| |s m e]; simpl; try discriminate; [auto|].
  intros H. apply andb_true_iff in H as [H H3]. apply andb_true_iff in H as [H1 H2].
  apply Z.leb_le in H1, H2, H3. auto.
Qed.

Lemma cut_bounded (K : Z) (v r : float) : bounded K (cut K v r).
Proof.
  unfold cut. destruct (in_range K r) eqn:H; [|exact I].
  apply in_range_bounded. exact H.
Qed.

Lemma series_libm_sin_unit (v : float) :
  Float.is_finite v = true -> bounded 0 (libm_sin series_libm v).
Proof. intros H. cbn [libm_sin series_libm]. rewrite H. apply cut_bounded. Qed.

Lemma series_libm_cos_unit (v : float) :
  Float.is_finite v = true -> bounded 0 (libm_cos series_libm v).
Proof. intros H. cbn [libm_cos series_libm]. rewrite H. apply cut_bounded. Qed.

Lemma series_libm_atan2_bound (v w : float) :
  Float.is_finite v = true -> Float.is_finite w = true ->
  bounded 2 (libm_atan2 series_libm v w).
Proof. intros _ _. apply cut_bounded. Qed.

Lemma series_libm_fmod_360 (v : float) :
  Float.is_finite v = true -> Float.signbit v = false ->
  Float.signbit (libm_fmod series_libm v (Float.of_Z 360)) = false /\
  Float.ltb (libm_fmod series_libm v (Float.of_Z 360)) (Float.of_Z 360) = true.
Proof.
  intros _ Hs. cbn [libm_fmod series_libm].
  destruct (Float.ltb v (Float.of_Z 360)) eqn:Hlt; [auto|].
  destruct (Float.ltb (Float.sub v (Float.of_Z 360)) (Float.of_Z 360)) eqn:Hd;
    [|split; reflexivity].
  destruct (Float.signbit (Float.sub v (Float.of_Z 360))) eqn:Hsd;
    [split; reflexivity | auto].
Qed.

Lemma calculate_bearing_in_range_witness :
  calculate_bearing series_libm (coords point_a) (coords point_b)
    = Return (S754_finite false 5525635673408628 (-44)) /\
  Float.leb (Float.of_Z 0) (S754_finite false 5525635673408628 (-44)) = true /\
  Float.ltb (S754_finite false 5525635673408628 (-44)) (Float.of_Z 360) = true.
Proof.
  destruct (calculate_bearing_in_range series_libm (coords point_a) (coords point_b)
              series_libm_sin_unit series_libm_cos_unit
              series_libm_atan2_bound series_libm_fmod_360)
    as (initial_bearing & b & _ & _ & _ & Hb & H0 & H360);
    try (split; reflexivity).
  assert (Hval : calculate_bearing series_libm (coords point_a) (coords point_b)
                 = Return (S754_finite false 5525635673408628 (-44)))
    by (vm_compute; reflexivity).
  rewrite Hval in Hb. injection Hb as <-.
  repeat split; assumption.
Defined.

(** * More properties of the library *)

(** ** Bounding boxes *)

Lemma is_within_bounds_spec (lat lon a b c d : float) :
  is_within_bounds (lat, lon) (a, b, c, d) = true <->
  Float.leb a lat = true /\ Float.leb lat b = true /\
  Float.leb c lon = true /\ Float.leb lon d = true.
Proof.
  unfold is_within_bounds. rewrite !andb_true_iff. tauto.
Qed.

Lemma Float_leb_number (a b : float) :
  Float.leb a b = true -> is_number a /\ is_number b.
Proof.
  unfold is_number. destruct a, b; simpl; intros H; split; try reflexivity;
    discriminate.
Qed.

Lemma summarize_data_Return (data : list Point) :
  data <> [] ->
  Forall (fun p => is_number (x p) /\ is_number (y p)) data ->
  exists s,
    summarize_data data = Return s /\
    total_points s = Z.of_nat (length data) /\
    is_minimum (min_lat (bounding_box s)) (map x data) /\
    is_maximum (max_lat (bounding_box s)) (map x data) /\
    is_minimum (min_lon (bounding_box s)) (map y data) /\
    is_maximum (max_lon (bounding_box s)) (map y data).
Proof.
  intros Hne Hnum.
  assert (Hx : map x data <> []) by (destruct data; [congruence | discriminate]).
  assert (Hy : map y data <> []) by (destruct data; [congruence | discriminate]).
  assert (Hnx : Forall is_number (map x data)).
  { apply Forall_map. eapply Forall_impl; [exact Hnum|]. simpl. tauto. }
  assert (Hny : Forall is_number (map y data)).
  { apply Forall_map. eapply Forall_impl; [exact Hnum|]. simpl. tauto. }
  destruct (min_spec _ Hx Hnx) as (a & Ha & Hma).
  destruct (max_spec _ Hx Hnx) as (b & Hb & Hmb).
  destruct (min_spec _ Hy Hny) as (c & Hc & Hmc).
  destruct (max_spec _ Hy Hny) as (d & Hd & Hmd).
  unfold summarize_data.
  pose proof (truediv_sum _ Hx) as Hax. pose proof (truediv_sum _ Hy) as Hay.
  rewrite List.length_map in Hax, Hay.
  rewrite Hax, Hay, Ha, Hb, Hc, Hd. simpl.
  eexists. split; [reflexivity|]. simpl. auto.
Qed.

(** X3. Every point of a dataset lies in the bounding box [summarize_data]
    computes for it: on a dataset with at least one point and no NaN
    coordinate, [is_within_bounds] answers [True] for each point and the
    bounds [(min_lat, max_lat, min_lon, max_lon)] of the summary. *)
Theorem summarize_data_box_holds_points (data : list Point) :
  data <> [] ->
  Forall (fun p => is_number (x p) /\ is_number (y p)) data ->
  exists s,
    summarize_data data = Return s /\
    forall p, p ∈ data ->
      is_within_bounds (coords p)
        (min_lat (bounding_box s), max_lat (bounding_box s),
         min_lon (bounding_box s), max_lon (bounding_box s)) = true.
Proof.
  intros Hne Hnum.
  destruct (summarize_data_Return data Hne Hnum)
    as (s & Hs & _ & [_ Ha] & [_ Hb] & [_ Hc] & [_ Hd]).
  exists s. split; [exact Hs|]. intros p Hp.
  unfold coords. apply is_within_bounds_spec.
  assert (Hxp : x p ∈ map x data)
    by (apply list_elem_of_In, in_map, list_elem_of_In, Hp).
  assert (Hyp : y p ∈ map y data)
    by (apply list_elem_of_In, in_map, list_elem_of_In, Hp).
  auto.
Qed.

Lemma summarize_data_box_holds_points_witness :
  exists s,
    summarize_data [point_a; point_b] = Return s /\
    forall p, p ∈ [point_a; point_b] ->
      is_within_bounds (coords p)
        (min_lat (bounding_box s), max_lat (bounding_box s),
         min_lon (bounding_box s), max_lon (bounding_box s)) = true.
Proof.
  apply (summarize_data_box_holds_points [point_a; point_b]).
  - discriminate.
  - repeat constructor.
Defined.

Lemma Float_leb_antisym (a b : float) :
  Float.leb a b = true -> Float.leb b a = true -> Float.eqb a b = true.
Proof.
  unfold Float.leb, Float.eqb, SFleb, SFeqb.
  destruct a as [sa|sa| |sa ma ea], b as [sb|sb| |sb mb eb];
    simpl; intros; float_order.
Qed.

Lemma is_minimum_Permutation (m1 m2 : float) (l1 l2 : list float) :
  l1 ≡ₚ l2 -> is_minimum m1 l1 -> is_minimum m2 l2 -> Float.eqb m1 m2 = true.
Proof.
  intros Hp [Hin1 Hle1] [Hin2 Hle2]. apply Float_leb_antisym.
  - apply Hle1. rewrite Hp. exact Hin2.
  - apply Hle2. rewrite <- Hp. exact Hin1.
Qed.

Lemma is_maximum_Permutation (m1 m2 : float) (l1 l2 : list float) :
  l1 ≡ₚ l2 -> is_maximum m1 l1 -> is_maximum m2 l2 -> Float.eqb m1 m2 = true.
Proof.
  intros Hp [Hin1 Hle1] [Hin2 Hle2]. apply Float_leb_antisym.
  - apply Hle2. rewrite <- Hp. exact Hin1.
  - apply Hle1. rewrite Hp. exact Hin2.
Qed.

(** X4. The count and the bounding box of [summarize_data] do not depend on
    the order of the points: on two datasets with the same points (at least
    one, no NaN coordinate) the counts are the same and the four bounds are
    equal floats ([==]; the two averages are sums in dataset order and can
    differ). *)
Theorem summarize_data_box_Permutation (data1 data2 : list Point) :
  data1 ≡ₚ data2 ->
  data1 <> [] ->
  Forall (fun p => is_number (x p) /\ is_number (y p)) data1 ->
  exists s1 s2,
    summarize_data data1 = Return s1 /\
    summarize_data data2 = Return s2 /\
    total_points s1 = total_points s2 /\
    Float.eqb (min_lat (bounding_box s1)) (min_lat (bounding_box s2)) = true /\
    Float.eqb (max_lat (bounding_box s1)) (max_lat (bounding_box s2)) = true /\
    Float.eqb (min_lon (bounding_box s1)) (min_lon (bounding_box s2)) = true /\
    Float.eqb (max_lon (bounding_box s1)) (max_lon (bounding_box s2)) = true.
Proof.
  intros Hp Hne Hnum.
  assert (Hne2 : data2 <> []).
  { intros ->. apply Permutation_nil_r in Hp. contradiction. }
  assert (Hnum2 : Forall (fun p => is_number (x p) /\ is_number (y p)) data2)
    by (rewrite <- Hp; exact Hnum).
  destruct (summarize_data_Return data1 Hne Hnum)
    as (s1 & Hs1 & Hn1 & Ha1 & Hb1 & Hc1 & Hd1).
  destruct (summarize_data_Return data2 Hne2 Hnum2)
    as (s2 & Hs2 & Hn2 & Ha2 & Hb2 & Hc2 & Hd2).
  assert (Hx : map x data1 ≡ₚ map x data2) by (apply Permutation_map, Hp).
  assert (Hy : map y data1 ≡ₚ map y data2) by (apply Permutation_map, Hp).
  exists s1, s2. split; [exact Hs1|]. split; [exact Hs2|].
  split; [rewrite Hn1, Hn2, Hp; reflexivity|].
  split; [exact (is_minimum_Permutation _ _ _ _ Hx Ha1 Ha2)|].
  split; [exact (is_maximum_Permutation _ _ _ _ Hx Hb1 Hb2)|].
  split; [exact (is_minimum_Permutation _ _ _ _ Hy Hc1 Hc2)|].
  exact (is_maximum_Permutation _ _ _ _ Hy Hd1 Hd2).
Qed.

Lemma summarize_data_box_Permutation_witness :
  exists s1 s2,
    summarize_data [point_a; point_b] = Return s1 /\
    summarize_data [point_b; point_a] = Return s2 /\
    total_points s1 = total_points s2 /\
    Float.eqb (min_lat (bounding_box s1)) (min_lat (bounding_box s2)) = true /\
    Float.eqb (max_lat (bounding_box s1)) (max_lat (bounding_box s2)) = true /\
    Float.eqb (min_lon (bounding_box s1)) (min_lon (bounding_box s2)) = true /\
    Float.eqb (max_lon (bounding_box s1)) (max_lon (bounding_box s2)) = true.
Proof.
  apply (summarize_data_box_Permutation [point_a; point_b] [point_b; point_a]).
  - apply perm_swap.
  - discriminate.
  - repeat constructor.
Defined.

(** X5. [is_within_bounds] answers [True] only for a box that is well formed
    and for numbers: the lower bound of each axis is at most the upper one,
    and neither the coordinates nor the bounds hold a NaN. *)
Theorem is_within_bounds_well_formed (lat lon a b c d : float) :
  is_within_bounds (lat, lon) (a, b, c, d) = true ->
  Float.leb a b = true /\ Float.leb c d = true /\
  Forall is_number [lat; lon; a; b; c; d].
Proof.
  intros H. apply is_within_bounds_spec in H as (Ha & Hb & Hc & Hd).
  split; [eapply Float_leb_trans; eassumption|].
  split; [eapply Float_leb_trans; eassumption|].
  apply Float_leb_number in Ha as [? ?], Hb as [? ?], Hc as [? ?], Hd as [? ?].
  repeat constructor; assumption.
Qed.

Lemma is_within_bounds_well_formed_witness :
  Float.leb (Float.of_Z 20) (Float.of_Z 30) = true /\
  Float.leb (Float.of_Z (-90)) (Float.of_Z (-70)) = true /\
  Forall is_number [Float.of_Z 25; Float.of_Z (-80); Float.of_Z 20; Float.of_Z 30;
                    Float.of_Z (-90); Float.of_Z (-70)].
Proof.
  apply (is_within_bounds_well_formed (Float.of_Z 25) (Float.of_Z (-80))
           (Float.of_Z 20) (Float.of_Z 30) (Float.of_Z (-90)) (Float.of_Z (-70))).
  reflexivity.
Defined.

(** X6. A box that holds a point still holds it when the box is widened:
    [is_within_bounds] is monotone in the four bounds. *)
Theorem is_within_bounds_widen (coord : coord) (a b c d a' b' c' d' : float) :
  is_within_bounds coord (a, b, c, d) = true ->
  Float.leb a' a = true -> Float.leb b b' = true ->
  Float.leb c' c = true -> Float.leb d d' = true ->
  is_within_bounds coord (a', b', c', d') = true.
Proof.
  destruct coord as [lat lon]. intros H Ha Hb Hc Hd.
  apply is_within_bounds_spec in H as (H1 & H2 & H3 & H4).
  apply is_within_bounds_spec.
  split; [exact (Float_leb_trans _ _ _ Ha H1)|].
  split; [exact (Float_leb_trans _ _ _ H2 Hb)|].
  split; [exact (Float_leb_trans _ _ _ Hc H3)|].
  exact (Float_leb_trans _ _ _ H4 Hd).
Qed.

Lemma is_within_bounds_widen_witness :
  is_within_bounds (coords point_a)
    (Float.of_Z 0, Float.of_Z 90, Float.of_Z (-180), Float.of_Z 0) = true.
Proof.
  apply (is_within_bounds_widen (coords point_a)
           (Float.of_Z 20) (Float.of_Z 30) (Float.of_Z (-90)) (Float.of_Z (-70)));
    reflexivity.
Defined.

(** ** Edge cases of [haversine_distance] *)

Lemma Float_sub_self (v : float) :
  Float.is_finite v = true -> Float.sub v v = S754_zero false.
Proof.
  destruct v as [[]|s| |s m e]; try discriminate; try reflexivity.
  intros _. unfold Float.sub, SFsub. rewrite Z.sub_diag. reflexivity.
Qed.

Lemma radians_infinity (s : bool) : radians (S754_infinity s) = S754_infinity s.
Proof. destruct s; reflexivity. Qed.

Lemma radians_is_inf (v : float) :
  Float.is_inf v = true -> exists s, radians v = S754_infinity s.
Proof.
  destruct v as [| s | |]; try discriminate. intros _. exists s.
  apply radians_infinity.
Qed.

Lemma Float_mul_square_zero (c : float) :
  bounded 0 c ->
  Float.mul (Float.mul c c) (S754_zero false) = S754_zero false.
Proof.
  intros Hc.
  assert (Hb : bounded 1 (Float.mul c c)).
  { apply (Float_mul_bounded c c 0 0 Hc Hc); lia. }
  assert (Hs : Float.signbit (Float.mul c c) = false).
  { destruct c as [[]| | |s m e]; try reflexivity; try (simpl in Hc; tauto).
    unfold Float.mul, SFmul. rewrite xorb_nilpotent.
    apply binary_round_aux_signbit. }
  destruct (Float.mul c c) as [s|s| |s m e]; simpl in Hb, Hs; try tauto;
    subst s; reflexivity.
Qed.

Section HaversineEdges.

Context (M : Libm).

Lemma haversine_distance_self (lat lon : float) :
  Float.is_zero (libm_sin M (S754_zero false)) = true ->
  (forall v, Float.is_finite v = true -> bounded 0 (libm_cos M v)) ->
  finite_number lat -> finite_number lon ->
  haversine_distance M (lat, lon) (lat, lon) = Return (S754_zero false).
Proof.
  intros Hsin Hcos Hlat Hlon.
  pose proof (bounded_finite _ _ (radians_bounded lat Hlat)) as Hflat.
  pose proof (bounded_finite _ _ (radians_bounded lon Hlon)) as Hflon.
  unfold haversine_distance. cbn [fst snd].
  rewrite (Float_sub_self _ Hflat), (Float_sub_self _ Hflon).
  rewrite truediv_two.
  change (Float.div (S754_zero false) (Float.of_Z 2)) with (S754_zero false).
  cbn [rbind].
  assert (Hs : exists s, sin M (S754_zero false) = Return (S754_zero s)).
  { unfold sin, math_1. destruct (libm_sin M (S754_zero false)) as [s| | |];
      try discriminate. exists s. reflexivity. }
  destruct Hs as (s & ->). cbn [rbind].
  replace (pow2 M (S754_zero s)) with (Return (S754_zero false))
    by (destruct s; reflexivity).
  cbn [rbind].
  pose proof (Hcos _ Hflat) as Hc.
  unfold cos at 1 2. rewrite (math_1_bounded _ _ 0 Hc). cbn [rbind].
  rewrite (Float_mul_square_zero _ Hc).
  vm_compute. reflexivity.
Qed.

Lemma haversine_distance_infinite_latitude
    (lat1 lon1 lat2 lon2 : float) :
  (forall s, libm_sin M (S754_infinity s) = S754_nan) ->
  libm_sin M S754_nan = S754_nan ->
  (forall s, libm_cos M (S754_infinity s) = S754_nan) ->
  Float.is_inf lat1 = true \/ Float.is_inf lat2 = true ->
  haversine_distance M (lat1, lon1) (lat2, lon2) = Raise ValueError.
Proof.
  intros Hsin Hnan Hcos Hinf.
  unfold haversine_distance. cbn [fst snd]. rewrite truediv_two. cbn [rbind].
  assert (Hinf' : Float.is_inf (radians lat1) = true \/
                  Float.is_inf (radians lat2) = true).
  { destruct Hinf as [H|H]; apply radians_is_inf in H as [s ->]; auto. }
  clear Hinf. revert Hinf'.
  generalize (radians lat1) (radians lat2). intros r1 r2 Hinf.
  assert (Hraise : forall s, sin M (S754_infinity s) = Raise ValueError).
  { intros s. unfold sin, math_1. rewrite Hsin. reflexivity. }
  assert (Hcraise : forall s, cos M (S754_infinity s) = Raise ValueError).
  { intros s. unfold cos, math_1. rewrite Hcos. reflexivity. }
  assert (Hsnan : sin M S754_nan = Return S754_nan).
  { unfold sin, math_1. rewrite Hnan. reflexivity. }
  assert (Hcnan : exists c, cos M S754_nan = Return c).
  { unfold cos, math_1. simpl. rewrite andb_false_r.
    destruct (libm_cos M S754_nan); simpl; eauto. }
  assert (Hd2 : forall s, Float.div (S754_infinity s) (Float.of_Z 2) = S754_infinity s)
    by (intros []; reflexivity).
  destruct r1 as [s1|s1| |s1 m1 e1], r2 as [s2|s2| |s2 m2 e2];
    destruct Hinf as [H|H]; try discriminate H; clear H.
  all: try (cbn [Float.sub SFsub]; rewrite ?Hd2, Hraise; reflexivity).
  all: try (change (Float.div (Float.sub ?a ?b) _) with S754_nan).
  - destruct s1, s2; cbn [Float.sub SFsub]; rewrite ?Hd2, ?Hraise; try reflexivity;
      change (Float.div S754_nan (Float.of_Z 2)) with S754_nan;
      rewrite Hsnan; cbn [rbind pow2 Float.is_nan]; rewrite Hcraise; reflexivity.
  - destruct s1, s2; cbn [Float.sub SFsub]; rewrite ?Hd2, ?Hraise; try reflexivity;
      change (Float.div S754_nan (Float.of_Z 2)) with S754_nan;
      rewrite Hsnan; cbn [rbind pow2 Float.is_nan]; rewrite Hcraise; reflexivity.
  - cbn [Float.sub SFsub].
    change (Float.div S754_nan (Float.of_Z 2)) with S754_nan.
    rewrite Hsnan; cbn [rbind pow2 Float.is_nan]; rewrite Hcraise; reflexivity.
  - cbn [Float.sub SFsub].
    change (Float.div S754_nan (Float.of_Z 2)) with S754_nan.
    rewrite Hsnan; cbn [rbind pow2 Float.is_nan].
    destruct Hcnan as (c & ->). cbn [rbind]. rewrite Hcraise. reflexivity.
Qed.

End HaversineEdges.

(** X7. The distance from a point to itself is zero: for finite coordinates
    [haversine_distance(p, p)] returns 0.0.  The C library is taken to
    return a zero for the sine of zero and cosines of magnitude at most 1
    for finite arguments. *)
Theorem haversine_distance_same_point (M : Libm) (p : coord) :
  Float.is_zero (libm_sin M (S754_zero false)) = true ->
  (forall v, Float.is_finite v = true -> bounded 0 (libm_cos M v)) ->
  finite_number (fst p) -> finite_number (snd p) ->
  haversine_distance M p p = Return (S754_zero false).
Proof. destruct p as [lat lon]. apply haversine_distance_self. Qed.

Lemma haversine_distance_same_point_witness :
  haversine_distance series_libm (coords point_a) (coords point_a)
    = Return (S754_zero false).
Proof.
  apply (haversine_distance_same_point series_libm (coords point_a)).
  - reflexivity.
  - exact series_libm_cos_unit.
  - split; reflexivity.
  - split; reflexivity.
Defined.

(** X8. An infinite latitude does not propagate as a NaN: when the latitude
    of either point is infinite, [haversine_distance] raises [ValueError],
    whatever the other coordinates are.  The C library is taken to return a
    NaN for the sine and the cosine of an infinity and for the sine of a
    NaN (C99, F.9.1). *)
Theorem haversine_distance_infinite_latitude_raises (M : Libm) (coord1 coord2 : coord) :
  (forall s, libm_sin M (S754_infinity s) = S754_nan) ->
  libm_sin M S754_nan = S754_nan ->
  (forall s, libm_cos M (S754_infinity s) = S754_nan) ->
  Float.is_inf (fst coord1) = true \/ Float.is_inf (fst coord2) = true ->
  haversine_distance M coord1 coord2 = Raise ValueError.
Proof.
  destruct coord1 as [lat1 lon1], coord2 as [lat2 lon2].
  apply haversine_distance_infinite_latitude.
Qed.

Lemma haversine_distance_infinite_latitude_raises_witness :
  haversine_distance series_libm (S754_infinity false, Float.of_Z 0) (coords point_a)
    = Raise ValueError.
Proof.
  apply (haversine_distance_infinite_latitude_raises series_libm
           (S754_infinity false, Float.of_Z 0) (coords point_a)).
  - reflexivity.
  - reflexivity.
  - reflexivity.
  - left. reflexivity.
Defined.

(** X9. No record of [calculate_distances] holds a negative distance: each
    distance is a zero, a number whose sign bit is clear, or a NaN.  The C
    library is taken to return arc tangents with the sign of their first
    argument (C99, F.9.1.4). *)
Theorem calculate_distances_not_negative
    (M : Libm) (data : list Point) (records : list DistanceRecord) :
  (forall v w, Float.is_nan (libm_atan2 M v w) = false ->
               Float.signbit (libm_atan2 M v w) = Float.signbit v) ->
  calculate_distances M data = Return records ->
  Forall (fun r => not_negative (distance r) = true) records.
Proof.
  intros Hsign H. rewrite calculate_distances_loop_pairs in H.
  apply mapM_Return in H.
  induction H as [|ij r pairs records Hr _ IH]; constructor; [|exact IH].
  apply distance_record_Return in Hr as (pi & pj & d & _ & _ & Hd & ->).
  simpl. eapply haversine_distance_not_negative; eassumption.
Qed.

Lemma calculate_distances_not_negative_witness :
  exists records,
    calculate_distances series_libm [point_a; point_b; point_c] = Return records /\
    Forall (fun r => not_negative (distance r) = true) records.
Proof.
  eexists. split; [vm_compute; reflexivity|].
  apply (calculate_distances_not_negative series_libm [point_a; point_b; point_c]).
  - exact series_libm_atan2_sign.
  - vm_compute. reflexivity.
Defined.

(** ** Infinite coordinates in [calculate_bearing] *)

Lemma calculate_bearing_infinite (M : Libm) (lat1 lon1 lat2 lon2 : float) :
  (forall s, libm_sin M (S754_infinity s) = S754_nan) ->
  (forall s, libm_cos M (S754_infinity s) = S754_nan) ->
  Float.is_inf lat1 = true \/ Float.is_inf lat2 = true \/
  (Float.is_inf lon1 = true /\ finite_number lon2) \/
  (finite_number lon1 /\ Float.is_inf lon2 = true) ->
  calculate_bearing M (lat1, lon1) (lat2, lon2) = Raise ValueError.
Proof.
  intros Hsin Hcos Hinf.
  assert (Hsraise : forall s, sin M (S754_infinity s) = Raise ValueError).
  { intros s. unfold sin, math_1. rewrite Hsin. reflexivity. }
  assert (Hcraise : forall s, cos M (S754_infinity s) = Raise ValueError).
  { intros s. unfold cos, math_1. rewrite Hcos. reflexivity. }
  unfold calculate_bearing. cbn [fst snd].
  destruct Hinf as [H|[H|[[H Hf]|[Hf H]]]].
  - apply radians_is_inf in H as [s ->].
    destruct (sin M _) as [sd|e] eqn:Hsd;
      [|apply math_1_Raise in Hsd; subst e; reflexivity].
    cbn [rbind].
    destruct (cos M (radians lat2)) as [c2|e] eqn:Hc2;
      [|apply math_1_Raise in Hc2; subst e; reflexivity].
    cbn [rbind]. rewrite Hcraise. reflexivity.
  - apply radians_is_inf in H as [s ->].
    destruct (sin M _) as [sd|e] eqn:Hsd;
      [|apply math_1_Raise in Hsd; subst e; reflexivity].
    cbn [rbind]. rewrite Hcraise. reflexivity.
  - apply radians_is_inf in H as [s ->].
    pose proof (radians_bounded lon2 Hf) as Hb.
    destruct (radians lon2) as [s2| | |s2 m2 e2]; simpl in Hb; try tauto;
      cbn [Float.sub SFsub]; rewrite Hsraise; reflexivity.
  - apply radians_is_inf in H as [s ->].
    pose proof (radians_bounded lon1 Hf) as Hb.
    destruct (radians lon1) as [s1| | |s1 m1 e1]; simpl in Hb; try tauto;
      cbn [Float.sub SFsub]; rewrite Hsraise; reflexivity.
Qed.

(** X10. An infinite coordinate makes [calculate_bearing] raise
    [ValueError]: an infinite latitude always does, and an infinite
    longitude does when the other longitude is finite.  The C library is
    taken to return a NaN for the sine and the cosine of an infinity (C99,
    F.9.1). *)
Theorem calculate_bearing_infinite_raises (M : Libm) (coord1 coord2 : coord) :
  (forall s, libm_sin M (S754_infinity s) = S754_nan) ->
  (forall s, libm_cos M (S754_infinity s) = S754_nan) ->
  Float.is_inf (fst coord1) = true \/ Float.is_inf (fst coord2) = true \/
  (Float.is_inf (snd coord1) = true /\ finite_number (snd coord2)) \/
  (finite_number (snd coord1) /\ Float.is_inf (snd coord2) = true) ->
  calculate_bearing M coord1 coord2 = Raise ValueError.
Proof.
  destruct coord1 as [lat1 lon1], coord2 as [lat2 lon2].
  apply calculate_bearing_infinite.
Qed.

Lemma calculate_bearing_infinite_raises_witness :
  calculate_bearing series_libm (coords point_a) (Float.of_Z 0, S754_infinity true)
    = Raise ValueError.
Proof.
  apply (calculate_bearing_infinite_raises series_libm
           (coords point_a) (Float.of_Z 0, S754_infinity true)).
  - reflexivity.
  - reflexivity.
  - right. right. right. split; [split; reflexivity | reflexivity].
Defined.

(** ** More on the clusters of [find_clusters] *)

Section SameCoordinates.

Context (M : Libm) (data : list Point) (radius : float).

Lemma close_same_coordinates (s j j' : nat) (q q' : Point) :
  data !! j = Some q -> data !! j' = Some q' -> coords q = coords q' ->
  close M data radius s j -> close M data radius s j'.
Proof.
  intros Hq Hq' Heq (ps & pj & d & Hps & Hpj & Hd & Hle).
  exists ps, q', d. rewrite Hq in Hpj. injection Hpj as <-.
  rewrite <- Heq. auto.
Qed.

Lemma cluster_at_same_coordinates (before ic : list nat) (i j : nat) (p q : Point) :
  data !! i = Some p -> data !! j = Some q -> coords p = coords q ->
  close M data radius i j ->
  cluster_at M data radius before ic ->
  i ∉ before -> j ∉ before -> i ∈ ic -> j ∈ ic.
Proof.
  intros Hp Hq Heq Hij (s & js & -> & Hs & _ & _ & Hjs & Hall) Hi Hj Hin.
  assert (Hlt : j < length data) by (eapply lookup_lt_Some; exact Hq).
  destruct (decide (j = s)) as [->|Hjs']; [left|].
  right. apply Hall; try assumption.
  apply elem_of_cons in Hin as [->|Hin]; [exact Hij|].
  rewrite Forall_forall in Hjs. destruct (Hjs i Hin) as [_ Hc].
  eapply close_same_coordinates; [exact Hp | exact Hq | exact Heq | exact Hc].
Qed.

Lemma greedy_same_coordinates (before : list nat) (ics : list (list nat))
    (i j : nat) (p q : Point) :
  data !! i = Some p -> data !! j = Some q -> coords p = coords q ->
  close M data radius i j -> close M data radius j i ->
  greedy M data radius before ics ->
  i ∉ before -> j ∉ before -> i ∈ concat ics ->
  exists ic, ic ∈ ics /\ i ∈ ic /\ j ∈ ic.
Proof.
  intros Hp Hq Heq Hij Hji. revert before.
  induction ics as [|ic rest IH]; intros before Hg Hi Hj Hin.
  - simpl in Hin. inversion Hin.
  - destruct Hg as [Hc Hg]. simpl in Hin.
    destruct (decide (i ∈ ic)) as [Hiic|Hiic].
    + exists ic. split; [apply list_elem_of_here|]. split; [exact Hiic|].
      exact (cluster_at_same_coordinates before ic i j p q Hp Hq Heq Hij Hc Hi Hj Hiic).
    + destruct (decide (j ∈ ic)) as [Hjic|Hjic].
      * exfalso. apply Hiic.
        exact (cluster_at_same_coordinates before ic j i q p Hq Hp (eq_sym Heq)
                 Hji Hc Hj Hi Hjic).
      * apply elem_of_app in Hin as [Hin|Hin]; [contradiction|].
        destruct (IH (before ++ ic) Hg) as (ic' & Hic' & H1 & H2);
          [rewrite elem_of_app; tauto | rewrite elem_of_app; tauto | exact Hin |].
        exists ic'. split; [apply list_elem_of_further; exact Hic' | auto].
Qed.

End SameCoordinates.

(** X11. Points with the same coordinates are never split between two
    clusters: when the distance from a point to itself is within the radius
    (it is 0.0 for finite coordinates, so this holds for every radius from
    zero on), two rows that hold the same pair of coordinates end up in
    the same cluster of [find_clusters].  The clusters are read through
    their dataset indices, each index in exactly one cluster. *)
Theorem find_clusters_same_coordinates
    (M : Libm) (data : list Point) (radius : float) (clusters : list (list Point))
    (i j : nat) (p q : Point) (d : float) :
  find_clusters M data radius = Return clusters ->
  data !! i = Some p -> data !! j = Some q -> coords p = coords q ->
  haversine_distance M (coords p) (coords p) = Return d ->
  Float.leb d radius = true ->
  exists ics ic,
    Forall2 (points_at data) ics clusters /\
    concat ics ≡ₚ seq 0 (length data) /\
    ic ∈ ics /\ i ∈ ic /\ j ∈ ic.
Proof.
  intros Hfc Hp Hq Heq Hd Hle.
  destruct (find_clusters_spec M data radius clusters Hfc) as (ics & Hpts & Hg & Hcover).
  assert (Hij : close M data radius i j).
  { exists p, q, d. rewrite <- Heq. auto. }
  assert (Hji : close M data radius j i).
  { exists q, p, d. rewrite <- Heq. auto. }
  destruct (greedy_same_coordinates M data radius [] ics i j p q Hp Hq Heq Hij Hji Hg)
    as (ic & Hic & H1 & H2).
  - apply not_elem_of_nil.
  - apply not_elem_of_nil.
  - apply Hcover. eapply lookup_lt_Some. exact Hp.
  - exists ics, ic. split; [exact Hpts|].
    split; [exact (greedy_cover_Permutation M data radius ics clusters Hpts Hg Hcover)|].
    auto.
Qed.

Lemma find_clusters_same_coordinates_witness :
  exists ics ic,
    Forall2 (points_at [point_a; point_b; point_c]) ics [[point_a; point_c]; [point_b]] /\
    concat ics ≡ₚ seq 0 3 /\
    ic ∈ ics /\ 0 ∈ ic /\ 2 ∈ ic.
Proof.
  apply (find_clusters_same_coordinates series_libm [point_a; point_b; point_c]
           (Float.of_Z 10) [[point_a; point_c]; [point_b]] 0 2 point_a point_c
           (S754_zero false)); vm_compute; reflexivity.
Defined.

(** The inner loop of the first seed, when every other point is within the
    radius of it. *)
Lemma inner_loop_all (M : Libm) (p0 : Point) (rest : list Point) (radius : float) :
  (forall q, q ∈ rest ->
     exists d, haversine_distance M (coords p0) (coords q) = Return d /\
               Float.leb d radius = true) ->
  exists vis,
    for_each (enumerate (p0 :: rest)) (inner_body M radius p0) ([], ∅ ∪ {[ 0 ]})
      = Return (rest, vis) /\
    forall k, k < length (p0 :: rest) -> k ∈ vis.
Proof.
  intros Hd.
  pose (Inv := fun (pre : list (nat * Point)) (st : list Point * gset nat) =>
    fst st = map snd (tail pre) /\
    forall k, k ∈ snd st <-> k = 0 \/ k < length pre).
  destruct (for_each_total (inner_body M radius p0) Inv (enumerate (p0 :: rest))
              ([], ∅ ∪ {[ 0 ]})) as ([cluster vis] & Hrun & Hc & Hvis).
  - split; [reflexivity|]. intros k. cbn [snd length].
    rewrite elem_of_union, elem_of_singleton.
    split; [intros [H0|H0]; [set_solver | auto] | intros [H0|H0]; [auto | lia]].
  - intros pre [j pj] post [cluster vis] Hsplit [Hc Hvis].
    apply enumerate_split in Hsplit as [Hj Hpj]. simpl in Hc, Hvis.
    unfold inner_body.
    destruct (decide (j ∈ vis)) as [Hin|Hnin].
    + eexists. split; [reflexivity|].
      apply Hvis in Hin as [Hin|Hin]; [|lia].
      assert (pre = []) as -> by (destruct pre; [reflexivity | simpl in *; lia]).
      split; [exact Hc|]. intros k. simpl. rewrite Hvis. simpl. lia.
    + assert (Hj0 : j <> 0) by (intros ->; apply Hnin, Hvis; auto).
      destruct j as [|j']; [congruence|]. simpl in Hpj.
      destruct (Hd pj) as (d & Hdist & Hle);
        [eapply list_elem_of_lookup_2; exact Hpj|].
      unfold coords in Hdist. rewrite Hdist. cbn [rbind]. rewrite Hle.
      eexists. split; [reflexivity|]. split; simpl.
      * destruct pre as [|a pre']; [simpl in Hj; lia|].
        simpl. rewrite map_app, Hc. reflexivity.
      * intros k. rewrite length_app, elem_of_union, elem_of_singleton, Hvis.
        simpl. lia.
  - exists vis. cbn [fst snd] in Hc, Hvis. split.
    + rewrite Hrun. f_equal. f_equal. rewrite Hc.
      change (tail (enumerate (p0 :: rest))) with (zip (seq 1 (length rest)) rest).
      change (map snd) with (fmap (M:=list) (@snd nat Point)).
      apply snd_zip. rewrite length_seq. lia.
    + intros k Hk. apply Hvis. right. rewrite enumerate_length. exact Hk.
Qed.

(** X12. When every point is within the radius of the first one,
    [find_clusters] returns one cluster, the dataset itself in its order;
    only the distances from the first point are computed (the radius
    [float('inf')] gives this on every dataset whose distances from the first
    point are numbers). *)
Theorem find_clusters_one_cluster
    (M : Libm) (p0 : Point) (rest : list Point) (radius : float) :
  (forall q, q ∈ rest ->
     exists d, haversine_distance M (coords p0) (coords q) = Return d /\
               Float.leb d radius = true) ->
  find_clusters M (p0 :: rest) radius = Return [p0 :: rest].
Proof.
  intros Hd. rewrite find_clusters_unfold.
  destruct (inner_loop_all M p0 rest radius Hd) as (vis0 & Hinner & Hvis0).
  pose (Inv := fun (pre : list (nat * Point)) (st : list (list Point) * gset nat) =>
    match pre with
    | [] => fst st = [] /\ forall k, k ∉ snd st
    | _ => fst st = [p0 :: rest] /\
           forall k, k < length (p0 :: rest) -> k ∈ snd st
    end).
  destruct (for_each_total (outer_body M (p0 :: rest) radius) Inv
              (enumerate (p0 :: rest)) ([], ∅)) as ([cs vis] & -> & HInv).
  - split; [reflexivity|]. intros k. simpl. set_solver.
  - intros pre [i point] post [cs vis] Hsplit HI.
    pose proof Hsplit as Hsplit'.
    apply enumerate_split in Hsplit' as [Hi Hpi].
    unfold outer_body. destruct pre as [|a pre'].
    + simpl in HI, Hi. destruct HI as [-> Hvis]. subst i.
      simpl in Hpi. injection Hpi as <-.
      destruct (decide (0 ∈ vis)) as [Hin|_]; [destruct (Hvis 0 Hin)|].
      assert (vis = ∅) as -> by (apply set_eq; intros k; split;
        [intros Hk; destruct (Hvis k Hk) | set_solver]).
      rewrite Hinner. cbn [rbind]. eexists. split; [reflexivity|].
      split; [reflexivity | exact Hvis0].
    + simpl in HI. destruct HI as [-> Hvis].
      assert (Hlt : i < length (p0 :: rest))
        by (eapply lookup_lt_Some; exact Hpi).
      destruct (decide (i ∈ vis)) as [_|Hnin]; [|destruct (Hnin (Hvis i Hlt))].
      eexists. split; [reflexivity|]. simpl. split; [reflexivity | exact Hvis].
  - simpl. unfold enumerate in HInv. simpl in HInv. destruct HInv as [-> _].
    reflexivity.
Qed.

Lemma find_clusters_one_cluster_witness :
  find_clusters series_libm [point_a; point_c; point_a] (Float.of_Z 10)
    = Return [[point_a; point_c; point_a]].
Proof.
  apply (find_clusters_one_cluster series_libm point_a [point_c; point_a] (Float.of_Z 10)).
  intros q Hq. exists (S754_zero false).
  apply elem_of_cons in Hq as [->|Hq]; [split; vm_compute; reflexivity|].
  apply elem_of_cons in Hq as [->|Hq]; [split; vm_compute; reflexivity|].
  inversion Hq.
Defined.

(** * Strings *)

Lemma startswith_spec (s sub : string) :
  Str.startswith s sub = true <-> exists post, s = sub +:+ post.
Proof.
  revert s. induction sub as [|a sub IH]; intros s; simpl.
  - split; [intros _; exists s; reflexivity | reflexivity].
  - destruct s as [|c s]; [split; [discriminate | intros [post [=]]]|].
    rewrite andb_true_iff, IH. split.
    + intros [Hac [post ->]]. apply Ascii.eqb_eq in Hac as ->. eauto.
    + intros [post [= -> ->]]. split; [apply Ascii.eqb_refl | eauto].
Qed.

Lemma contains_spec (s sub : string) :
  Str.contains s sub = true <-> exists pre post, s = pre +:+ sub +:+ post.
Proof.
  induction s as [|c s IH]; simpl.
  - rewrite orb_false_r, startswith_spec. split.
    + intros [post H]. exists EmptyString, post. exact H.
    + intros ([|? pre] & post & H); [eauto | discriminate].
  - rewrite orb_true_iff, startswith_spec, IH. split.
    + intros [[post H]|(pre & post & ->)].
      * exists EmptyString, post. exact H.
      * exists (String c pre), post. reflexivity.
    + intros ([|c' pre] & post & H).
      * left. eauto.
      * right. injection H as -> ->. eauto.
Qed.

Lemma append_assoc (a b c : string) : (a +:+ b) +:+ c = a +:+ b +:+ c.
Proof.
  induction a as [|x a IH]; [reflexivity|].
  change (String x ((a +:+ b) +:+ c) = String x (a +:+ b +:+ c)).
  rewrite IH. reflexivity.
Qed.

Lemma contains_trans (a b c : string) :
  Str.contains a b = true -> Str.contains b c = true -> Str.contains a c = true.
Proof.
  rewrite !contains_spec. intros (p1 & q1 & ->) (p2 & q2 & ->).
  exists (p1 +:+ p2), (q2 +:+ q1). rewrite !append_assoc. reflexivity.
Qed.

Lemma contains_empty (s : string) : Str.contains s EmptyString = true.
Proof. destruct s; reflexivity. Qed.

Lemma lower_char_idemp (c : ascii) :
  Str.lower_char (Str.lower_char c) = Str.lower_char c.
Proof. destruct c as [[] [] [] [] [] [] [] []]; reflexivity. Qed.

Lemma lower_idemp (s : string) : Str.lower (Str.lower s) = Str.lower s.
Proof.
  induction s as [|c s IH]; simpl; [reflexivity|].
  rewrite lower_char_idemp, IH. reflexivity.
Qed.

(** ** [filter_data] *)

Lemma filter_filter_absorb {A} (f g : A -> bool) (l : list A) :
  (forall a, g a = true -> f a = true) ->
  List.filter g (List.filter f l) = List.filter g l /\
  List.filter f (List.filter g l) = List.filter g l.
Proof.
  intros Himp. induction l as [|a l [IH1 IH2]]; [split; reflexivity|].
  simpl. destruct (g a) eqn:Hg.
  - rewrite (Himp a Hg). simpl. rewrite Hg, (Himp a Hg), IH1, IH2. auto.
  - destruct (f a); simpl; rewrite ?Hg, IH1, IH2; auto.
Qed.

(** X13. A keyword that holds another one selects fewer rows: when
    [keyword1] occurs in [keyword2] (letter case apart), filtering by both,
    in either order, is filtering by [keyword2]. *)
Theorem filter_data_narrow (data : list Point) (keyword1 keyword2 : string) :
  Str.contains (Str.lower keyword2) (Str.lower keyword1) = true ->
  filter_data (filter_data data keyword1) keyword2 = filter_data data keyword2 /\
  filter_data (filter_data data keyword2) keyword1 = filter_data data keyword2.
Proof.
  intros H. unfold filter_data. apply filter_filter_absorb.
  intros row Hrow. eapply contains_trans; eassumption.
Qed.

Lemma filter_data_narrow_witness :
  filter_data (filter_data [point_a; point_b; point_c] "a") "A"
    = filter_data [point_a; point_b; point_c] "A" /\
  filter_data (filter_data [point_a; point_b; point_c] "A") "a"
    = filter_data [point_a; point_b; point_c] "A".
Proof.
  apply (filter_data_narrow [point_a; point_b; point_c] "a" "A"). reflexivity.
Defined.

(** X14. [filter_data] does not read the letter case of the keyword, and the
    empty keyword selects every row. *)
Theorem filter_data_keyword_case (data : list Point) (keyword : string) :
  filter_data data (Str.lower keyword) = filter_data data keyword /\
  filter_data data "" = data.
Proof.
  unfold filter_data. split.
  - rewrite lower_idemp. reflexivity.
  - apply forallb_filter_id, forallb_forall. intros row _.
    apply contains_empty.
Qed.

(** ** [clean_data] *)

Section CleanData.

Context (float_of_str : string -> option float).

Local Abbreviation clean_body :=
  (fun '(cleaned_data, seen) (row : Row) =>
        match (let* x := to_float float_of_str (row !!! "x") in
               let* y := to_float float_of_str (row !!! "y") in
               Return (x, y)) with
        | Return key =>
            if negb (seen_has seen key)
            then Return (cleaned_data ++ [mkPoint (fst key) (snd key) (row !!! "comment")],
                         seen ++ [key])
            else Return (cleaned_data, seen)
        | Raise ValueError => Return (cleaned_data, seen)
        | Raise e => Raise e
        end).

Lemma clean_body_parse_row (row : Row) (cleaned : list Point) (seen : list coord) :
  clean_body (cleaned, seen) row =
  Return match parse_row float_of_str row with
         | Some p =>
             if seen_has seen (coords p) then (cleaned, seen)
             else (cleaned ++ [p], seen ++ [coords p])
         | None => (cleaned, seen)
         end.
Proof.
  unfold parse_row, to_float.
  destruct (float_of_str (row !!! "x")) as [a|]; cbn [rbind]; [|reflexivity].
  destruct (float_of_str (row !!! "y")) as [b|]; cbn [rbind]; [|reflexivity].
  unfold coords. cbn [x y fst snd]. destruct (seen_has seen (a, b)); reflexivity.
Qed.

Lemma clean_data_loop (data : list Row) (cleaned : list Point) (seen : list coord) :
  for_each data clean_body (cleaned, seen)
  = Return (cleaned ++ first_of_key seen (omap (parse_row float_of_str) data),
            seen ++ map coords (first_of_key seen (omap (parse_row float_of_str) data))).
Proof.
  revert cleaned seen. induction data as [|row data IH]; intros cleaned seen.
  - simpl. rewrite !app_nil_r. reflexivity.
  - assert (Hrow : omap (parse_row float_of_str) (row :: data) =
                  match parse_row float_of_str row with
                  | Some p => p :: omap (parse_row float_of_str) data
                  | None => omap (parse_row float_of_str) data
                  end) by reflexivity.
    rewrite Hrow. clear Hrow. cbn [for_each].
    rewrite clean_body_parse_row. cbn [rbind].
    destruct (parse_row float_of_str row) as [p|]; [|apply IH].
    cbn [first_of_key]. destruct (seen_has seen (coords p)); [apply IH|].
    rewrite IH. cbn [map]. rewrite <- !app_assoc. reflexivity.
Qed.

Lemma clean_data_first_of_key (data : list Row) :
  forallb has_columns data = true ->
  clean_data float_of_str data
  = Return (first_of_key [] (omap (parse_row float_of_str) data)).
Proof.
  intros H. unfold clean_data. rewrite H. cbn [negb].
  rewrite clean_data_loop. reflexivity.
Qed.

End CleanData.

Lemma Float_eqb_sym (a b : float) : Float.eqb a b = Float.eqb b a.
Proof.
  destruct (Float.eqb a b) eqn:H1, (Float.eqb b a) eqn:H2; try reflexivity;
    exfalso; revert H1 H2; unfold Float.eqb, SFeqb;
    destruct a as [sa|sa| |sa ma ea], b as [sb|sb| |sb mb eb];
    simpl; intros; float_order.
Qed.

Lemma same_key_sym (k k' : coord) : same_key k k' = same_key k' k.
Proof.
  unfold same_key. rewrite (Float_eqb_sym (fst k)), (Float_eqb_sym (snd k)).
  reflexivity.
Qed.

Lemma seen_has_false (seen : list coord) (key : coord) :
  seen_has seen key = false <-> Forall (fun k => same_key key k = false) seen.
Proof.
  unfold seen_has. induction seen as [|k seen IH]; simpl.
  - split; [constructor | reflexivity].
  - rewrite orb_false_iff, IH. split.
    + intros [H1 H2]. constructor; assumption.
    + intros H. inversion H; subst. auto.
Qed.

Lemma sublist_StronglySorted {A} (R : A -> A -> Prop) (l1 l2 : list A) :
  l1 `sublist_of` l2 -> StronglySorted R l2 -> StronglySorted R l1.
Proof.
  induction 1 as [|a l1 l2 Hsub IH|a l1 l2 Hsub IH]; intros Hs.
  - constructor.
  - apply StronglySorted_inv in Hs as [Hs Hall]. constructor; [auto|].
    rewrite Forall_forall in *. intros b Hb. apply Hall.
    eapply elem_of_sublist; eassumption.
  - apply StronglySorted_inv in Hs as [Hs _]. auto.
Qed.

Lemma filter_sublist {A} (f : A -> bool) (l : list A) : List.filter f l `sublist_of` l.
Proof.
  induction l as [|a l IH]; simpl; [constructor|].
  destruct (f a); [apply sublist_skip | apply sublist_cons]; exact IH.
Qed.

Lemma first_of_key_distinct (seen : list coord) (rows : list Point) :
  Forall (fun p => seen_has seen (coords p) = false) (first_of_key seen rows) /\
  distinct_coordinates (first_of_key seen rows).
Proof.
  revert seen. induction rows as [|p rows IH]; intros seen; simpl.
  - split; constructor.
  - destruct (seen_has seen (coords p)) eqn:Hp; [apply IH|].
    destruct (IH (seen ++ [coords p])) as [Hall Hd].
    assert (Hall' : Forall (fun q => seen_has seen (coords q) = false /\
                                     same_key (coords p) (coords q) = false)
                           (first_of_key (seen ++ [coords p]) rows)).
    { eapply Forall_impl; [exact Hall|]. intros q Hq. simpl in Hq.
      unfold seen_has in Hq. rewrite existsb_app, orb_false_iff in Hq.
      destruct Hq as [H1 H2]. simpl in H2. rewrite orb_false_r in H2.
      split; [exact H1|]. rewrite same_key_sym. exact H2. }
    split.
    + constructor; [exact Hp|]. eapply Forall_impl; [exact Hall'|]. simpl. tauto.
    + constructor; [exact Hd|]. eapply Forall_impl; [exact Hall'|]. simpl. tauto.
Qed.

Lemma first_of_key_sublist (seen : list coord) (rows : list Point) :
  first_of_key seen rows `sublist_of` rows.
Proof.
  revert seen. induction rows as [|p rows IH]; intros seen; simpl; [constructor|].
  destruct (seen_has seen (coords p)); [apply sublist_cons | apply sublist_skip];
    apply IH.
Qed.

Lemma seen_has_true (seen : list coord) (key : coord) :
  seen_has seen key = true <-> exists k, k ∈ seen /\ same_key key k = true.
Proof.
  unfold seen_has. rewrite existsb_exists. split.
  - intros (k & Hk & H). exists k. split; [apply list_elem_of_In, Hk | exact H].
  - intros (k & Hk & H). exists k. split; [apply list_elem_of_In, Hk | exact H].
Qed.

Lemma first_of_key_cover (seen : list coord) (rows : list Point) (p : Point) :
  p ∈ rows ->
  seen_has seen (coords p) = true \/
  p ∈ first_of_key seen rows \/
  exists q, q ∈ first_of_key seen rows /\ same_key (coords p) (coords q) = true.
Proof.
  revert seen. induction rows as [|p0 rows IH]; intros seen Hp; [inversion Hp|].
  simpl. apply elem_of_cons in Hp as [->|Hp].
  - destruct (seen_has seen (coords p0)) eqn:H0; [auto|].
    right. left. left.
  - destruct (seen_has seen (coords p0)) eqn:H0; [apply IH, Hp|].
    destruct (IH (seen ++ [coords p0]) Hp) as [H|[H|(q & Hq & H)]].
    + unfold seen_has in H. rewrite existsb_app, orb_true_iff in H.
      destruct H as [H|H]; [left; exact H|].
      simpl in H. rewrite orb_false_r in H.
      right. right. exists p0. split; [left | exact H].
    + right. left. right. exact H.
    + right. right. exists q. split; [right; exact Hq | exact H].
Qed.

Lemma first_of_key_id (seen : list coord) (rows : list Point) :
  Forall (fun p => seen_has seen (coords p) = false) rows ->
  distinct_coordinates rows ->
  first_of_key seen rows = rows.
Proof.
  revert seen. induction rows as [|p rows IH]; intros seen Hall Hd; [reflexivity|].
  simpl. apply Forall_cons in Hall as [Hp Hall].
  apply StronglySorted_inv in Hd as [Hd Hpd].
  rewrite Hp. f_equal. apply IH; [|exact Hd].
  rewrite Forall_forall in *. intros q Hq.
  unfold seen_has. rewrite existsb_app, orb_false_iff. split; [apply Hall, Hq|].
  simpl. rewrite orb_false_r, same_key_sym. apply Hpd, Hq.
Qed.

Example clean_data_rows :
  clean_data digits_float [row_reef; row_unread; row_wreck; row_reef_again]
  = Return [mkPoint (Float.of_Z 25) (Float.of_Z 80) "  blue crab reef ";
            mkPoint (Float.of_Z 27) (Float.of_Z 82) "Wreck"] /\
  clean_data digits_float [row_reef; row_short] = Raise ValueError.
Proof. split; vm_compute; reflexivity. Qed.

Lemma omap_length_le {A B} (f : A -> option B) (l : list A) :
  length (omap f l) <= length l.
Proof.
  induction l as [|a l IH]; [reflexivity|].
  change (omap f (a :: l))
    with (match f a with Some b => b :: omap f l | None => omap f l end).
  destruct (f a); simpl; lia.
Qed.

Lemma first_of_key_app (seen : list coord) (rows1 rows2 : list Point) :
  first_of_key seen (rows1 ++ rows2) =
  first_of_key seen rows1 ++
  first_of_key (seen ++ map coords (first_of_key seen rows1)) rows2.
Proof.
  revert seen. induction rows1 as [|p rows1 IH]; intros seen; simpl.
  - rewrite app_nil_r. reflexivity.
  - destruct (seen_has seen (coords p)); [apply IH|].
    simpl. rewrite IH, <- app_assoc. reflexivity.
Qed.

(** X15. [clean_data] checks the columns of every row before it reads any
    coordinate: when some row, wherever it is in the dataset, lacks one of
    the keys ['x'], ['y'] and ['comment'], it raises [ValueError] and returns
    no part of the dataset; and when it returns, every row it was given has
    the three keys and it returns at most as many rows as it was given. *)
Theorem clean_data_columns (float_of_str : string -> option float) (data : list Row) :
  (Exists (fun row => has_columns row = false) data ->
   clean_data float_of_str data = Raise ValueError) /\
  (forall cleaned_data,
     clean_data float_of_str data = Return cleaned_data ->
     Forall (fun row => has_columns row = true) data /\
     length cleaned_data <= length data).
Proof.
  destruct (forallb has_columns data) eqn:H.
  - split.
    + intros Hex. apply Exists_exists in Hex as (row & Hrow & Hcol).
      rewrite forallb_forall in H. apply list_elem_of_In in Hrow.
      rewrite (H row Hrow) in Hcol. discriminate.
    + intros cleaned_data Hret.
      rewrite (clean_data_first_of_key _ _ H) in Hret. injection Hret as <-.
      split.
      * apply Forall_forall. intros row Hrow.
        rewrite forallb_forall in H. apply H, list_elem_of_In, Hrow.
      * pose proof (sublist_length _ _
                      (first_of_key_sublist [] (omap (parse_row float_of_str) data))).
        pose proof (omap_length_le (parse_row float_of_str) data). lia.
  - unfold clean_data. rewrite H. split; [reflexivity | discriminate].
Qed.

(** X16. The rows [clean_data] returns have pairwise different coordinates
    (as floats compare: 0.0 and -0.0 are equal, a NaN is equal to nothing),
    and so have the rows [filter_data] selects from them. *)
Theorem clean_data_distinct
    (float_of_str : string -> option float) (data : list Row)
    (cleaned_data : list Point) :
  clean_data float_of_str data = Return cleaned_data ->
  distinct_coordinates cleaned_data /\
  forall keyword, distinct_coordinates (filter_data cleaned_data keyword).
Proof.
  intros H.
  assert (Hd : distinct_coordinates cleaned_data).
  { destruct (forallb has_columns data) eqn:Hc.
    - rewrite (clean_data_first_of_key _ _ Hc) in H. injection H as <-.
      apply first_of_key_distinct.
    - unfold clean_data in H. rewrite Hc in H. discriminate. }
  split; [exact Hd|]. intros keyword.
  eapply sublist_StronglySorted; [apply filter_sublist | exact Hd].
Qed.

Lemma clean_data_distinct_witness :
  distinct_coordinates
    [mkPoint (Float.of_Z 25) (Float.of_Z 80) "  blue crab reef ";
     mkPoint (Float.of_Z 27) (Float.of_Z 82) "Wreck"] /\
  forall keyword,
    distinct_coordinates
      (filter_data [mkPoint (Float.of_Z 25) (Float.of_Z 80) "  blue crab reef ";
                    mkPoint (Float.of_Z 27) (Float.of_Z 82) "Wreck"] keyword).
Proof.
  apply (clean_data_distinct digits_float
           [row_reef; row_unread; row_wreck; row_reef_again]).
  vm_compute. reflexivity.
Defined.

(** X17. [clean_data] keeps the first row of each pair of coordinates, in
    the order of the dataset: the rows it returns are rows of the dataset
    read as floats, in their order; a row that reads as floats and whose
    coordinates no earlier row has is returned; and every row that reads as
    floats is returned or has the coordinates of a returned row. *)
Theorem clean_data_keeps_first
    (float_of_str : string -> option float) (data : list Row)
    (cleaned_data : list Point) :
  clean_data float_of_str data = Return cleaned_data ->
  cleaned_data `sublist_of` omap (parse_row float_of_str) data /\
  (forall pre row post p,
      data = pre ++ row :: post ->
      parse_row float_of_str row = Some p ->
      Forall (fun r => forall q, parse_row float_of_str r = Some q ->
                                 same_key (coords p) (coords q) = false) pre ->
      p ∈ cleaned_data) /\
  (forall row p,
      row ∈ data -> parse_row float_of_str row = Some p ->
      p ∈ cleaned_data \/
      exists q, q ∈ cleaned_data /\ same_key (coords p) (coords q) = true).
Proof.
  intros H.
  destruct (forallb has_columns data) eqn:Hc;
    [|unfold clean_data in H; rewrite Hc in H; discriminate].
  rewrite (clean_data_first_of_key _ _ Hc) in H. injection H as <-.
  split; [apply first_of_key_sublist|]. split.
  - intros pre row post p -> Hp Hpre.
    rewrite omap_app. cbn [omap list_omap]. rewrite Hp.
    rewrite first_of_key_app. apply elem_of_app. right.
    cbn [first_of_key app].
    destruct (seen_has _ (coords p)) eqn:Hs; [|left].
    exfalso. apply seen_has_true in Hs as (k & Hk & Hs).
    apply list_elem_of_In, in_map_iff in Hk as (q & <- & Hq).
    apply list_elem_of_In in Hq.
    pose proof (elem_of_sublist _ _ _ Hq (first_of_key_sublist _ _)) as Hq'.
    apply list_elem_of_omap in Hq' as (r & Hr & Hrq).
    rewrite Forall_forall in Hpre. rewrite (Hpre r Hr q Hrq) in Hs. discriminate.
  - intros row p Hrow Hp.
    destruct (first_of_key_cover [] (omap (parse_row float_of_str) data) p)
      as [Hs|[Hin|Hq]]; [|discriminate Hs|left; exact Hin|right; exact Hq].
    apply list_elem_of_omap. exists row. auto.
Qed.

Lemma clean_data_keeps_first_witness :
  mkPoint (Float.of_Z 27) (Float.of_Z 82) "Wreck"
    ∈ [mkPoint (Float.of_Z 25) (Float.of_Z 80) "  blue crab reef ";
       mkPoint (Float.of_Z 27) (Float.of_Z 82) "Wreck"].
Proof.
  refine (proj1 (proj2 (clean_data_keeps_first digits_float
           [row_reef; row_unread; row_wreck; row_reef_again] _ _))
           [row_reef; row_unread] row_wreck [row_reef_again] _ _ _ _).
  - vm_compute. reflexivity.
  - reflexivity.
  - vm_compute. reflexivity.
  - repeat constructor; intros q Hq; vm_compute in Hq;
      [injection Hq as <-; vm_compute; reflexivity | discriminate].
Defined.

(** X18. [clean_data] changes nothing but the type of the coordinates of a
    dataset that is clean already: when every row has the three keys and
    reads as floats with coordinates no other row has, the rows returned are
    all the rows, read as floats. *)
Theorem clean_data_clean
    (float_of_str : string -> option float) (data : list Row) (rows : list Point) :
  Forall (fun row => has_columns row = true) data ->
  Forall2 (fun row p => parse_row float_of_str row = Some p) data rows ->
  distinct_coordinates rows ->
  clean_data float_of_str data = Return rows.
Proof.
  intros Hc Hrows Hd.
  assert (Hc' : forallb has_columns data = true).
  { apply forallb_forall. intros row Hrow. rewrite Forall_forall in Hc.
    apply Hc, list_elem_of_In, Hrow. }
  rewrite (clean_data_first_of_key _ _ Hc'). f_equal.
  assert (Ho : omap (parse_row float_of_str) data = rows).
  { clear Hc Hc' Hd. induction Hrows as [|row p data rows Hp _ IH]; [reflexivity|].
    cbn [omap list_omap]. rewrite Hp, IH. reflexivity. }
  rewrite Ho. apply first_of_key_id; [|exact Hd].
  apply Forall_forall. intros p _. reflexivity.
Qed.

Lemma clean_data_clean_witness :
  clean_data digits_float [row_reef; row_wreck]
  = Return [mkPoint (Float.of_Z 25) (Float.of_Z 80) "  blue crab reef ";
            mkPoint (Float.of_Z 27) (Float.of_Z 82) "Wreck"].
Proof.
  apply (clean_data_clean digits_float [row_reef; row_wreck]).
  - repeat constructor.
  - repeat constructor.
  - repeat constructor.
Defined.

(** ** [convert_coordinates] *)

Lemma append_cons (c : ascii) (s t : string) :
  String c s +:+ t = String c (s +:+ t).
Proof. reflexivity. Qed.

Lemma lstrip_snoc (s : string) (c : ascii) :
  Str.isspace c = false ->
  Str.lstrip (s +:+ String c "") = Str.lstrip s +:+ String c "".
Proof.
  intros Hc. induction s as [|a s IH].
  - change (EmptyString +:+ String c "") with (String c "").
    cbn [Str.lstrip]. rewrite Hc. reflexivity.
  - rewrite append_cons. cbn [Str.lstrip].
    destruct (Str.isspace a); [exact IH | reflexivity].
Qed.

Lemma rstrip_snoc (s : string) (c : ascii) :
  Str.isspace c = false ->
  Str.rstrip (s +:+ String c "") = s +:+ String c "".
Proof.
  intros Hc. induction s as [|a s IH].
  - change (EmptyString +:+ String c "") with (String c "").
    cbn [Str.rstrip]. rewrite Hc. reflexivity.
  - rewrite append_cons. cbn [Str.rstrip]. rewrite IH.
    destruct s; reflexivity.
Qed.

Lemma strip_snoc (s : string) (c : ascii) :
  Str.isspace c = false ->
  Str.strip (s +:+ String c "") = Str.lstrip s +:+ String c "".
Proof.
  intros Hc. unfold Str.strip. rewrite (lstrip_snoc _ _ Hc).
  apply rstrip_snoc, Hc.
Qed.

Lemma last_snoc (s : string) (c : ascii) : Str.last (s +:+ String c "") = Return c.
Proof.
  induction s as [|a s IH]; [reflexivity|].
  rewrite append_cons. cbn [Str.last]. rewrite IH. destruct s; reflexivity.
Qed.

Lemma but_last_snoc (s : string) (c : ascii) : Str.but_last (s +:+ String c "") = s.
Proof.
  induction s as [|a s IH]; [reflexivity|].
  rewrite append_cons. cbn [Str.but_last]. rewrite IH. destruct s; reflexivity.
Qed.

Lemma lstrip_blank (s : string) :
  forallb Str.isspace (String.list_ascii_of_string s) = true ->
  Str.lstrip s = EmptyString.
Proof.
  induction s as [|a s IH]; [reflexivity|]. simpl.
  rewrite andb_true_iff. intros [-> H]. exact (IH H).
Qed.

Lemma truediv_60 (v : float) :
  truediv v (Float.of_Z 60) = Return (Float.div v (Float.of_Z 60)).
Proof. reflexivity. Qed.

Lemma truediv_3600 (v : float) :
  truediv v (Float.of_Z 3600) = Return (Float.div v (Float.of_Z 3600)).
Proof. reflexivity. Qed.

(** X19. [convert_coordinates] reads the last character as the direction
    and does not check it: the result is the negated value for S and W and
    the value itself for any other character, be it N, E, a lower-case
    letter or a digit; the strings for which it raises [ValueError] are the
    same for every direction. *)
Theorem convert_coordinates_direction
    (float_of_str : string -> option float) (body : string) (direction : ascii) :
  Str.isspace direction = false ->
  convert_coordinates float_of_str (body +:+ String direction "") =
  let* decimal_degrees := convert_coordinates float_of_str (body +:+ "N") in
  Return (if Ascii.eqb direction "S" || Ascii.eqb direction "W"
          then Float.opp decimal_degrees
          else decimal_degrees).
Proof.
  intros Hd. unfold convert_coordinates.
  rewrite (strip_snoc body direction Hd), (strip_snoc body "N" eq_refl).
  rewrite !last_snoc, !but_last_snoc. cbn [rbind].
  destruct (Str.split _) as [|d [|m [|s [|]]]]; try reflexivity.
  unfold to_float.
  destruct (float_of_str d); cbn [rbind]; [|reflexivity].
  destruct (float_of_str m); cbn [rbind]; [|reflexivity].
  destruct (float_of_str s); cbn [rbind]; [|reflexivity].
  rewrite truediv_60, truediv_3600. cbn [rbind].
  change (Ascii.eqb "N" "S" || Ascii.eqb "N" "W") with false. cbn iota.
  destruct (Ascii.eqb direction "S" || Ascii.eqb direction "W"); reflexivity.
Qed.

Lemma convert_coordinates_direction_witness :
  convert_coordinates digits_float ("25" +:+ String "176" ("46'26" +:+ String "034" "S"))
  = Return (Float.opp (Float.add (Float.add (Float.of_Z 25)
                                    (Float.div (Float.of_Z 46) (Float.of_Z 60)))
                                 (Float.div (Float.of_Z 26) (Float.of_Z 3600)))).
Proof.
  apply (convert_coordinates_direction digits_float
           ("25" +:+ String "176" ("46'26" +:+ String "034" "")) "S").
  reflexivity.
Defined.

(** X20. A string of white space, the empty string included, is no
    coordinate: [convert_coordinates] raises [ValueError] for it. *)
Theorem convert_coordinates_blank
    (float_of_str : string -> option float) (dms : string) :
  forallb Str.isspace (String.list_ascii_of_string dms) = true ->
  convert_coordinates float_of_str dms = Raise ValueError.
Proof.
  intros H. unfold convert_coordinates, Str.strip.
  rewrite (lstrip_blank _ H). reflexivity.
Qed.

Lemma convert_coordinates_blank_witness :
  convert_coordinates digits_float "   " = Raise ValueError.
Proof. apply (convert_coordinates_blank digits_float "   "). reflexivity. Defined.

(** ** White space at the ends of a string *)

Lemma append_nil_r (s : string) : s +:+ "" = s.
Proof.
  induction s as [|c s IH]; [reflexivity|]. rewrite append_cons, IH. reflexivity.
Qed.

Lemma lstrip_app (w t : string) :
  Str.lstrip (w +:+ t) =
  match Str.lstrip w with
  | EmptyString => Str.lstrip t
  | r => r +:+ t
  end.
Proof.
  induction w as [|c w IH]; [reflexivity|].
  rewrite append_cons. cbn [Str.lstrip].
  destruct (Str.isspace c); [exact IH | reflexivity].
Qed.

Lemma rstrip_app (w t : string) :
  Str.rstrip (w +:+ t) =
  match Str.rstrip t with
  | EmptyString => Str.rstrip w
  | r => w +:+ r
  end.
Proof.
  induction w as [|c w IH].
  { change (EmptyString +:+ t) with t. destruct (Str.rstrip t); reflexivity. }
  rewrite append_cons. cbn [Str.rstrip]. rewrite IH.
  destruct (Str.rstrip t) as [|a r]; [reflexivity|].
  rewrite append_cons. destruct w; reflexivity.
Qed.

Lemma lstrip_contains (s : string) : exists pre, s = pre +:+ Str.lstrip s.
Proof.
  induction s as [|c s [pre IH]]; [exists EmptyString; reflexivity|].
  cbn [Str.lstrip]. destruct (Str.isspace c).
  - exists (String c pre). rewrite append_cons, <- IH. reflexivity.
  - exists EmptyString. reflexivity.
Qed.

Lemma rstrip_contains (s : string) : exists post, s = Str.rstrip s +:+ post.
Proof.
  induction s as [|c s [post IH]]; [exists EmptyString; reflexivity|].
  cbn [Str.rstrip]. destruct (Str.rstrip s) as [|a r].
  - destruct (Str.isspace c).
    + exists (String c s). reflexivity.
    + exists post. rewrite append_cons. simpl in IH. rewrite <- IH. reflexivity.
  - exists post. rewrite append_cons, <- IH. reflexivity.
Qed.

Lemma strip_contains (s : string) : Str.contains s (Str.strip s) = true.
Proof.
  apply contains_spec. unfold Str.strip.
  destruct (lstrip_contains s) as [pre Hpre].
  destruct (rstrip_contains (Str.lstrip s)) as [post Hpost].
  exists pre, post. rewrite <- Hpost. exact Hpre.
Qed.

(** A string that has no white space at its ends occurs in a string exactly
    when it occurs in it without the white space at its ends. *)
Lemma contains_strip (s sub : string) :
  Str.lstrip sub = sub -> Str.rstrip sub = sub ->
  Str.contains (Str.strip s) sub = Str.contains s sub.
Proof.
  intros Hl Hr. apply eq_true_iff_eq. split.
  - intros H. eapply contains_trans; [apply strip_contains | exact H].
  - destruct sub as [|a sub]; [intros _; apply contains_empty|].
    rewrite !contains_spec. intros (pre & post & ->).
    exists (Str.lstrip pre), (Str.rstrip post). unfold Str.strip.
    rewrite lstrip_app, lstrip_app, Hl.
    assert (Hlp : match Str.lstrip pre with
                  | EmptyString => String a sub +:+ post
                  | String c r => String c r +:+ String a sub +:+ post
                  end = Str.lstrip pre +:+ String a sub +:+ post)
      by (destruct (Str.lstrip pre); reflexivity).
    rewrite Hlp. clear Hlp.
    rewrite rstrip_app, rstrip_app, Hr.
    destruct (Str.rstrip post) as [|c r]; [|reflexivity].
    rewrite append_nil_r. destruct (Str.lstrip pre); reflexivity.
Qed.

(** ** Letter case *)

Ltac each_char c := destruct c as [[] [] [] [] [] [] [] []].

Lemma isspace_lower_char (c : ascii) :
  Str.isspace (Str.lower_char c) = Str.isspace c.
Proof. each_char c; reflexivity. Qed.

Lemma lower_app (s t : string) : Str.lower (s +:+ t) = Str.lower s +:+ Str.lower t.
Proof.
  induction s as [|c s IH]; [reflexivity|].
  rewrite append_cons. cbn [Str.lower]. rewrite IH. reflexivity.
Qed.

Lemma lstrip_lower (s : string) : Str.lstrip (Str.lower s) = Str.lower (Str.lstrip s).
Proof.
  induction s as [|c s IH]; [reflexivity|].
  cbn [Str.lower Str.lstrip]. rewrite isspace_lower_char.
  destruct (Str.isspace c); [exact IH | reflexivity].
Qed.

Lemma rstrip_lower (s : string) : Str.rstrip (Str.lower s) = Str.lower (Str.rstrip s).
Proof.
  induction s as [|c s IH]; [reflexivity|].
  cbn [Str.lower Str.rstrip]. rewrite IH, isspace_lower_char.
  destruct (Str.rstrip s); [destruct (Str.isspace c)|]; reflexivity.
Qed.

Lemma strip_lower (s : string) : Str.strip (Str.lower s) = Str.lower (Str.strip s).
Proof. unfold Str.strip. rewrite lstrip_lower, rstrip_lower. reflexivity. Qed.

Lemma isascii_cons (c : ascii) (s : string) :
  Str.isascii (String c s) = (Str.code c <? 128) && Str.isascii s.
Proof. reflexivity. Qed.

Lemma isascii_lstrip (s : string) :
  Str.isascii s = true -> Str.isascii (Str.lstrip s) = true.
Proof.
  induction s as [|c s IH]; [reflexivity|]. intros H. cbn [Str.lstrip].
  destruct (Str.isspace c); [|exact H].
  rewrite isascii_cons, andb_true_iff in H. apply IH, H.
Qed.

Lemma isascii_rstrip (s : string) :
  Str.isascii s = true -> Str.isascii (Str.rstrip s) = true.
Proof.
  induction s as [|c s IH]; [reflexivity|]. intros H.
  rewrite isascii_cons, andb_true_iff in H. destruct H as [Hc Hs].
  cbn [Str.rstrip]. specialize (IH Hs).
  destruct (Str.rstrip s) as [|a r].
  - destruct (Str.isspace c); [reflexivity|].
    rewrite isascii_cons, Hc. reflexivity.
  - rewrite isascii_cons, Hc, IH. reflexivity.
Qed.

Lemma isascii_strip (s : string) :
  Str.isascii s = true -> Str.isascii (Str.strip s) = true.
Proof. intros H. apply isascii_rstrip, isascii_lstrip, H. Qed.

(** The capital of a character that [isascii] accepts: one character, white
    space only if the character is, with the same lower case, and its own
    capital. *)
Lemma title_char_ascii (c : ascii) :
  (Str.code c <? 128) = true ->
  exists C,
    Str.title_char c = String C EmptyString /\
    Str.isspace C = Str.isspace c /\
    Str.lower_char C = Str.lower_char c /\
    Str.title_char C = String C EmptyString /\
    (Str.code C <? 128) = true.
Proof.
  each_char c; intros H; try discriminate H;
    eexists; (split; [reflexivity|]); repeat split.
Qed.

Lemma lower_capitalize (s : string) :
  Str.isascii s = true -> Str.lower (Str.capitalize s) = Str.lower s.
Proof.
  destruct s as [|c s]; [reflexivity|]. rewrite isascii_cons, andb_true_iff.
  intros [Hc _]. destruct (title_char_ascii c Hc) as (C & HC & _ & Hl & _).
  cbn [Str.capitalize]. rewrite HC, append_cons.
  change (EmptyString +:+ Str.lower s) with (Str.lower s).
  cbn [Str.lower]. rewrite Hl, lower_idemp. reflexivity.
Qed.

Lemma lower_nil (s : string) : Str.lower s = EmptyString -> s = EmptyString.
Proof. destruct s; [reflexivity | discriminate]. Qed.

Lemma lstrip_length (s : string) : String.length (Str.lstrip s) <= String.length s.
Proof.
  induction s as [|c s IH]; [reflexivity|]. cbn [Str.lstrip].
  destruct (Str.isspace c); simpl; lia.
Qed.

(** A string that [strip] has left is left as it is by [strip] after
    [capitalize], and [capitalize] of it is left as it is by [capitalize]. *)
Lemma strip_capitalize (s : string) :
  Str.isascii s = true ->
  Str.lstrip s = s -> Str.rstrip s = s ->
  Str.strip (Str.capitalize s) = Str.capitalize s /\
  Str.capitalize (Str.capitalize s) = Str.capitalize s.
Proof.
  destruct s as [|c s]; [intros; split; reflexivity|].
  rewrite isascii_cons, andb_true_iff. intros [Hc _] Hl Hr.
  destruct (title_char_ascii c Hc) as (C & HC & Hsp & _ & HCC & _).
  cbn [Str.capitalize]. rewrite HC, append_cons.
  change (EmptyString +:+ Str.lower s) with (Str.lower s).
  assert (Hns : Str.isspace c = false).
  { cbn [Str.lstrip] in Hl. destruct (Str.isspace c); [|reflexivity].
    exfalso. pose proof (lstrip_length s) as Hlen.
    rewrite Hl in Hlen. simpl in Hlen. lia. }
  split.
  - unfold Str.strip. cbn [Str.lstrip]. rewrite Hsp, Hns.
    cbn [Str.rstrip] in Hr |- *. rewrite rstrip_lower, Hsp, Hns.
    rewrite Hns in Hr.
    destruct (Str.rstrip s) as [|a r]; [injection Hr as <-; reflexivity|].
    injection Hr as <-. reflexivity.
  - cbn [Str.capitalize]. rewrite HCC, append_cons, lower_idemp. reflexivity.
Qed.

Lemma lstrip_idemp (s : string) : Str.lstrip (Str.lstrip s) = Str.lstrip s.
Proof.
  induction s as [|c s IH]; [reflexivity|]. cbn [Str.lstrip].
  destruct (Str.isspace c) eqn:Hc; [exact IH|]. cbn [Str.lstrip].
  rewrite Hc. reflexivity.
Qed.

Lemma rstrip_idemp (s : string) : Str.rstrip (Str.rstrip s) = Str.rstrip s.
Proof.
  induction s as [|c s IH]; [reflexivity|]. cbn [Str.rstrip].
  destruct (Str.rstrip s) as [|a r] eqn:Hr.
  - destruct (Str.isspace c) eqn:Hc; [reflexivity|].
    cbn [Str.rstrip]. rewrite Hc. reflexivity.
  - cbn [Str.rstrip] in IH |- *. rewrite IH. reflexivity.
Qed.

Lemma lstrip_rstrip (s : string) :
  Str.lstrip (Str.rstrip (Str.lstrip s)) = Str.rstrip (Str.lstrip s).
Proof.
  induction s as [|c s IH]; [reflexivity|]. cbn [Str.lstrip].
  destruct (Str.isspace c) eqn:Hc; [exact IH|].
  cbn [Str.rstrip]. destruct (Str.rstrip s); rewrite ?Hc; cbn [Str.lstrip];
    rewrite Hc; reflexivity.
Qed.

Lemma strip_stripped (s : string) :
  Str.lstrip (Str.strip s) = Str.strip s /\ Str.rstrip (Str.strip s) = Str.strip s.
Proof.
  unfold Str.strip. split; [apply lstrip_rstrip | apply rstrip_idemp].
Qed.

(** ** [standardize_comments] *)

Lemma standardize_row_idemp (row : Point) :
  Str.isascii (comment row) = true ->
  standardize_row (standardize_row row) = standardize_row row.
Proof.
  intros H. unfold standardize_row. cbn [x y comment]. f_equal.
  destruct (strip_stripped (comment row)) as [Hl Hr].
  destruct (strip_capitalize _ (isascii_strip _ H) Hl Hr) as [-> ->].
  reflexivity.
Qed.

Lemma iter_standardize_row (n : nat) (row : Point) :
  Str.isascii (comment row) = true ->
  Nat.iter (S n) standardize_row row = standardize_row row.
Proof.
  intros H. induction n as [|n IH]; [reflexivity|].
  change (Nat.iter (S (S n)) standardize_row row)
    with (standardize_row (Nat.iter (S n) standardize_row row)).
  rewrite IH. apply standardize_row_idemp, H.
Qed.

Lemma fold_alter_lookup {A} (f : A -> A) (data : list nat) (σ : gmap nat A) (l : nat) :
  fold_left (fun σ row => alter f row σ) data σ !! l =
  Nat.iter (count_occ Nat.eq_dec data l) f <$> σ !! l.
Proof.
  revert σ. induction data as [|a data IH]; intros σ.
  - simpl. destruct (σ !! l); reflexivity.
  - cbn [fold_left count_occ]. rewrite IH.
    destruct (Nat.eq_dec a l) as [->|Hne].
    + rewrite lookup_alter_eq. destruct (σ !! l) as [v|]; [|reflexivity].
      simpl. f_equal. symmetry. apply Nat.iter_succ_r.
    + rewrite lookup_alter_ne by exact Hne. reflexivity.
Qed.

(** X21. [standardize_comments] works in place and on the comments only:
    it returns the list it was given, a row that is not in the list is left
    as it is, and the coordinates of every row stay. *)
Theorem standardize_comments_in_place (data : list loc) (σ : store) :
  fst (standardize_comments data σ) = data /\
  (forall row, row ∉ data -> snd (standardize_comments data σ) !! row = σ !! row) /\
  (forall row, coords <$> snd (standardize_comments data σ) !! row
               = coords <$> σ !! row).
Proof.
  unfold store, loc in *.
  assert (H : forall row,
      snd (standardize_comments data σ) !! row =
      Nat.iter (count_occ Nat.eq_dec data row) standardize_row <$> σ !! row)
    by (intros row; apply fold_alter_lookup).
  split; [reflexivity|]. split.
  - intros row Hrow. rewrite H.
    rewrite (proj1 (count_occ_not_In Nat.eq_dec data row)).
    + destruct (_ !! row); reflexivity.
    + intros Hin. apply Hrow, list_elem_of_In, Hin.
  - intros row. rewrite H.
    destruct (_ !! row) as [p|]; [|reflexivity]. simpl. f_equal.
    induction (count_occ Nat.eq_dec data row) as [|n IH]; [reflexivity|].
    simpl. exact IH.
Qed.

Lemma count_occ_elem_of (data : list nat) (l : nat) :
  l ∈ data -> exists n, count_occ Nat.eq_dec data l = S n.
Proof.
  intros H. apply list_elem_of_In, (count_occ_In Nat.eq_dec) in H.
  destruct (count_occ Nat.eq_dec data l) as [|n]; [lia | eauto].
Qed.

Lemma iter_idemp {A} (f : A -> A) (v : A) (n : nat) :
  f (f v) = f v -> Nat.iter (S n) f v = f v /\ Nat.iter n f (f v) = f v.
Proof.
  intros H. induction n as [|n [IH1 IH2]]; [split; reflexivity|]. split.
  - change (f (Nat.iter (S n) f v) = f v). rewrite IH1. exact H.
  - change (f (Nat.iter n f (f v)) = f v). rewrite IH2. exact H.
Qed.

Lemma fold_alter_idemp {A} (f : A -> A) (data : list nat) (m : gmap nat A) :
  (forall l v, l ∈ data -> m !! l = Some v -> f (f v) = f v) ->
  (forall l, l ∈ data ->
     fold_left (fun m row => alter f row m) data m !! l = f <$> m !! l) /\
  fold_left (fun m row => alter f row m) data
    (fold_left (fun m row => alter f row m) data m)
  = fold_left (fun m row => alter f row m) data m.
Proof.
  intros Hf.
  assert (H1 : forall l, l ∈ data ->
     fold_left (fun m row => alter f row m) data m !! l = f <$> m !! l).
  { intros l Hl. rewrite fold_alter_lookup.
    destruct (count_occ_elem_of data l Hl) as [n ->].
    destruct (m !! l) as [v|] eqn:Hv; [|reflexivity].
    cbn [fmap option_fmap option_map]. f_equal.
    apply iter_idemp. eapply Hf; eassumption. }
  split; [exact H1|]. apply map_eq. intros l. rewrite fold_alter_lookup.
  destruct (decide (l ∈ data)) as [Hl|Hl].
  - rewrite (H1 l Hl). destruct (m !! l) as [v|] eqn:Hv; [|reflexivity].
    cbn [fmap option_fmap option_map]. f_equal.
    apply iter_idemp. eapply Hf; eassumption.
  - rewrite (proj1 (count_occ_not_In Nat.eq_dec data l)).
    + destruct (_ !! l); reflexivity.
    + intros Hin. apply Hl, list_elem_of_In, Hin.
Qed.

(** X22. On comments that [isascii] accepts, [standardize_comments] is
    idempotent and does not count how often a row is listed: every listed
    row holds its comment stripped and capitalized once, and a second call
    changes nothing. *)
Theorem standardize_comments_idempotent (data : list loc) (σ : store) :
  (forall l row, l ∈ data -> σ !! l = Some row -> Str.isascii (comment row) = true) ->
  (forall l, l ∈ data ->
     snd (standardize_comments data σ) !! l = standardize_row <$> σ !! l) /\
  snd (standardize_comments data (snd (standardize_comments data σ)))
    = snd (standardize_comments data σ).
Proof.
  intros Hascii. apply (fold_alter_idemp standardize_row data σ).
  intros l row Hl Hrow. apply standardize_row_idemp.
  eapply Hascii; eassumption.
Qed.

Lemma standardize_comments_idempotent_witness :
  snd (standardize_comments [0; 1; 0] two_rows) !! 0
    = Some (mkPoint (Float.of_Z 25) (Float.of_Z 80) "Blue crab reef").
Proof.
  refine (proj1 (standardize_comments_idempotent [0; 1; 0] two_rows _) 0 _).
  - intros l row Hl Hrow.
    apply elem_of_cons in Hl as [->|Hl]; [vm_compute in Hrow; injection Hrow as <-; reflexivity|].
    apply elem_of_cons in Hl as [->|Hl]; [vm_compute in Hrow; injection Hrow as <-; reflexivity|].
    apply elem_of_cons in Hl as [->|Hl]; [vm_compute in Hrow; injection Hrow as <-; reflexivity|].
    inversion Hl.
  - left.
Defined.

(** X23. Filtering the standardized rows selects the standardized versions
    of the rows that filtering selects: for comments that [isascii] accepts
    and a keyword with no white space at its ends, [filter_data] and the
    change [standardize_comments] makes to a row commute. *)
Theorem filter_data_standardize_row (rows : list Point) (keyword : string) :
  Forall (fun row => Str.isascii (comment row) = true) rows ->
  Str.lstrip keyword = keyword -> Str.rstrip keyword = keyword ->
  filter_data (map standardize_row rows) keyword
  = map standardize_row (filter_data rows keyword).
Proof.
  intros Hascii Hl Hr. unfold filter_data. rewrite filter_map_swap. f_equal.
  apply filter_ext_in. intros row Hrow.
  rewrite Forall_forall in Hascii.
  pose proof (Hascii row (proj2 (list_elem_of_In _ _) Hrow)) as Ha.
  unfold standardize_row. cbn [comment].
  rewrite (lower_capitalize _ (isascii_strip _ Ha)), <- strip_lower.
  apply contains_strip.
  - rewrite lstrip_lower, Hl. reflexivity.
  - rewrite rstrip_lower, Hr. reflexivity.
Qed.

Lemma filter_data_standardize_row_witness :
  filter_data (map standardize_row [point_reef; point_wreck]) "CRAB"
  = map standardize_row (filter_data [point_reef; point_wreck] "CRAB").
Proof.
  apply (filter_data_standardize_row [point_reef; point_wreck] "CRAB").
  - repeat constructor.
  - reflexivity.
  - reflexivity.
Defined.

(** ** The clusters and the table of distances *)

Lemma mapM_Return_elem_of {A B} (f : A -> result B) (l : list A) (bs : list B) (a : A) :
  mapM f l = Return bs -> a ∈ l -> exists b, b ∈ bs /\ f a = Return b.
Proof.
  intros H Ha. apply mapM_Return in H.
  induction H as [|a' b l bs Hb _ IH]; [inversion Ha|].
  apply elem_of_cons in Ha as [->|Ha].
  - exists b. split; [left | exact Hb].
  - destruct (IH Ha) as (b' & Hb' & Hf). exists b'. split; [right; exact Hb' | exact Hf].
Qed.

Lemma cluster_members_recorded
    (M : Libm) (data : list Point) (radius : float) (records : list DistanceRecord)
    (i : nat) (seed : Point) (js : list nat) (members : list Point) :
  mapM (distance_record M data) (index_pairs (length data)) = Return records ->
  data !! i = Some seed ->
  Forall (lt i) js ->
  Forall (fun j => close M data radius i j) js ->
  Forall2 (fun j p => data !! j = Some p) js members ->
  Forall (fun p => exists r,
            r ∈ records /\
            point1 r = coords seed /\ point2 r = coords p /\
            Float.leb (distance r) radius = true) members.
Proof.
  intros Hcd Hseed Hlt Hclose Hmembers.
  induction Hmembers as [|j p js members Hp _ IH]; constructor.
  - apply Forall_cons in Hlt as [Hij _].
    apply Forall_cons in Hclose as [(pi & pj & d & Hpi & Hpj & Hd & Hle) _].
    rewrite Hseed in Hpi. injection Hpi as <-.
    rewrite Hp in Hpj. injection Hpj as <-.
    assert (Hin : (i, j) ∈ index_pairs (length data)).
    { apply index_pairs_elem_of. split; [exact Hij|].
      eapply lookup_lt_Some. exact Hp. }
    destruct (mapM_Return_elem_of _ _ _ _ Hcd Hin) as (r & Hr & Hrec).
    unfold distance_record in Hrec. cbn [fst snd] in Hrec.
    unfold getitem in Hrec. rewrite Hseed, Hp in Hrec. cbn [rbind] in Hrec.
    rewrite Hd in Hrec. cbn [rbind] in Hrec. injection Hrec as <-.
    exists (mkDistanceRecord (coords seed) (coords p) d). auto.
  - apply IH.
    + apply Forall_cons in Hlt as [_ H]. exact H.
    + apply Forall_cons in Hclose as [_ H]. exact H.
Qed.

(** X24. [find_clusters] and [calculate_distances] agree: when both return,
    every member of a cluster is paired with the seed of its cluster in a
    record of [calculate_distances], the seed first, and the distance of
    that record is within the radius. *)
Theorem find_clusters_members_recorded
    (M : Libm) (data : list Point) (radius : float)
    (clusters : list (list Point)) (records : list DistanceRecord) :
  find_clusters M data radius = Return clusters ->
  calculate_distances M data = Return records ->
  Forall (fun c => exists seed members,
            c = seed :: members /\
            Forall (fun p => exists r,
                      r ∈ records /\
                      point1 r = coords seed /\ point2 r = coords p /\
                      Float.leb (distance r) radius = true) members) clusters.
Proof.
  intros Hfc Hcd.
  destruct (find_clusters_spec M data radius clusters Hfc) as (ics & Hpts & Hg & _).
  rewrite calculate_distances_loop_pairs, <- index_pairs_loop_pairs in Hcd.
  apply greedy_Forall in Hg. clear Hfc.
  induction Hpts as [|ic c ics clusters Hic _ IH]; constructor.
  - apply Forall_cons in Hg as [(before & i & js & -> & _ & _ & Hsort & Hclose & _) _].
    inversion Hic as [|? seed ? members Hseed Hmembers]; subst.
    exists seed, members. split; [reflexivity|].
    apply StronglySorted_inv in Hsort as [_ Hlt].
    eapply cluster_members_recorded; try eassumption.
    eapply Forall_impl; [exact Hclose|]. simpl. tauto.
  - apply IH. apply Forall_cons in Hg as [_ H]. exact H.
Qed.

Lemma find_clusters_members_recorded_witness :
  exists records,
    calculate_distances series_libm [point_a; point_b; point_c] = Return records /\
    Forall (fun c => exists seed members,
              c = seed :: members /\
              Forall (fun p => exists r,
                        r ∈ records /\
                        point1 r = coords seed /\ point2 r = coords p /\
                        Float.leb (distance r) (Float.of_Z 10) = true) members)
           [[point_a; point_c]; [point_b]].
Proof.
  eexists. split; [vm_compute; reflexivity|].
  apply (find_clusters_members_recorded series_libm [point_a; point_b; point_c]
           (Float.of_Z 10)); vm_compute; reflexivity.
Defined.

(** ** Halving *)

Section Halving.

Local Open Scope Z_scope.

Lemma of_Z_2 : Float.of_Z 2 = S754_finite false 4503599627370496 (-51).
Proof. reflexivity. Qed.

Lemma fexp_eq (z : Z) : fexp Float.prec Float.emax z = Z.max (z - 53) (-1074).
Proof. reflexivity. Qed.

Lemma halving_exponent (e K d1 : Z) :
  e <= K -> -1074 <= K <= 1023 -> 0 <= d1 <= K - e + 1 ->
  let e' := Z.min (fexp Float.prec Float.emax (d1 + e - (53 + -51))) (e - -51) in
  e' <= K /\ e' <= 971 /\ e' <= e + 51.
Proof. intros. unfold e'. clear e'. rewrite fexp_eq. lia. Qed.

Lemma Float_div_two_bounded (v : float) (K : Z) :
  bounded K v -> -1074 <= K <= 1023 ->
  bounded K (Float.div v (Float.of_Z 2)).
Proof.
  rewrite of_Z_2. unfold Float.div.
  destruct v as [s|s| |s m e]; simpl; try tauto.
  intros (HeK & He & Hm) HK.
  unfold SFdiv_core_binary.
  change (Zdigits2 4503599627370496) with 53.
  assert (Hd1 : 0 <= Zdigits2 (Z.pos m) <= K - e + 1).
  { split.
    - simpl. lia.
    - apply Zdigits2_le; try lia.
      replace (K - e + 1) with (Z.succ (K - e)) by lia.
      rewrite Z.pow_succ_r by lia.
      assert (0 < 2 ^ (K - e)) by (apply Z.pow_pos_nonneg; lia). lia. }
  revert Hd1. generalize (Zdigits2 (Z.pos m)). intros d1 Hd1.
  pose proof (halving_exponent e K d1 HeK HK Hd1) as He'.
  cbv zeta in He'. revert He'.
  generalize (Z.min (fexp Float.prec Float.emax (d1 + e - (53 + -51))) (e - -51)).
  intros e' He'.
  set (sh := e - -51 - e').
  assert (Hsh : 0 <= sh) by (unfold sh; lia).
  set (m' := match sh with
             | Z.pos _ => Z.shiftl (Z.pos m) sh
             | 0 => Z.pos m
             | Z.neg _ => 0
             end).
  assert (Hm' : m' = Z.pos m * 2 ^ sh).
  { unfold m'. destruct sh as [|p|p]; [simpl; lia | | lia].
    rewrite Z.shiftl_mul_pow2 by lia. reflexivity. }
  pose proof (Z.div_eucl_eq m' 4503599627370496 ltac:(lia)) as Heq.
  pose proof (Z.mod_pos_bound m' 4503599627370496 ltac:(lia)) as Hmod.
  unfold Z.modulo in Hmod.
  destruct (Z.div_eucl m' 4503599627370496) as [q r].
  assert (H2sh : 0 < 2 ^ sh) by (apply Z.pow_pos_nonneg; lia).
  assert (Hq : 0 <= q) by nia.
  apply binary_round_aux_bounded; try lia.
  assert (Hbound : Z.pos m * 2 ^ sh <= 2 ^ (K - e + sh)).
  { rewrite Z.pow_add_r by lia. apply Z.mul_le_mono_nonneg_r; lia. }
  destruct (Z_lt_le_dec (K - e + sh) 52) as [Hsmall|Hbig].
  - assert (2 ^ (K - e + sh) < 2 ^ 52) by (apply Z.pow_lt_mono_r; lia).
    assert (q = 0) by (change (2 ^ 52) with 4503599627370496 in *; nia).
    subst q. apply Z.pow_pos_nonneg; lia.
  - assert (Hsplit : 2 ^ (K - e + sh) = 2 ^ 52 * 2 ^ (K - e' - 1)).
    { rewrite <- Z.pow_add_r by (unfold sh in *; lia). f_equal. unfold sh. lia. }
    change (2 ^ 52) with 4503599627370496 in Hsplit.
    assert (0 < 2 ^ (K - e' - 1)) by (apply Z.pow_pos_nonneg; unfold sh in *; lia).
    replace (K - e') with (Z.succ (K - e' - 1)) by lia.
    rewrite Z.pow_succ_r by (unfold sh in *; lia).
    nia.
Qed.

End Halving.

(** ** NaN coordinates in [haversine_distance] *)

Lemma radians_bounded_or_nan (v : float) :
  finite_number v \/ v = S754_nan -> bounded_or_nan 1019 (radians v).
Proof.
  intros [H| ->]; [left; apply radians_bounded, H | right; reflexivity].
Qed.

Lemma Float_sub_bounded_or_nan (a b : float) (K : Z) :
  (-1074 <= K + 2 <= 1023)%Z ->
  bounded_or_nan K a -> bounded_or_nan K b ->
  bounded_or_nan (K + 2) (Float.sub b a) /\
  (a = S754_nan \/ b = S754_nan -> Float.sub b a = S754_nan).
Proof.
  intros HK [Ha| ->] [Hb| ->].
  - split; [left; apply Float_sub_bounded; assumption|].
    intros [->| ->]; simpl in *; tauto.
  - split; [right; reflexivity | reflexivity].
  - split; [right | intros _]; destruct b; reflexivity.
  - split; [right; reflexivity | reflexivity].
Qed.

Lemma Float_div_two_bounded_or_nan (v : float) (K : Z) :
  (-1074 <= K <= 1023)%Z ->
  bounded_or_nan K v ->
  bounded_or_nan K (Float.div v (Float.of_Z 2)) /\
  (v = S754_nan -> Float.div v (Float.of_Z 2) = S754_nan).
Proof.
  intros HK [Hv| ->].
  - split; [left; apply Float_div_two_bounded; assumption|].
    intros ->. simpl in Hv. tauto.
  - split; [right; reflexivity | reflexivity].
Qed.

Section HaversineNaN.

Context (M : Libm).

(** The C library: sines and cosines of finite numbers are at most 1 in
    magnitude, the sine and the cosine of a NaN are NaN, and the square of a
    number of magnitude at most 1 is not infinite. *)
Hypothesis sin_unit : forall v, Float.is_finite v = true -> bounded 0 (libm_sin M v).
Hypothesis cos_unit : forall v, Float.is_finite v = true -> bounded 0 (libm_cos M v).
Hypothesis sin_nan : libm_sin M S754_nan = S754_nan.
Hypothesis cos_nan : libm_cos M S754_nan = S754_nan.
Hypothesis pow_finite : forall v,
  bounded 0 v -> Float.is_inf (libm_pow M v (Float.of_Z 2)) = false.

Lemma sin_bounded_or_nan (v : float) (K : Z) :
  bounded_or_nan K v ->
  exists r, sin M v = Return r /\ bounded_or_nan 0 r /\
            (v = S754_nan -> r = S754_nan).
Proof.
  intros [Hv| ->].
  - exists (libm_sin M v). pose proof (sin_unit v (bounded_finite _ _ Hv)) as Hr.
    split; [apply (math_1_bounded _ _ 0 Hr)|]. split; [left; exact Hr|].
    intros ->. simpl in Hv. tauto.
  - exists S754_nan. unfold sin, math_1. rewrite sin_nan.
    split; [reflexivity|]. split; [right; reflexivity | reflexivity].
Qed.

Lemma cos_bounded_or_nan (v : float) (K : Z) :
  bounded_or_nan K v ->
  exists r, cos M v = Return r /\ bounded_or_nan 0 r /\
            (v = S754_nan -> r = S754_nan).
Proof.
  intros [Hv| ->].
  - exists (libm_cos M v). pose proof (cos_unit v (bounded_finite _ _ Hv)) as Hr.
    split; [apply (math_1_bounded _ _ 0 Hr)|]. split; [left; exact Hr|].
    intros ->. simpl in Hv. tauto.
  - exists S754_nan. unfold cos, math_1. rewrite cos_nan.
    split; [reflexivity|]. split; [right; reflexivity | reflexivity].
Qed.

Lemma pow2_bounded_or_nan (s : float) :
  bounded_or_nan 0 s ->
  exists t, pow2 M s = Return t /\ (s = S754_nan -> t = S754_nan).
Proof.
  intros [Hs| ->]; [|exists S754_nan; split; reflexivity].
  destruct s as [z|z| |z m e]; simpl in Hs; try tauto.
  - exists (S754_zero false). split; [reflexivity | discriminate].
  - unfold pow2. cbn [Float.is_nan Float.is_inf Float.is_zero].
    set (iv := if Float.ltb (S754_finite z m e) (S754_zero false)
               then Float.opp (S754_finite z m e) else S754_finite z m e).
    assert (Hiv : bounded 0 iv) by (unfold iv; destruct (Float.ltb _ _); exact Hs).
    destruct (Float.eqb iv (Float.of_Z 1)).
    + eexists. split; [reflexivity | discriminate].
    + rewrite (pow_finite iv Hiv). eexists. split; [reflexivity | discriminate].
Qed.

Lemma Float_add_mul_nan (t1 c1 c2 t2 : float) :
  t1 = S754_nan \/ c1 = S754_nan \/ c2 = S754_nan \/ t2 = S754_nan ->
  Float.add t1 (Float.mul (Float.mul c1 c2) t2) = S754_nan.
Proof.
  intros [->|[->|[->| ->]]].
  - reflexivity.
  - destruct t1; reflexivity.
  - replace (Float.mul c1 S754_nan) with S754_nan by (destruct c1; reflexivity).
    destruct t1; reflexivity.
  - replace (Float.mul (Float.mul c1 c2) S754_nan) with S754_nan
      by (destruct (Float.mul c1 c2); reflexivity).
    destruct t1; reflexivity.
Qed.

Lemma haversine_distance_nan_coordinate (lat1 lon1 lat2 lon2 : float) :
  finite_number lat1 \/ lat1 = S754_nan ->
  finite_number lon1 \/ lon1 = S754_nan ->
  finite_number lat2 \/ lat2 = S754_nan ->
  finite_number lon2 \/ lon2 = S754_nan ->
  lat1 = S754_nan \/ lon1 = S754_nan \/ lat2 = S754_nan \/ lon2 = S754_nan ->
  haversine_distance M (lat1, lon1) (lat2, lon2) = Return S754_nan.
Proof.
  intros H1 H2 H3 H4 Hnan.
  pose proof (radians_bounded_or_nan _ H1) as B1.
  pose proof (radians_bounded_or_nan _ H2) as B2.
  pose proof (radians_bounded_or_nan _ H3) as B3.
  pose proof (radians_bounded_or_nan _ H4) as B4.
  assert (N1 : lat1 = S754_nan -> radians lat1 = S754_nan) by (intros ->; reflexivity).
  assert (N2 : lon1 = S754_nan -> radians lon1 = S754_nan) by (intros ->; reflexivity).
  assert (N3 : lat2 = S754_nan -> radians lat2 = S754_nan) by (intros ->; reflexivity).
  assert (N4 : lon2 = S754_nan -> radians lon2 = S754_nan) by (intros ->; reflexivity).
  unfold haversine_distance. cbn [fst snd].
  revert B1 B2 B3 B4 N1 N2 N3 N4.
  generalize (radians lat1) (radians lon1) (radians lat2) (radians lon2).
  intros r1 l1 r2 l2 B1 B2 B3 B4 N1 N2 N3 N4.
  destruct (Float_sub_bounded_or_nan r1 r2 1019 ltac:(lia) B1 B3) as [Bdlat Ndlat].
  destruct (Float_sub_bounded_or_nan l1 l2 1019 ltac:(lia) B2 B4) as [Bdlon Ndlon].
  destruct (Float_div_two_bounded_or_nan _ (1019 + 2) ltac:(lia) Bdlat) as [Bhlat Nhlat].
  destruct (Float_div_two_bounded_or_nan _ (1019 + 2) ltac:(lia) Bdlon) as [Bhlon Nhlon].
  rewrite !truediv_two. cbn [rbind].
  destruct (sin_bounded_or_nan _ _ Bhlat) as (s1 & -> & Bs1 & Ns1). cbn [rbind].
  destruct (pow2_bounded_or_nan _ Bs1) as (t1 & -> & Nt1). cbn [rbind].
  destruct (cos_bounded_or_nan _ _ B1) as (c1 & -> & _ & Nc1). cbn [rbind].
  destruct (cos_bounded_or_nan _ _ B3) as (c2 & -> & _ & Nc2). cbn [rbind].
  destruct (sin_bounded_or_nan _ _ Bhlon) as (s2 & -> & Bs2 & Ns2). cbn [rbind].
  destruct (pow2_bounded_or_nan _ Bs2) as (t2 & -> & Nt2). cbn [rbind].
  rewrite Float_add_mul_nan; [reflexivity|].
  destruct Hnan as [H|[H|[H|H]]].
  - right. left. apply Nc1, N1, H.
  - right. right. right. apply Nt2, Ns2, Nhlon, Ndlon. left. apply N2, H.
  - right. right. left. apply Nc2, N3, H.
  - right. right. right. apply Nt2, Ns2, Nhlon, Ndlon. right. apply N4, H.
Qed.

End HaversineNaN.

(** X25. A NaN coordinate propagates: when each coordinate is a finite
    number or a NaN and at least one is a NaN, [haversine_distance] returns
    a NaN and raises nothing.  The C library is taken to return sines and
    cosines of magnitude at most 1 for finite arguments, a NaN for the sine
    and the cosine of a NaN, and no infinity for the square of a number of
    magnitude at most 1. *)
Theorem haversine_distance_nan (M : Libm) (coord1 coord2 : coord) :
  (forall v, Float.is_finite v = true -> bounded 0 (libm_sin M v)) ->
  (forall v, Float.is_finite v = true -> bounded 0 (libm_cos M v)) ->
  libm_sin M S754_nan = S754_nan ->
  libm_cos M S754_nan = S754_nan ->
  (forall v, bounded 0 v -> Float.is_inf (libm_pow M v (Float.of_Z 2)) = false) ->
  Forall (fun v => finite_number v \/ v = S754_nan)
         [fst coord1; snd coord1; fst coord2; snd coord2] ->
  Exists (fun v => v = S754_nan)
         [fst coord1; snd coord1; fst coord2; snd coord2] ->
  haversine_distance M coord1 coord2 = Return S754_nan.
Proof.
  destruct coord1 as [lat1 lon1], coord2 as [lat2 lon2]. cbn [fst snd].
  intros Hs Hc Hsn Hcn Hp Hall Hex.
  apply Forall_cons in Hall as [H1 Hall]. apply Forall_cons in Hall as [H2 Hall].
  apply Forall_cons in Hall as [H3 Hall]. apply Forall_cons in Hall as [H4 _].
  apply haversine_distance_nan_coordinate; try assumption.
  apply Exists_cons in Hex as [H|Hex]; [auto|].
  apply Exists_cons in Hex as [H|Hex]; [auto|].
  apply Exists_cons in Hex as [H|Hex]; [auto|].
  apply Exists_cons in Hex as [H|Hex]; [auto 6|]. inversion Hex.
Qed.

Lemma series_libm_pow_finite (v : float) :
  bounded 0 v -> Float.is_inf (libm_pow series_libm v (Float.of_Z 2)) = false.
Proof.
  intros Hv. cbn [libm_pow series_libm].
  assert (Hb : bounded 1 (Float.mul v v)).
  { apply (Float_mul_bounded v v 0 0 Hv Hv); lia. }
  destruct (Float.mul v v); simpl in Hb; try tauto; reflexivity.
Qed.

Lemma haversine_distance_nan_witness :
  haversine_distance series_libm (S754_nan, Float.of_Z (-80)) (coords point_b)
    = Return S754_nan.
Proof.
  apply (haversine_distance_nan series_libm (S754_nan, Float.of_Z (-80))
           (coords point_b)).
  - exact series_libm_sin_unit.
  - exact series_libm_cos_unit.
  - reflexivity.
  - reflexivity.
  - exact series_libm_pow_finite.
  - apply Forall_cons. split; [right; reflexivity|].
    repeat (apply Forall_cons; split; [left; split; reflexivity|]).
    constructor.
  - apply Exists_cons_hd. reflexivity.
Defined.

(** ** Rows with a NaN coordinate in [find_clusters] *)

Lemma Float_leb_nan (radius : float) : Float.leb S754_nan radius = false.
Proof. destruct radius; reflexivity. Qed.

(** X26. A row with a NaN coordinate is always alone in its cluster: its
    distance to any other point is a NaN, which is not within any radius.
    The coordinates of the dataset are finite numbers or NaN, and the C
    library is as for the propagation of a NaN by [haversine_distance]. *)
Theorem find_clusters_nan_alone
    (M : Libm) (data : list Point) (radius : float) (clusters : list (list Point))
    (i : nat) (p : Point) :
  (forall v, Float.is_finite v = true -> bounded 0 (libm_sin M v)) ->
  (forall v, Float.is_finite v = true -> bounded 0 (libm_cos M v)) ->
  libm_sin M S754_nan = S754_nan ->
  libm_cos M S754_nan = S754_nan ->
  (forall v, bounded 0 v -> Float.is_inf (libm_pow M v (Float.of_Z 2)) = false) ->
  Forall (fun q => (finite_number (x q) \/ x q = S754_nan) /\
                   (finite_number (y q) \/ y q = S754_nan)) data ->
  find_clusters M data radius = Return clusters ->
  data !! i = Some p ->
  x p = S754_nan \/ y p = S754_nan ->
  exists ics,
    Forall2 (points_at data) ics clusters /\
    concat ics ≡ₚ seq 0 (length data) /\
    [i] ∈ ics.
Proof.
  intros Hs Hc Hsn Hcn Hp Hall Hfc Hi Hnan.
  destruct (find_clusters_spec M data radius clusters Hfc) as (ics & Hpts & Hg & Hcover).
  exists ics. split; [exact Hpts|].
  split; [exact (greedy_cover_Permutation M data radius ics clusters Hpts Hg Hcover)|].
  assert (Hfar : forall j, ~ close M data radius i j /\ ~ close M data radius j i).
  { intros j. rewrite Forall_forall in Hall.
    destruct (Hall p (list_elem_of_lookup_2 _ _ _ Hi)) as [Hpx Hpy].
    split; intros (pa & pb & d & Ha & Hb & Hd & Hle).
    - rewrite Hi in Ha. injection Ha as <-.
      destruct (Hall pb (list_elem_of_lookup_2 _ _ _ Hb)) as [Hbx Hby].
      unfold coords in Hd.
      rewrite (haversine_distance_nan_coordinate M Hs Hc Hsn Hcn Hp) in Hd;
        try assumption; [|tauto].
      injection Hd as <-. rewrite Float_leb_nan in Hle. discriminate.
    - rewrite Hi in Hb. injection Hb as <-.
      destruct (Hall pa (list_elem_of_lookup_2 _ _ _ Ha)) as [Hax Hay].
      unfold coords in Hd.
      rewrite (haversine_distance_nan_coordinate M Hs Hc Hsn Hcn Hp) in Hd;
        try assumption; [|tauto].
      injection Hd as <-. rewrite Float_leb_nan in Hle. discriminate. }
  assert (Hin : i ∈ concat ics).
  { apply Hcover. eapply lookup_lt_Some. exact Hi. }
  apply list_elem_of_In, in_concat in Hin as (ic & Hic & Hiic).
  apply list_elem_of_In in Hic, Hiic.
  apply greedy_Forall in Hg. rewrite Forall_forall in Hg.
  destruct (Hg ic Hic) as (before & s & js & -> & _ & _ & _ & Hclose & _).
  apply elem_of_cons in Hiic as [->|Hiic].
  - destruct js as [|j js]; [exact Hic|].
    apply Forall_cons in Hclose as [[_ Hcl] _].
    destruct (Hfar j) as [H _]. contradiction.
  - rewrite Forall_forall in Hclose. destruct (Hclose i Hiic) as [_ Hcl].
    destruct (Hfar s) as [_ H]. contradiction.
Qed.

Lemma find_clusters_nan_alone_witness :
  exists ics,
    Forall2 (points_at [point_a; mkPoint S754_nan (Float.of_Z (-80)) "lost"; point_c])
            ics
            [[point_a; point_c]; [mkPoint S754_nan (Float.of_Z (-80)) "lost"]] /\
    concat ics ≡ₚ seq 0 3 /\
    [1] ∈ ics.
Proof.
  apply (find_clusters_nan_alone series_libm
           [point_a; mkPoint S754_nan (Float.of_Z (-80)) "lost"; point_c]
           (Float.of_Z 10)
           [[point_a; point_c]; [mkPoint S754_nan (Float.of_Z (-80)) "lost"]]
           1 (mkPoint S754_nan (Float.of_Z (-80)) "lost")).
  - exact series_libm_sin_unit.
  - exact series_libm_cos_unit.
  - reflexivity.
  - reflexivity.
  - exact series_libm_pow_finite.
  - apply Forall_cons. split; [split; left; split; reflexivity|].
    apply Forall_cons. split; [split; [right | left; split]; reflexivity|].
    apply Forall_cons. split; [split; left; split; reflexivity|].
    constructor.
  - vm_compute. reflexivity.
  - reflexivity.
  - left. reflexivity.
Defined.
